(** * S6Importer: the RCT2 scenario / saved-game importer

    A shallow embedding of [src/openrct2/rct2/S6Importer.cpp] and the
    properties of its tile decoder, peep-spawn migration, research bitmap
    decoding, rider recount, station migration and stream loading.

    Integers are modelled as [Z]; where the C++ type can wrap
    (the [uint16_t] rider counter) the wrap-around is written out.
    Fixed-size C arrays are lists read and written by index. *)

From Stdlib Require Import ZArith Lia Bool.
From stdpp Require Import base list strings gmap.

Local Open Scope Z_scope.

(* ================================================================== *)
(** * Part I: definitions                                              *)
(* ================================================================== *)

(** ** Constants declared outside the translated file

    [S6Importer.cpp] takes these from headers ([rct2/RCT2.h],
    [rct12/RCT12.h], [ride/Ride.h], [world/Sprite.h], ...).  They are
    parameters of the development; [rct2_constants] below is one instance,
    used by the concrete examples. *)
Class FormatConstants := {
  RCT12_MAX_PEEP_SPAWNS : nat;
  PEEP_SPAWN_UNDEFINED : Z;
  RCT2_MAX_TILE_ELEMENTS : nat;
  RIDE_TYPE_COUNT : Z;
  MAX_RIDE_OBJECTS : Z;
  RCT2_MAX_RESEARCHED_SCENERY_ITEMS : Z;
  RCT12_MAX_RIDES_IN_PARK : nat;
  RIDE_TYPE_NULL : Z;
  RCT12_MAX_STATIONS_PER_RIDE : nat;
  MAX_STATIONS : nat;
  RCT_XY8_UNDEFINED : Z;
  SPRITE_INDEX_NULL : Z;
  SPRITE_IDENTIFIER_PEEP : Z;
  PEEP_STATE_ON_RIDE : Z;
  PEEP_STATE_ENTERING_RIDE : Z;
  S6_TYPE_SAVEDGAME : Z;
  S6_TYPE_SCENARIO : Z;
  OWNERSHIP_OWNED : Z;
  sizeof_header : Z;
  sizeof_info : Z;
  sizeof_objects : Z;
  sizeof_tile_elements : Z
}.

(** [for (i = start; i < start + n; i++) body(i)] over a threaded state. *)
Fixpoint for_range {S : Type} (start n : nat) (body : nat -> S -> S) (s : S) : S :=
  match n with
  | O => s
  | Datatypes.S n' => for_range (Datatypes.S start) n' body (body start s)
  end.

(** ** Peep spawns *)

(** [rct12_peep_spawn]: uint16 x, uint16 y, uint8 z, uint8 direction. *)
Module rct12_peep_spawn.
Record t := mk { x : Z; y : Z; z : Z; direction : Z }.
End rct12_peep_spawn.

(** [PeepSpawn]: 32-bit coordinates and a direction. *)
Module PeepSpawn.
Record t := mk { x : Z; y : Z; z : Z; direction : Z }.
End PeepSpawn.

(** Modelled from the spec: [String::Equals] with its default arguments
    ([core/String.hpp] is not among the sources).  The quirk lookup is an
    exact string match. *)
Definition String_Equals (a b : string) : bool := String.eqb a b.

Section PeepSpawns.
Context {C : FormatConstants}.

(** The filename-keyed corrections at the head of [ImportPeepSpawns]; they
    overwrite entries of [_s6.peep_spawns] in place. *)
Definition ImportPeepSpawns_quirks (scenario_filename : string)
    (peep_spawns : list rct12_peep_spawn.t) : list rct12_peep_spawn.t :=
  if String_Equals scenario_filename "WW South America - Rio Carnival.SC6"
     || String_Equals scenario_filename "South America - Rio Carnival.SC6"
  then
    let peep_spawns := <[0%nat := rct12_peep_spawn.mk 2160 3167 6 1]> peep_spawns in
    alter (fun s => rct12_peep_spawn.mk PEEP_SPAWN_UNDEFINED (rct12_peep_spawn.y s)
                      (rct12_peep_spawn.z s) (rct12_peep_spawn.direction s))
          1%nat peep_spawns
  else if String_Equals scenario_filename "Great Wall of China Tourism Enhancement.SC6"
       || String_Equals scenario_filename "Asia - Great Wall of China Tourism Enhancement.SC6"
  then
    alter (fun s => rct12_peep_spawn.mk PEEP_SPAWN_UNDEFINED (rct12_peep_spawn.y s)
                      (rct12_peep_spawn.z s) (rct12_peep_spawn.direction s))
          1%nat peep_spawns
  else if String_Equals scenario_filename "Amity Airfield.SC6"
  then
    alter (fun s => rct12_peep_spawn.mk (rct12_peep_spawn.x s) 1296
                      (rct12_peep_spawn.z s) (rct12_peep_spawn.direction s))
          0%nat peep_spawns
  else peep_spawns.

(** One iteration of the migration loop: [push_back] unless the x
    coordinate is the undefined marker. *)
Definition ImportPeepSpawns_body (peep_spawns : list rct12_peep_spawn.t)
    (i : nat) (gPeepSpawns : list PeepSpawn.t) : list PeepSpawn.t :=
  match peep_spawns !! i with
  | Some src =>
      if negb (rct12_peep_spawn.x src =? PEEP_SPAWN_UNDEFINED)
      then gPeepSpawns ++
           [PeepSpawn.mk (rct12_peep_spawn.x src) (rct12_peep_spawn.y src)
                         (rct12_peep_spawn.z src * 16) (rct12_peep_spawn.direction src)]
      else gPeepSpawns
  | None => gPeepSpawns
  end.

(** [gPeepSpawns.clear()] followed by the loop over the fixed array. *)
Definition ImportPeepSpawns_loop (peep_spawns : list rct12_peep_spawn.t)
    (gPeepSpawns : list PeepSpawn.t) : list PeepSpawn.t :=
  let gPeepSpawns := @nil PeepSpawn.t in
  for_range 0 RCT12_MAX_PEEP_SPAWNS (ImportPeepSpawns_body peep_spawns) gPeepSpawns.

(** [S6Importer::ImportPeepSpawns]: returns the patched [_s6.peep_spawns]
    and the new [gPeepSpawns]. *)
Definition ImportPeepSpawns (scenario_filename : string)
    (peep_spawns : list rct12_peep_spawn.t) (gPeepSpawns : list PeepSpawn.t)
    : list rct12_peep_spawn.t * list PeepSpawn.t :=
  let peep_spawns := ImportPeepSpawns_quirks scenario_filename peep_spawns in
  (peep_spawns, ImportPeepSpawns_loop peep_spawns gPeepSpawns).

(** The specification's rule, entry by entry: an entry with the undefined x is
    dropped, any other becomes a spawn with z scaled by 16. *)
Definition migrate_spawn (src : rct12_peep_spawn.t) : option PeepSpawn.t :=
  if decide (rct12_peep_spawn.x src = PEEP_SPAWN_UNDEFINED) then None
  else Some (PeepSpawn.mk (rct12_peep_spawn.x src) (rct12_peep_spawn.y src)
                          (rct12_peep_spawn.z src * 16) (rct12_peep_spawn.direction src)).

End PeepSpawns.

(** The filenames that have a correction registered, in [ImportPeepSpawns]
    and at the end of [Import]. *)
Definition registered_quirk_filenames : list string :=
  [ "WW South America - Rio Carnival.SC6";
    "South America - Rio Carnival.SC6";
    "Great Wall of China Tourism Enhancement.SC6";
    "Asia - Great Wall of China Tourism Enhancement.SC6";
    "Amity Airfield.SC6";
    "Europe - European Cultural Festival.SC6" ]%string.

Section ImportQuirks.
Context {C : FormatConstants}.
(** The destination map state and the land-ownership repair
    [FixLandOwnershipTilesWithOwnership] live outside the translated file. *)
Context {World : Type}.
Variable FixLandOwnershipTilesWithOwnership : list (Z * Z) -> Z -> World -> World.

(** The filename-keyed correction that closes [S6Importer::Import]. *)
Definition Import_quirks (scenario_filename : string) (w : World) : World :=
  if String_Equals scenario_filename "Europe - European Cultural Festival.SC6"
  then
    FixLandOwnershipTilesWithOwnership
      [ (67, 94); (68, 94); (69, 94);
        (58, 24); (58, 25); (58, 26); (58, 27); (58, 28); (58, 29); (58, 30); (58, 31); (58, 32);
        (26, 44); (26, 45);
        (32, 79); (32, 80); (32, 81) ]
      OWNERSHIP_OWNED w
  else w.

End ImportQuirks.

(** ** Rides *)

(** [rct_sprite] is a union; the importer looks at it through
    [generic.sprite_identifier], [peep.current_ride] and [peep.state]. *)
Module rct_sprite.
Record t := mk { sprite_identifier : Z; current_ride : Z; state : Z }.
End rct_sprite.

(** [LocationXY8]: two bytes [x], [y] overlaid with the 16-bit [xy]
    (little endian: [x] is the low byte). *)
Module LocationXY8.
Record t := mk { x : Z; y : Z }.
Definition xy (l : t) : Z := Z.lor (x l) (Z.shiftl (y l) 8).
End LocationXY8.

#[global] Instance LocationXY8_inhabited : Inhabited LocationXY8.t :=
  populate (LocationXY8.mk 0 0).

Module TileCoordsXYZD.
Record t := mk { x : Z; y : Z; z : Z; direction : Z }.
End TileCoordsXYZD.

(** Modelled from the spec: the station entrance / exit slot written by
    [ride_set_entrance_location], [ride_set_exit_location] and emptied by
    [ride_clear_entrance_location], [ride_clear_exit_location]
    ([ride/Ride.cpp] is not among the sources): a location is either
    cleared or holds the coordinates last set. *)
Inductive StationLocation :=
  | LocationCleared
  | LocationAt (c : TileCoordsXYZD.t).

Module RideStation.
Record t := mk {
  Start : LocationXY8.t;
  Height : Z;
  Length : Z;
  Depart : Z;
  TrainAtStation : Z;
  Entrance : StationLocation;
  Exit : StationLocation;
  LastPeepInQueue : Z;
  SegmentLength : Z;
  SegmentTime : Z;
  QueueTime : Z;
  QueueLength : Z
}.
(** The value-initialised station of [*dst = {}]. *)
Definition zero : t :=
  mk (LocationXY8.mk 0 0) 0 0 0 0
     (LocationAt (TileCoordsXYZD.mk 0 0 0 0)) (LocationAt (TileCoordsXYZD.mk 0 0 0 0))
     0 0 0 0 0.
End RideStation.

(** [rct2_ride], the raw ride record; [num_riders] is the counter stored
    in the file.  The fields [ImportRide] copies one to one
    ([dst->f = src->f], scalars and element-wise array copies) are gathered
    in one component, [copied], of type [RideFields]. *)
Module rct2_ride.
Record t {RideFields : Type} := mk {
  type : Z;
  station_starts : list LocationXY8.t;
  station_heights : list Z;
  station_length : list Z;
  station_depart : list Z;
  train_at_station : list Z;
  entrances : list LocationXY8.t;
  exits : list LocationXY8.t;
  last_peep_in_queue : list Z;
  length : list Z;
  time : list Z;
  queue_time : list Z;
  queue_length : list Z;
  num_riders : Z;
  copied : RideFields
}.
Arguments t : clear implicits.
End rct2_ride.

(** [Ride], the destination ride; [copied] is [None] in a value-initialised
    ride. *)
Module Ride.
Record t {RideFields : Type} := mk {
  id : Z;
  type : Z;
  stations : list RideStation.t;
  num_riders : Z;
  copied : option RideFields
}.
Arguments t : clear implicits.
End Ride.

Section Rides.
Context {C : FormatConstants}.
Context {RideFields : Type}.

(** [*dst = {}] *)
Definition Ride_zero : Ride.t RideFields :=
  {| Ride.id := 0; Ride.type := 0;
     Ride.stations := replicate MAX_STATIONS RideStation.zero;
     Ride.num_riders := 0; Ride.copied := None |}.

(** [S6Importer::ImportNumRiders]; [numRiders] is a [uint16_t]. *)
Definition ImportNumRiders (sprites : list rct_sprite.t) (rideIndex : Z) : Z :=
  foldl (fun numRiders sprite =>
           if rct_sprite.sprite_identifier sprite =? SPRITE_IDENTIFIER_PEEP
           then
             if (rct_sprite.current_ride sprite =? rideIndex)
                && ((rct_sprite.state sprite =? PEEP_STATE_ON_RIDE)
                    || (rct_sprite.state sprite =? PEEP_STATE_ENTERING_RIDE))
             then (numRiders + 1) mod 65536
             else numRiders
           else numRiders)
        0 sprites.

(** Body of the first station loop of [ImportRide],
    [i < RCT12_MAX_STATIONS_PER_RIDE].  The raw per-station arrays have
    [RCT12_MAX_STATIONS_PER_RIDE] entries, so each [arr !!! i] is an
    in-range read. *)
Definition ImportRide_station (src : rct2_ride.t RideFields) (i : nat)
    (stations : list RideStation.t) : list RideStation.t :=
  alter (fun st =>
    {| RideStation.Start := rct2_ride.station_starts src !!! i;
       RideStation.Height := rct2_ride.station_heights src !!! i;
       RideStation.Length := rct2_ride.station_length src !!! i;
       RideStation.Depart := rct2_ride.station_depart src !!! i;
       RideStation.TrainAtStation := rct2_ride.train_at_station src !!! i;
       RideStation.Entrance :=
         if LocationXY8.xy (rct2_ride.entrances src !!! i) =? RCT_XY8_UNDEFINED
         then LocationCleared
         else LocationAt (TileCoordsXYZD.mk (LocationXY8.x (rct2_ride.entrances src !!! i))
                                            (LocationXY8.y (rct2_ride.entrances src !!! i))
                                            (rct2_ride.station_heights src !!! i) 0);
       RideStation.Exit :=
         if LocationXY8.xy (rct2_ride.exits src !!! i) =? RCT_XY8_UNDEFINED
         then LocationCleared
         else LocationAt (TileCoordsXYZD.mk (LocationXY8.x (rct2_ride.entrances src !!! i))
                                            (LocationXY8.y (rct2_ride.entrances src !!! i))
                                            (rct2_ride.station_heights src !!! i) 0);
       RideStation.LastPeepInQueue := rct2_ride.last_peep_in_queue src !!! i;
       RideStation.SegmentLength := rct2_ride.length src !!! i;
       RideStation.SegmentTime := rct2_ride.time src !!! i;
       RideStation.QueueTime := rct2_ride.queue_time src !!! i;
       RideStation.QueueLength := rct2_ride.queue_length src !!! i |}) i stations.

(** Body of the second station loop,
    [RCT12_MAX_STATIONS_PER_RIDE <= i < MAX_STATIONS]. *)
Definition ImportRide_extra_station (i : nat)
    (stations : list RideStation.t) : list RideStation.t :=
  alter (fun st =>
    {| RideStation.Start := LocationXY8.mk (Z.land RCT_XY8_UNDEFINED 255)
                                           (Z.shiftr RCT_XY8_UNDEFINED 8);
       RideStation.Height := RideStation.Height st;
       RideStation.Length := RideStation.Length st;
       RideStation.Depart := RideStation.Depart st;
       RideStation.TrainAtStation := 255;
       RideStation.Entrance := LocationCleared;
       RideStation.Exit := LocationCleared;
       RideStation.LastPeepInQueue := SPRITE_INDEX_NULL;
       RideStation.SegmentLength := RideStation.SegmentLength st;
       RideStation.SegmentTime := RideStation.SegmentTime st;
       RideStation.QueueTime := RideStation.QueueTime st;
       RideStation.QueueLength := RideStation.QueueLength st |}) i stations.

(** [S6Importer::ImportRide]. *)
Definition ImportRide (sprites : list rct_sprite.t) (dst : Ride.t RideFields)
    (src : rct2_ride.t RideFields) (rideIndex : Z) : Ride.t RideFields :=
  let dst := Ride_zero in
  let stations1 :=
    for_range 0 RCT12_MAX_STATIONS_PER_RIDE (ImportRide_station src) (Ride.stations dst) in
  let stations2 :=
    for_range RCT12_MAX_STATIONS_PER_RIDE (MAX_STATIONS - RCT12_MAX_STATIONS_PER_RIDE)
              ImportRide_extra_station stations1 in
  {| Ride.id := rideIndex;
     Ride.type := rct2_ride.type src;
     Ride.stations := stations2;
     Ride.num_riders := ImportNumRiders sprites rideIndex;
     Ride.copied := Some (rct2_ride.copied src) |}.

(** [S6Importer::ImportRides]: [get_ride(index)] is slot [index] of the
    destination ride list. *)
Definition ImportRides (sprites : list rct_sprite.t) (rides : list (rct2_ride.t RideFields))
    (gRideList : list (Ride.t RideFields)) : list (Ride.t RideFields) :=
  for_range 0 RCT12_MAX_RIDES_IN_PARK
    (fun index gRideList =>
       match rides !! index with
       | Some src =>
           if negb (rct2_ride.type src =? RIDE_TYPE_NULL)
           then alter (fun dst => ImportRide sprites dst src (Z.of_nat index)) index gRideList
           else gRideList
       | None => gRideList
       end)
    gRideList.

(** In the specification's words: a raw sprite counts as a rider of [rideIndex] when
    it is a peep, its current ride is [rideIndex] and its state is "on ride"
    or "entering ride". *)
Definition is_rider (rideIndex : Z) (sprite : rct_sprite.t) : Prop :=
  rct_sprite.sprite_identifier sprite = SPRITE_IDENTIFIER_PEEP
  /\ rct_sprite.current_ride sprite = rideIndex
  /\ (rct_sprite.state sprite = PEEP_STATE_ON_RIDE
      \/ rct_sprite.state sprite = PEEP_STATE_ENTERING_RIDE).

#[global] Instance is_rider_dec rideIndex sprite : Decision (is_rider rideIndex sprite).
Proof. unfold is_rider. apply _. Defined.

End Rides.

(** An instance with the sizes and markers of an RCT2 park file, for the
    concrete examples. *)
Definition rct2_constants : FormatConstants := {|
  RCT12_MAX_PEEP_SPAWNS := 2;
  PEEP_SPAWN_UNDEFINED := 0xFFFF;
  RCT2_MAX_TILE_ELEMENTS := Z.to_nat 0x30000;
  RCT12_MAX_RIDES_IN_PARK := 255;
  RIDE_TYPE_NULL := 255;
  RIDE_TYPE_COUNT := 91;
  MAX_RIDE_OBJECTS := 128;
  RCT2_MAX_RESEARCHED_SCENERY_ITEMS := 1792;
  RCT12_MAX_STATIONS_PER_RIDE := 4;
  MAX_STATIONS := 4;
  RCT_XY8_UNDEFINED := 0xFFFF;
  SPRITE_INDEX_NULL := 0xFFFF;
  SPRITE_IDENTIFIER_PEEP := 1;
  PEEP_STATE_ON_RIDE := 3;
  PEEP_STATE_ENTERING_RIDE := 7;
  S6_TYPE_SAVEDGAME := 0;
  S6_TYPE_SCENARIO := 1;
  OWNERSHIP_OWNED := 32;
  sizeof_header := 32;
  sizeof_info := 324;
  sizeof_objects := 11536;
  sizeof_tile_elements := 1572864
|}.

(** ** Research bitmaps *)

(** Modelled from the spec: the "invented" flags kept by
    [management/Research.cpp] (not among the sources).  Each of the three
    tables is the set of indices currently marked "invented";
    [set_every_..._not_invented] empties a table and [..._set_invented]
    marks one index. *)
Record ResearchInvented := {
  ride_types_invented : gset Z;
  ride_entries_invented : gset Z;
  scenery_items_invented : gset Z
}.

Definition set_every_ride_type_not_invented (r : ResearchInvented) : ResearchInvented :=
  {| ride_types_invented := ∅;
     ride_entries_invented := ride_entries_invented r;
     scenery_items_invented := scenery_items_invented r |}.

Definition ride_type_set_invented (rideType : Z) (r : ResearchInvented) : ResearchInvented :=
  {| ride_types_invented := {[rideType]} ∪ ride_types_invented r;
     ride_entries_invented := ride_entries_invented r;
     scenery_items_invented := scenery_items_invented r |}.

Definition set_every_ride_entry_not_invented (r : ResearchInvented) : ResearchInvented :=
  {| ride_types_invented := ride_types_invented r;
     ride_entries_invented := ∅;
     scenery_items_invented := scenery_items_invented r |}.

Definition ride_entry_set_invented (rideEntryIndex : Z) (r : ResearchInvented) : ResearchInvented :=
  {| ride_types_invented := ride_types_invented r;
     ride_entries_invented := {[rideEntryIndex]} ∪ ride_entries_invented r;
     scenery_items_invented := scenery_items_invented r |}.

Definition set_all_scenery_items_not_invented (r : ResearchInvented) : ResearchInvented :=
  {| ride_types_invented := ride_types_invented r;
     ride_entries_invented := ride_entries_invented r;
     scenery_items_invented := ∅ |}.

Definition scenery_set_invented (sceneryEntryIndex : Z) (r : ResearchInvented) : ResearchInvented :=
  {| ride_types_invented := ride_types_invented r;
     ride_entries_invented := ride_entries_invented r;
     scenery_items_invented := {[sceneryEntryIndex]} ∪ scenery_items_invented r |}.

Section Research.
Context {C : FormatConstants}.

(** [S6Importer::ImportResearchedRideTypes]; [researched_ride_types] is the
    array of 32-bit words [_s6.researched_ride_types].  The C array holds a
    bit for every scanned index, so [words !!! quadIndex] is always an
    in-range read. *)
Definition ImportResearchedRideTypes (researched_ride_types : list Z)
    (r : ResearchInvented) : ResearchInvented :=
  let r := set_every_ride_type_not_invented r in
  for_range 0 (Z.to_nat RIDE_TYPE_COUNT)
    (fun i r =>
       let rideType := Z.of_nat i in
       let quadIndex := Z.shiftr rideType 5 in
       let bitIndex := Z.land rideType 0x1F in
       let invented :=
         negb (Z.land (researched_ride_types !!! Z.to_nat quadIndex)
                      (Z.shiftl 1 bitIndex) =? 0) in
       if invented then ride_type_set_invented rideType r else r)
    r.

(** [S6Importer::ImportResearchedRideEntries]. *)
Definition ImportResearchedRideEntries (researched_ride_entries : list Z)
    (r : ResearchInvented) : ResearchInvented :=
  let r := set_every_ride_entry_not_invented r in
  for_range 0 (Z.to_nat MAX_RIDE_OBJECTS)
    (fun i r =>
       let rideEntryIndex := Z.of_nat i in
       let quadIndex := Z.shiftr rideEntryIndex 5 in
       let bitIndex := Z.land rideEntryIndex 0x1F in
       let invented :=
         negb (Z.land (researched_ride_entries !!! Z.to_nat quadIndex)
                      (Z.shiftl 1 bitIndex) =? 0) in
       if invented then ride_entry_set_invented rideEntryIndex r else r)
    r.

(** [S6Importer::ImportResearchedSceneryItems]. *)
Definition ImportResearchedSceneryItems (researched_scenery_items : list Z)
    (r : ResearchInvented) : ResearchInvented :=
  let r := set_all_scenery_items_not_invented r in
  for_range 0 (Z.to_nat RCT2_MAX_RESEARCHED_SCENERY_ITEMS)
    (fun i r =>
       let sceneryEntryIndex := Z.of_nat i in
       let quadIndex := Z.shiftr sceneryEntryIndex 5 in
       let bitIndex := Z.land sceneryEntryIndex 0x1F in
       let invented :=
         negb (Z.land (researched_scenery_items !!! Z.to_nat quadIndex)
                      (Z.shiftl 1 bitIndex) =? 0) in
       if invented then scenery_set_invented sceneryEntryIndex r else r)
    r.

End Research.

(** In the specification's words: bit [index & 31] of word [index >> 5] of a bit
    array is set. *)
Definition bitmap_bit_set (words : list Z) (index : Z) : Prop :=
  exists w, words !! Z.to_nat (Z.shiftr index 5) = Some w
            /\ Z.testbit w (Z.land index 31) = true.

(** ** Loading from a stream *)

(** The members of [_s6] that [LoadFromStream] reads chunks into. *)
Inductive S6Member :=
  | s6_header
  | s6_info
  | s6_objects
  | s6_elapsed_months
  | s6_tile_elements
  | s6_next_free_tile_element_pointer_index
  | s6_guests_in_park
  | s6_last_guests_in_park
  | s6_park_rating
  | s6_active_research_types
  | s6_current_expenditure
  | s6_park_value
  | s6_completed_company_value.

#[global] Instance S6Member_eq_dec : EqDecision S6Member.
Proof. solve_decision. Defined.

(** What the call does to the stream, in order: a
    [chunkReader.ReadChunk(&_s6.member, length)] or an
    [_objectRepository.ExportPackedObject(stream)]. *)
Inductive StreamEvent :=
  | EvReadChunk (dst : S6Member) (length : Z)
  | EvExportPackedObject.

(** The exceptions that leave [LoadFromStream].  [CollaboratorException]
    stands for whatever the chunk reader or the object repository throws. *)
Inductive Exception :=
  | IOException (what : string)
  | runtime_error (what : string)
  | UnsupportedRCTCFlagException (flag : Z)
  | CollaboratorException.

Inductive Outcome (A : Type) :=
  | Returned (a : A)
  | Thrown (e : Exception).
Arguments Returned {A} a.
Arguments Thrown {A} e.

(** The three header fields the loader looks at. *)
Module rct_s6_header.
Record t := mk { type : Z; classic_flag : Z; num_packed_objects : Z }.
End rct_s6_header.

(** The collaborators of [LoadFromStream], all outside the translated
    file: [SawyerEncoding::ValidateChecksum], [SawyerChunkReader::ReadChunk]
    (it yields the chunk's payload, or throws), the object repository's
    [ExportPackedObject], and the overlay of the first chunk as
    [rct_s6_header]. *)
Class StreamOps (Stream Payload : Type) := {
  ValidateChecksum : Stream -> bool * Stream;
  ReadChunk : Z -> Stream -> option (Payload * Stream);
  ExportPackedObject : Stream -> option Stream;
  header_of : Payload -> rct_s6_header.t
}.

Section LoadFromStream.
Context {C : FormatConstants}.
Context {Stream Payload : Type} {ops : StreamOps Stream Payload}.

(** State threaded through the call: the stream, the events so far, and
    the chunks stored into [_s6]. *)
Record LoadState := {
  stream : Stream;
  events : list StreamEvent;
  s6 : list (S6Member * Payload)
}.

Definition LoadM (A : Type) : Type := LoadState -> LoadState * Outcome A.

Definition ret {A : Type} (a : A) : LoadM A := fun st => (st, Returned a).

Definition throw {A : Type} (e : Exception) : LoadM A := fun st => (st, Thrown e).

Definition bind {A B : Type} (m : LoadM A) (k : A -> LoadM B) : LoadM B :=
  fun st =>
    match m st with
    | (st', Returned a) => k a st'
    | (st', Thrown e) => (st', Thrown e)
    end.

Notation "x <- m ;; k" := (bind m (fun x => k))
  (at level 100, m at next level, right associativity).
Notation "m ;;; k" := (bind m (fun _ => k))
  (at level 100, right associativity).

Definition validate_checksum : LoadM bool :=
  fun st =>
    let '(ok, stream') := ValidateChecksum (stream st) in
    ({| stream := stream'; events := events st; s6 := s6 st |}, Returned ok).

(** [chunkReader.ReadChunk(&_s6.dst, length)] *)
Definition read_chunk (dst : S6Member) (length : Z) : LoadM Payload :=
  fun st =>
    match ReadChunk length (stream st) with
    | Some (payload, stream') =>
        ({| stream := stream';
            events := events st ++ [EvReadChunk dst length];
            s6 := s6 st ++ [(dst, payload)] |}, Returned payload)
    | None =>
        ({| stream := stream st;
            events := events st ++ [EvReadChunk dst length];
            s6 := s6 st |}, Thrown CollaboratorException)
    end.

(** [_objectRepository.ExportPackedObject(stream)] *)
Definition export_packed_object : LoadM unit :=
  fun st =>
    match ExportPackedObject (stream st) with
    | Some stream' =>
        ({| stream := stream';
            events := events st ++ [EvExportPackedObject];
            s6 := s6 st |}, Returned tt)
    | None =>
        ({| stream := stream st;
            events := events st ++ [EvExportPackedObject];
            s6 := s6 st |}, Thrown CollaboratorException)
    end.

(** [for (uint16_t i = 0; i < n; i++) m] *)
Fixpoint repeatM (n : nat) (m : LoadM unit) : LoadM unit :=
  match n with
  | O => ret tt
  | Datatypes.S n' => m ;;; repeatM n' m
  end.

(** [S6Importer::LoadFromStream] from the construction of the chunk reader
    on: header, type and flag checks, packed objects, and the chunks of the
    selected layout.  It returns the payload of the [objects] chunk (the
    [ParkLoadResult]). *)
Definition LoadFromStream_chunks (isScenario : bool) : LoadM Payload :=
  header_chunk <- read_chunk s6_header sizeof_header ;;
  let header := header_of header_chunk in
  (if isScenario
   then
     if negb (rct_s6_header.type header =? S6_TYPE_SCENARIO)
     then throw (runtime_error "Park is not a scenario.")
     else (read_chunk s6_info sizeof_info ;;; ret tt)
   else
     if negb (rct_s6_header.type header =? S6_TYPE_SAVEDGAME)
     then throw (runtime_error "Park is not a saved game.")
     else ret tt) ;;;
  if rct_s6_header.classic_flag header =? 0xf
  then throw (UnsupportedRCTCFlagException (rct_s6_header.classic_flag header))
  else
  repeatM (Z.to_nat (rct_s6_header.num_packed_objects header)) export_packed_object ;;;
  if isScenario
  then
    objects <- read_chunk s6_objects sizeof_objects ;;
    read_chunk s6_elapsed_months 16 ;;;
    read_chunk s6_tile_elements sizeof_tile_elements ;;;
    read_chunk s6_next_free_tile_element_pointer_index 2560076 ;;;
    read_chunk s6_guests_in_park 4 ;;;
    read_chunk s6_last_guests_in_park 8 ;;;
    read_chunk s6_park_rating 2 ;;;
    read_chunk s6_active_research_types 1082 ;;;
    read_chunk s6_current_expenditure 16 ;;;
    read_chunk s6_park_value 4 ;;;
    read_chunk s6_completed_company_value 483816 ;;;
    ret objects
  else
    objects <- read_chunk s6_objects sizeof_objects ;;
    read_chunk s6_elapsed_months 16 ;;;
    read_chunk s6_tile_elements sizeof_tile_elements ;;;
    read_chunk s6_next_free_tile_element_pointer_index 3048816 ;;;
    ret objects.

(** [S6Importer::LoadFromStream]: the checksum statement, then the rest.
    [allow_loading_with_incorrect_checksum] is the configuration flag
    [gConfigGeneral.allow_loading_with_incorrect_checksum]; [&&] evaluates
    [ValidateChecksum] only when the first two operands are true.  The
    logging call and the bookkeeping of [_s6Path] are left out. *)
Definition LoadFromStream (isScenario : bool)
    (allow_loading_with_incorrect_checksum : bool) : LoadM Payload :=
  invalid <- (if isScenario && negb allow_loading_with_incorrect_checksum
              then (ok <- validate_checksum ;; ret (negb ok))
              else ret false) ;;
  if (invalid : bool) then throw (IOException "Invalid checksum.")
  else LoadFromStream_chunks isScenario.

(** [S6Importer::LoadSavedGame] and [S6Importer::LoadScenario], once the
    file is opened as a stream. *)
Definition LoadSavedGame (allow_loading_with_incorrect_checksum : bool) : LoadM Payload :=
  LoadFromStream false allow_loading_with_incorrect_checksum.

Definition LoadScenario (allow_loading_with_incorrect_checksum : bool) : LoadM Payload :=
  LoadFromStream true allow_loading_with_incorrect_checksum.

(** [m] never leaves with an [IOException]. *)
Definition no_IOException {A : Type} (m : LoadM A) : Prop :=
  forall st what, (m st).2 <> Thrown (IOException what).

(** [m], when it returns, has appended exactly [evs] to the events. *)
Definition emits {A : Type} (m : LoadM A)
    (evs : list StreamEvent) : Prop :=
  forall st st' a, m st = (st', Returned a) -> events st' = events st ++ evs.

End LoadFromStream.

Arguments LoadState : clear implicits.

(** The chunk reads of a layout, as (member, length) pairs in call order;
    [EvExportPackedObject] events are skipped. *)
Fixpoint chunk_reads (evs : list StreamEvent) : list (S6Member * Z) :=
  match evs with
  | [] => []
  | EvReadChunk dst len :: evs' => (dst, len) :: chunk_reads evs'
  | EvExportPackedObject :: evs' => chunk_reads evs'
  end.

(** The specification's description of the two layouts: once the scenario-info block
    is set aside, both layouts read the same members in the same order, and
    exactly two of the reads differ in size. *)
Definition differ_in_info_and_two_sizes (scenario saved : list (S6Member * Z)) : Prop :=
  let scenario' := filter (fun c => c.1 <> s6_info) scenario in
  scenario'.*1 = saved.*1
  /\ length (filter (fun p => p.1.2 <> p.2.2) (zip scenario' saved)) = 2%nat.

#[global] Instance differ_in_info_and_two_sizes_dec scenario saved :
  Decision (differ_in_info_and_two_sizes scenario saved).
Proof. unfold differ_in_info_and_two_sizes. apply _. Defined.

(** ** Tile elements *)

(** The value of [GetType()].  The eight [TILE_ELEMENT_TYPE_*] constants
    label the cases of the decoder's [switch];
    [Corrupt], [EightCarsCorrupt14] and [EightCarsCorrupt15] are the members
    of [RCT12TileElementType] the array loop tests for; [Reserved] is any
    other value.  The numeric encodings live in headers outside the
    translated file; only the distinctness of the tags is used. *)
Inductive TileElementType :=
  | TILE_ELEMENT_TYPE_SURFACE
  | TILE_ELEMENT_TYPE_PATH
  | TILE_ELEMENT_TYPE_TRACK
  | TILE_ELEMENT_TYPE_SMALL_SCENERY
  | TILE_ELEMENT_TYPE_ENTRANCE
  | TILE_ELEMENT_TYPE_WALL
  | TILE_ELEMENT_TYPE_LARGE_SCENERY
  | TILE_ELEMENT_TYPE_BANNER
  | Corrupt
  | EightCarsCorrupt14
  | EightCarsCorrupt15
  | Reserved (tag : Z).

#[global] Instance TileElementType_eq_dec : EqDecision TileElementType.
Proof. solve_decision. Defined.

(** The numeric fields of the eight variants, named [Variant_Field] after
    the accessor pair [SetField] / [GetField] of the variant. *)
Inductive Field :=
  | Surface_Slope | Surface_SurfaceStyle | Surface_EdgeStyle | Surface_GrassLength
  | Surface_Ownership | Surface_ParkFences | Surface_WaterHeight
  | Path_EntryIndex | Path_QueueBannerDirection | Path_SlopeDirection | Path_RideIndex
  | Path_StationIndex | Path_Edges | Path_Corners | Path_Addition | Path_AdditionStatus
  | Track_TrackType | Track_SequenceIndex | Track_RideIndex | Track_ColourScheme
  | Track_StationIndex | Track_BrakeBoosterSpeed | Track_SeatRotation | Track_MazeEntry
  | Track_PhotoTimeout
  | SmallScenery_EntryIndex | SmallScenery_Age | SmallScenery_SceneryQuadrant
  | SmallScenery_PrimaryColour | SmallScenery_SecondaryColour
  | Entrance_EntranceType | Entrance_RideIndex | Entrance_StationIndex
  | Entrance_SequenceIndex | Entrance_PathType
  | Wall_EntryIndex | Wall_Slope | Wall_PrimaryColour | Wall_SecondaryColour
  | Wall_TertiaryColour | Wall_AnimationFrame | Wall_BannerIndex
  | LargeScenery_EntryIndex | LargeScenery_SequenceIndex | LargeScenery_PrimaryColour
  | LargeScenery_SecondaryColour | LargeScenery_BannerIndex
  | Banner_Index | Banner_Position | Banner_AllowedEdges.

(** The boolean fields of the eight variants. *)
Inductive Flag :=
  | Surface_HasTrackThatNeedsWater
  | Path_Sloped | Path_Wide | Path_IsQueue | Path_HasQueueBanner | Path_AdditionIsGhost
  | Track_HasChain | Track_HasCableLift | Track_Inverted | Track_HasGreenLight
  | SmallScenery_NeedsSupports
  | Wall_AcrossTrack | Wall_AnimationIsBackwards.

#[global] Instance Field_eq_dec : EqDecision Field.
Proof. solve_decision. Defined.

#[global] Instance Flag_eq_dec : EqDecision Flag.
Proof. solve_decision. Defined.

(** The variant a field belongs to. *)
Definition field_variant (f : Field) : TileElementType :=
  match f with
  | Surface_Slope | Surface_SurfaceStyle | Surface_EdgeStyle | Surface_GrassLength
  | Surface_Ownership | Surface_ParkFences | Surface_WaterHeight =>
      TILE_ELEMENT_TYPE_SURFACE
  | Path_EntryIndex | Path_QueueBannerDirection | Path_SlopeDirection | Path_RideIndex
  | Path_StationIndex | Path_Edges | Path_Corners | Path_Addition | Path_AdditionStatus =>
      TILE_ELEMENT_TYPE_PATH
  | Track_TrackType | Track_SequenceIndex | Track_RideIndex | Track_ColourScheme
  | Track_StationIndex | Track_BrakeBoosterSpeed | Track_SeatRotation | Track_MazeEntry
  | Track_PhotoTimeout =>
      TILE_ELEMENT_TYPE_TRACK
  | SmallScenery_EntryIndex | SmallScenery_Age | SmallScenery_SceneryQuadrant
  | SmallScenery_PrimaryColour | SmallScenery_SecondaryColour =>
      TILE_ELEMENT_TYPE_SMALL_SCENERY
  | Entrance_EntranceType | Entrance_RideIndex | Entrance_StationIndex
  | Entrance_SequenceIndex | Entrance_PathType =>
      TILE_ELEMENT_TYPE_ENTRANCE
  | Wall_EntryIndex | Wall_Slope | Wall_PrimaryColour | Wall_SecondaryColour
  | Wall_TertiaryColour | Wall_AnimationFrame | Wall_BannerIndex =>
      TILE_ELEMENT_TYPE_WALL
  | LargeScenery_EntryIndex | LargeScenery_SequenceIndex | LargeScenery_PrimaryColour
  | LargeScenery_SecondaryColour | LargeScenery_BannerIndex =>
      TILE_ELEMENT_TYPE_LARGE_SCENERY
  | Banner_Index | Banner_Position | Banner_AllowedEdges =>
      TILE_ELEMENT_TYPE_BANNER
  end.

Definition flag_variant (b : Flag) : TileElementType :=
  match b with
  | Surface_HasTrackThatNeedsWater => TILE_ELEMENT_TYPE_SURFACE
  | Path_Sloped | Path_Wide | Path_IsQueue | Path_HasQueueBanner | Path_AdditionIsGhost =>
      TILE_ELEMENT_TYPE_PATH
  | Track_HasChain | Track_HasCableLift | Track_Inverted | Track_HasGreenLight =>
      TILE_ELEMENT_TYPE_TRACK
  | SmallScenery_NeedsSupports => TILE_ELEMENT_TYPE_SMALL_SCENERY
  | Wall_AcrossTrack | Wall_AnimationIsBackwards => TILE_ELEMENT_TYPE_WALL
  end.

(** [RCT12TileElement], the 8-byte raw record: type byte, flags, base and
    clearance height, and four bytes of variant-specific packed storage. *)
Module RCT12TileElement.
Record t := mk {
  type : Z;
  flags : Z;
  base_height : Z;
  clearance_height : Z;
  pad_04 : list Z
}.
End RCT12TileElement.

(** The accessors of the raw record ([rct12/RCT12.h] and [RCT12.cpp] are
    not among the sources): [GetType], [GetDirection], and for each variant
    its mask-and-shift getters over the packed storage, [rct12_get f] for a
    numeric field and [rct12_is b] for a boolean one
    (e.g. [rct12_get Surface_Slope src] is [src->AsSurface()->GetSlope()],
    [rct12_is Path_Sloped src] is [src->AsPath()->IsSloped()]). *)
Class RCT12Accessors := {
  GetType : RCT12TileElement.t -> TileElementType;
  GetDirection : RCT12TileElement.t -> Z;
  rct12_get : Field -> RCT12TileElement.t -> Z;
  rct12_is : Flag -> RCT12TileElement.t -> bool
}.

(** Modelled from the spec: the destination [TileElement] and its setters
    ([world/TileElement.h] is not among the sources): a tagged variant
    whose packed storage is replaced by explicit named fields.  [ClearAs]
    sets the type and zeroes everything else; a setter writes its own field
    and no other. *)
Module TileElement.
Record t := mk {
  type : TileElementType;
  direction : Z;
  flags : Z;
  base_height : Z;
  clearance_height : Z;
  fields : Field -> Z;
  bits : Flag -> bool
}.
End TileElement.

(** A slot of the destination array [gTileElements]: either the raw bytes a
    [memcpy] put there, or an element built by the decoder. *)
Inductive TileSlot :=
  | RawCopy (bytes : RCT12TileElement.t)
  | Imported (element : TileElement.t).

Definition ClearAs (newType : TileElementType) (dst : TileSlot) : TileElement.t :=
  TileElement.mk newType 0 0 0 0 (fun _ => 0) (fun _ => false).

Definition SetDirection (direction : Z) (e : TileElement.t) : TileElement.t :=
  TileElement.mk (TileElement.type e) direction (TileElement.flags e)
    (TileElement.base_height e) (TileElement.clearance_height e)
    (TileElement.fields e) (TileElement.bits e).

Definition set_flags (flags : Z) (e : TileElement.t) : TileElement.t :=
  TileElement.mk (TileElement.type e) (TileElement.direction e) flags
    (TileElement.base_height e) (TileElement.clearance_height e)
    (TileElement.fields e) (TileElement.bits e).

Definition set_base_height (base_height : Z) (e : TileElement.t) : TileElement.t :=
  TileElement.mk (TileElement.type e) (TileElement.direction e) (TileElement.flags e)
    base_height (TileElement.clearance_height e)
    (TileElement.fields e) (TileElement.bits e).

Definition set_clearance_height (clearance_height : Z) (e : TileElement.t) : TileElement.t :=
  TileElement.mk (TileElement.type e) (TileElement.direction e) (TileElement.flags e)
    (TileElement.base_height e) clearance_height
    (TileElement.fields e) (TileElement.bits e).

(** The setter of numeric field [f], e.g. [SetField Surface_Slope] for
    [SurfaceElement::SetSlope]. *)
Definition SetField (f : Field) (value : Z) (e : TileElement.t) : TileElement.t :=
  TileElement.mk (TileElement.type e) (TileElement.direction e) (TileElement.flags e)
    (TileElement.base_height e) (TileElement.clearance_height e)
    (fun g => if decide (g = f) then value else TileElement.fields e g)
    (TileElement.bits e).

(** The setter of boolean field [b], e.g. [SetFlag Path_Sloped] for
    [PathElement::SetSloped]. *)
Definition SetFlag (b : Flag) (value : bool) (e : TileElement.t) : TileElement.t :=
  TileElement.mk (TileElement.type e) (TileElement.direction e) (TileElement.flags e)
    (TileElement.base_height e) (TileElement.clearance_height e)
    (TileElement.fields e)
    (fun c => if decide (c = b) then value else TileElement.bits e c).

(** [SmallSceneryElement::SetNeedsSupports()] takes no argument. *)
Definition SetNeedsSupports (e : TileElement.t) : TileElement.t :=
  SetFlag SmallScenery_NeedsSupports true e.

Section TileElements.
Context {C : FormatConstants} {A : RCT12Accessors}.

(** [S6Importer::ImportTileElement].  Each [let] is one statement of the
    source, in source order; [None] is the [assert(false)] of the
    [default] case. *)
Definition ImportTileElement (dst : TileSlot) (src : RCT12TileElement.t)
    : option TileElement.t :=
  let tileElementType := GetType src in
  let dst := ClearAs tileElementType dst in
  let dst := SetDirection (GetDirection src) dst in
  let dst := set_flags (RCT12TileElement.flags src) dst in
  let dst := set_base_height (RCT12TileElement.base_height src) dst in
  let dst := set_clearance_height (RCT12TileElement.clearance_height src) dst in
  match tileElementType with
  | TILE_ELEMENT_TYPE_SURFACE =>
      let dst := SetField Surface_Slope (rct12_get Surface_Slope src) dst in
      let dst := SetField Surface_SurfaceStyle (rct12_get Surface_SurfaceStyle src) dst in
      let dst := SetField Surface_EdgeStyle (rct12_get Surface_EdgeStyle src) dst in
      let dst := SetField Surface_GrassLength (rct12_get Surface_GrassLength src) dst in
      let dst := SetField Surface_Ownership (rct12_get Surface_Ownership src) dst in
      let dst := SetField Surface_ParkFences (rct12_get Surface_ParkFences src) dst in
      let dst := SetField Surface_WaterHeight (rct12_get Surface_WaterHeight src) dst in
      let dst := SetFlag Surface_HasTrackThatNeedsWater (rct12_is Surface_HasTrackThatNeedsWater src) dst in
      Some dst
  | TILE_ELEMENT_TYPE_PATH =>
      let dst := SetField Path_EntryIndex (rct12_get Path_EntryIndex src) dst in
      let dst := SetField Path_QueueBannerDirection (rct12_get Path_QueueBannerDirection src) dst in
      let dst := SetFlag Path_Sloped (rct12_is Path_Sloped src) dst in
      let dst := SetField Path_SlopeDirection (rct12_get Path_SlopeDirection src) dst in
      let dst := SetField Path_RideIndex (rct12_get Path_RideIndex src) dst in
      let dst := SetField Path_StationIndex (rct12_get Path_StationIndex src) dst in
      let dst := SetFlag Path_Wide (rct12_is Path_Wide src) dst in
      let dst := SetFlag Path_IsQueue (rct12_is Path_IsQueue src) dst in
      let dst := SetFlag Path_HasQueueBanner (rct12_is Path_HasQueueBanner src) dst in
      let dst := SetField Path_Edges (rct12_get Path_Edges src) dst in
      let dst := SetField Path_Corners (rct12_get Path_Corners src) dst in
      let dst := SetField Path_Addition (rct12_get Path_Addition src) dst in
      let dst := SetFlag Path_AdditionIsGhost (rct12_is Path_AdditionIsGhost src) dst in
      let dst := SetField Path_AdditionStatus (rct12_get Path_AdditionStatus src) dst in
      Some dst
  | TILE_ELEMENT_TYPE_TRACK =>
      let dst := SetField Track_TrackType (rct12_get Track_TrackType src) dst in
      let dst := SetField Track_SequenceIndex (rct12_get Track_SequenceIndex src) dst in
      let dst := SetField Track_RideIndex (rct12_get Track_RideIndex src) dst in
      let dst := SetField Track_ColourScheme (rct12_get Track_ColourScheme src) dst in
      let dst := SetField Track_StationIndex (rct12_get Track_StationIndex src) dst in
      let dst := SetFlag Track_HasChain (rct12_is Track_HasChain src) dst in
      let dst := SetFlag Track_HasCableLift (rct12_is Track_HasCableLift src) dst in
      let dst := SetFlag Track_Inverted (rct12_is Track_Inverted src) dst in
      let dst := SetField Track_BrakeBoosterSpeed (rct12_get Track_BrakeBoosterSpeed src) dst in
      let dst := SetFlag Track_HasGreenLight (rct12_is Track_HasGreenLight src) dst in
      let dst := SetField Track_SeatRotation (rct12_get Track_SeatRotation src) dst in
      let dst := SetField Track_MazeEntry (rct12_get Track_MazeEntry src) dst in
      let dst := SetField Track_PhotoTimeout (rct12_get Track_PhotoTimeout src) dst in
      Some dst
  | TILE_ELEMENT_TYPE_SMALL_SCENERY =>
      let dst := SetField SmallScenery_EntryIndex (rct12_get SmallScenery_EntryIndex src) dst in
      let dst := SetField SmallScenery_Age (rct12_get SmallScenery_Age src) dst in
      let dst := SetField SmallScenery_SceneryQuadrant (rct12_get SmallScenery_SceneryQuadrant src) dst in
      let dst := SetField SmallScenery_PrimaryColour (rct12_get SmallScenery_PrimaryColour src) dst in
      let dst := SetField SmallScenery_SecondaryColour (rct12_get SmallScenery_SecondaryColour src) dst in
      let dst := if rct12_is SmallScenery_NeedsSupports src
                 then SetNeedsSupports dst else dst in
      Some dst
  | TILE_ELEMENT_TYPE_ENTRANCE =>
      let dst := SetField Entrance_EntranceType (rct12_get Entrance_EntranceType src) dst in
      let dst := SetField Entrance_RideIndex (rct12_get Entrance_RideIndex src) dst in
      let dst := SetField Entrance_StationIndex (rct12_get Entrance_StationIndex src) dst in
      let dst := SetField Entrance_SequenceIndex (rct12_get Entrance_SequenceIndex src) dst in
      let dst := SetField Entrance_PathType (rct12_get Entrance_PathType src) dst in
      Some dst
  | TILE_ELEMENT_TYPE_WALL =>
      let dst := SetField Wall_EntryIndex (rct12_get Wall_EntryIndex src) dst in
      let dst := SetField Wall_Slope (rct12_get Wall_Slope src) dst in
      let dst := SetField Wall_PrimaryColour (rct12_get Wall_PrimaryColour src) dst in
      let dst := SetField Wall_SecondaryColour (rct12_get Wall_SecondaryColour src) dst in
      let dst := SetField Wall_TertiaryColour (rct12_get Wall_TertiaryColour src) dst in
      let dst := SetField Wall_AnimationFrame (rct12_get Wall_AnimationFrame src) dst in
      let dst := SetField Wall_BannerIndex (rct12_get Wall_BannerIndex src) dst in
      let dst := SetFlag Wall_AcrossTrack (rct12_is Wall_AcrossTrack src) dst in
      let dst := SetFlag Wall_AnimationIsBackwards (rct12_is Wall_AnimationIsBackwards src) dst in
      Some dst
  | TILE_ELEMENT_TYPE_LARGE_SCENERY =>
      let dst := SetField LargeScenery_EntryIndex (rct12_get LargeScenery_EntryIndex src) dst in
      let dst := SetField LargeScenery_SequenceIndex (rct12_get LargeScenery_SequenceIndex src) dst in
      let dst := SetField LargeScenery_PrimaryColour (rct12_get LargeScenery_PrimaryColour src) dst in
      let dst := SetField LargeScenery_SecondaryColour (rct12_get LargeScenery_SecondaryColour src) dst in
      let dst := SetField LargeScenery_BannerIndex (rct12_get LargeScenery_BannerIndex src) dst in
      Some dst
  | TILE_ELEMENT_TYPE_BANNER =>
      let dst := SetField Banner_Index (rct12_get Banner_Index src) dst in
      let dst := SetField Banner_Position (rct12_get Banner_Position src) dst in
      let dst := SetField Banner_AllowedEdges (rct12_get Banner_AllowedEdges src) dst in
      Some dst
  | _ => None
  end.

(** Body of the loop of [ImportTileElements] for one index: what is stored
    into [gTileElements[index]]. *)
Definition ImportTileElements_slot (dst : TileSlot) (src : RCT12TileElement.t)
    : option TileSlot :=
  if RCT12TileElement.base_height src =? 0xFF
  then Some (RawCopy src)
  else
    let tileElementType := GetType src in
    if bool_decide (tileElementType = Corrupt)
       || bool_decide (tileElementType = EightCarsCorrupt14)
       || bool_decide (tileElementType = EightCarsCorrupt15)
    then Some (RawCopy src)
    else Imported <$> ImportTileElement dst src.

(** [S6Importer::ImportTileElements]: [tile_elements] is
    [_s6.tile_elements]; the result is the new [gTileElements], or [None]
    when an assertion stopped the loop. *)
Definition ImportTileElements (tile_elements : list RCT12TileElement.t)
    (gTileElements : list TileSlot) : option (list TileSlot) :=
  for_range 0 RCT2_MAX_TILE_ELEMENTS
    (fun index state =>
       gTileElements ← state;
       match tile_elements !! index, gTileElements !! index with
       | Some src, Some dst =>
           slot ← ImportTileElements_slot dst src;
           Some (<[index := slot]> gTileElements)
       | _, _ => Some gTileElements
       end)
    (Some gTileElements).

(** The eight variants the decoder handles. *)
Definition supported_type (t : TileElementType) : Prop :=
  t ∈ [ TILE_ELEMENT_TYPE_SURFACE; TILE_ELEMENT_TYPE_PATH; TILE_ELEMENT_TYPE_TRACK;
        TILE_ELEMENT_TYPE_SMALL_SCENERY; TILE_ELEMENT_TYPE_ENTRANCE;
        TILE_ELEMENT_TYPE_WALL; TILE_ELEMENT_TYPE_LARGE_SCENERY;
        TILE_ELEMENT_TYPE_BANNER ].

(** The records the array loop copies instead of decoding: base height
    0xFF, or one of the corrupt / legacy marker tags. *)
Definition passed_through (src : RCT12TileElement.t) : Prop :=
  RCT12TileElement.base_height src = 0xFF
  \/ GetType src ∈ [Corrupt; EightCarsCorrupt14; EightCarsCorrupt15].

(** What the decoder builds, accessor by accessor. *)
Definition decoded_from (src : RCT12TileElement.t) (e : TileElement.t) : Prop :=
  TileElement.type e = GetType src
  /\ TileElement.direction e = GetDirection src
  /\ TileElement.flags e = RCT12TileElement.flags src
  /\ TileElement.base_height e = RCT12TileElement.base_height src
  /\ TileElement.clearance_height e = RCT12TileElement.clearance_height src
  /\ (forall f, field_variant f = GetType src ->
                TileElement.fields e f = rct12_get f src)
  /\ (forall b, flag_variant b = GetType src ->
                TileElement.bits e b = rct12_is b src)
  /\ (forall f, field_variant f <> GetType src -> TileElement.fields e f = 0)
  /\ (forall b, flag_variant b <> GetType src -> TileElement.bits e b = false).

End TileElements.

(** Two accessor families that agree, on [src], about the tag, the
    direction and every getter of the variant the tag selects. *)
Definition agree_on_selected_variant (A A' : RCT12Accessors)
    (src : RCT12TileElement.t) : Prop :=
  @GetType A' src = @GetType A src
  /\ @GetDirection A' src = @GetDirection A src
  /\ (forall f, field_variant f = @GetType A src ->
                @rct12_get A' f src = @rct12_get A f src)
  /\ (forall b, flag_variant b = @GetType A src ->
                @rct12_is A' b src = @rct12_is A b src).

(** Two destination elements that read the same through every accessor. *)
Definition same_element (e e' : TileElement.t) : Prop :=
  TileElement.type e = TileElement.type e'
  /\ TileElement.direction e = TileElement.direction e'
  /\ TileElement.flags e = TileElement.flags e'
  /\ TileElement.base_height e = TileElement.base_height e'
  /\ TileElement.clearance_height e = TileElement.clearance_height e'
  /\ (forall f, TileElement.fields e f = TileElement.fields e' f)
  /\ (forall b, TileElement.bits e b = TileElement.bits e' b).

(** ** Sample data for the concrete examples *)

(** Two peeps riding ride 0 (one on it, one entering), a peep walking
    towards ride 0, a peep on ride 1 and a vehicle sprite. *)
Definition sample_sprites : list rct_sprite.t :=
  [ rct_sprite.mk 1 0 3; rct_sprite.mk 1 0 7; rct_sprite.mk 1 0 5;
    rct_sprite.mk 1 1 3; rct_sprite.mk 0 0 3 ].

(** A raw ride with one station in use: entrance at (10, 20), exit at
    (30, 40), station height 7; the stored rider counter says 999. *)
Definition sample_ride : rct2_ride.t unit :=
  {| rct2_ride.type := 5;
     rct2_ride.station_starts :=
       [LocationXY8.mk 10 21; LocationXY8.mk 255 255; LocationXY8.mk 255 255; LocationXY8.mk 255 255];
     rct2_ride.station_heights := [7; 0; 0; 0];
     rct2_ride.station_length := [3; 0; 0; 0];
     rct2_ride.station_depart := [0; 0; 0; 0];
     rct2_ride.train_at_station := [255; 255; 255; 255];
     rct2_ride.entrances :=
       [LocationXY8.mk 10 20; LocationXY8.mk 255 255; LocationXY8.mk 255 255; LocationXY8.mk 255 255];
     rct2_ride.exits :=
       [LocationXY8.mk 30 40; LocationXY8.mk 255 255; LocationXY8.mk 255 255; LocationXY8.mk 255 255];
     rct2_ride.last_peep_in_queue := [0xFFFF; 0xFFFF; 0xFFFF; 0xFFFF];
     rct2_ride.length := [0; 0; 0; 0];
     rct2_ride.time := [0; 0; 0; 0];
     rct2_ride.queue_time := [0; 0; 0; 0];
     rct2_ride.queue_length := [0; 0; 0; 0];
     rct2_ride.num_riders := 999;
     rct2_ride.copied := tt |}.

(** A stream for the examples: a checksum verdict and the chunks still to
    be read; every chunk is given by the header fields it would decode to,
    and packed objects are exported without consuming a chunk. *)
Record sample_stream := {
  checksum_ok : bool;
  chunks : list rct_s6_header.t
}.

#[global] Instance sample_stream_ops : StreamOps sample_stream rct_s6_header.t := {|
  ValidateChecksum s := (checksum_ok s, s);
  ReadChunk len s :=
    match chunks s with
    | c :: rest => Some (c, {| checksum_ok := checksum_ok s; chunks := rest |})
    | [] => None
    end;
  ExportPackedObject s := Some s;
  header_of payload := payload
|}.

(** A file of 13 chunks whose header decodes to [header]. *)
Definition sample_file (ok : bool) (header : rct_s6_header.t)
    : LoadState sample_stream rct_s6_header.t :=
  {| stream := {| checksum_ok := ok; chunks := replicate 13 header |};
     events := [];
     s6 := [] |}.

(** Events of a complete scenario load and of a complete saved-game load
    with [n] packed objects. *)
Definition scenario_events {C : FormatConstants} (n : nat) : list StreamEvent :=
  [EvReadChunk s6_header sizeof_header; EvReadChunk s6_info sizeof_info]
  ++ replicate n EvExportPackedObject
  ++ [EvReadChunk s6_objects sizeof_objects;
      EvReadChunk s6_elapsed_months 16;
      EvReadChunk s6_tile_elements sizeof_tile_elements]
  ++ [EvReadChunk s6_next_free_tile_element_pointer_index 2560076]
  ++ [EvReadChunk s6_guests_in_park 4;
      EvReadChunk s6_last_guests_in_park 8;
      EvReadChunk s6_park_rating 2;
      EvReadChunk s6_active_research_types 1082;
      EvReadChunk s6_current_expenditure 16;
      EvReadChunk s6_park_value 4;
      EvReadChunk s6_completed_company_value 483816].

Definition savedgame_events {C : FormatConstants} (n : nat) : list StreamEvent :=
  [EvReadChunk s6_header sizeof_header]
  ++ replicate n EvExportPackedObject
  ++ [EvReadChunk s6_objects sizeof_objects;
      EvReadChunk s6_elapsed_months 16;
      EvReadChunk s6_tile_elements sizeof_tile_elements]
  ++ [EvReadChunk s6_next_free_tile_element_pointer_index 3048816].

(** A synthetic raw layout for the examples: the tag is bits 2..5 of the
    type byte and the direction bits 0..1; every numeric getter reads the
    low five bits of the first storage byte and every boolean getter tests
    bit 7 of the second. *)
#[global] Instance sample_accessors : RCT12Accessors := {|
  GetType src :=
    match Z.shiftr (Z.land (RCT12TileElement.type src) 0x3C) 2 with
    | 0 => TILE_ELEMENT_TYPE_SURFACE
    | 1 => TILE_ELEMENT_TYPE_PATH
    | 2 => TILE_ELEMENT_TYPE_TRACK
    | 3 => TILE_ELEMENT_TYPE_SMALL_SCENERY
    | 4 => TILE_ELEMENT_TYPE_ENTRANCE
    | 5 => TILE_ELEMENT_TYPE_WALL
    | 6 => TILE_ELEMENT_TYPE_LARGE_SCENERY
    | 7 => TILE_ELEMENT_TYPE_BANNER
    | 8 => Corrupt
    | 14 => EightCarsCorrupt14
    | 15 => EightCarsCorrupt15
    | n => Reserved n
    end;
  GetDirection src := Z.land (RCT12TileElement.type src) 3;
  rct12_get f src := Z.land (nth 0 (RCT12TileElement.pad_04 src) 0) 0x1F;
  rct12_is b src := Z.testbit (nth 1 (RCT12TileElement.pad_04 src) 0) 7
|}.

(** A surface record facing 1 at height 14, a padding record (base height
    0xFF), a corrupt-tagged record and a small-scenery record. *)
Definition sample_surface : RCT12TileElement.t :=
  RCT12TileElement.mk 0x01 0x40 14 16 [0x24; 0x80; 0; 0x20].
Definition sample_padding : RCT12TileElement.t :=
  RCT12TileElement.mk 0x04 0 0xFF 0xFF [1; 2; 3; 4].
Definition sample_corrupt : RCT12TileElement.t :=
  RCT12TileElement.mk 0x20 0 8 8 [5; 6; 7; 8].
Definition sample_scenery : RCT12TileElement.t :=
  RCT12TileElement.mk 0x0E 0 14 18 [0x07; 0x80; 0; 0].

(** A format with room for four tile elements, so that the array loop can
    be run on a written-out array. *)
Definition four_tile_constants : FormatConstants := {|
  RCT12_MAX_PEEP_SPAWNS := 2;
  PEEP_SPAWN_UNDEFINED := 0xFFFF;
  RCT2_MAX_TILE_ELEMENTS := 4;
  RIDE_TYPE_COUNT := 91;
  MAX_RIDE_OBJECTS := 128;
  RCT2_MAX_RESEARCHED_SCENERY_ITEMS := 1792;
  RCT12_MAX_RIDES_IN_PARK := 255;
  RIDE_TYPE_NULL := 255;
  RCT12_MAX_STATIONS_PER_RIDE := 4;
  MAX_STATIONS := 4;
  RCT_XY8_UNDEFINED := 0xFFFF;
  SPRITE_INDEX_NULL := 0xFFFF;
  SPRITE_IDENTIFIER_PEEP := 1;
  PEEP_STATE_ON_RIDE := 3;
  PEEP_STATE_ENTERING_RIDE := 7;
  S6_TYPE_SAVEDGAME := 0;
  S6_TYPE_SCENARIO := 1;
  OWNERSHIP_OWNED := 32;
  sizeof_header := 32;
  sizeof_info := 324;
  sizeof_objects := 11536;
  sizeof_tile_elements := 32
|}.

(** ** Further parts of [S6Importer::Import] *)

(** More constants from headers outside the translated file. *)
Class ImportConstants := {
  RCT12_MAX_PARK_ENTRANCES : nat;
  LOCATION_NULL : Z;
  RCT12_MAX_NEWS_ITEMS : nat;
  news_type_properties_size : Z;
  NEWS_ITEM_NULL : Z;
  NUM_SPRITE_LISTS : nat;
  SPRITE_LIST_NULL : nat;
  MAX_SPRITES : Z;
  RCT2_MAX_SPRITES : Z;
  RCT2_MAX_VEHICLES_PER_RIDE : nat;
  MAX_VEHICLES_PER_RIDE : nat
}.

Module CoordsXYZD.
Record t := mk { x : Z; y : Z; z : Z; direction : Z }.
End CoordsXYZD.

(** [rct12_news_item] and [NewsItem] have the same seven fields. *)
Module NewsItem.
Record t := mk {
  Type_ : Z;
  Flags : Z;
  Assoc : Z;
  Ticks : Z;
  MonthYear : Z;
  Day : Z;
  Text : list Z
}.
End NewsItem.

Section ImportParts.
Context {C : FormatConstants} {I : ImportConstants}.

(** The park-entrance loop of [Import]: [gParkEntrances.clear()], then one
    [push_back] per slot whose x is not [LOCATION_NULL]. *)
Definition ImportParkEntrances (park_entrance_x park_entrance_y park_entrance_z
    park_entrance_direction : list Z) (gParkEntrances : list CoordsXYZD.t)
    : list CoordsXYZD.t :=
  let gParkEntrances := @nil CoordsXYZD.t in
  for_range 0 RCT12_MAX_PARK_ENTRANCES
    (fun i gParkEntrances =>
       match park_entrance_x !! i, park_entrance_y !! i,
             park_entrance_z !! i, park_entrance_direction !! i with
       | Some x, Some y, Some z, Some direction =>
           if negb (x =? LOCATION_NULL)
           then gParkEntrances ++ [CoordsXYZD.mk x y z direction]
           else gParkEntrances
       | _, _, _, _ => gParkEntrances
       end)
    gParkEntrances.

(** The news-item loop of [Import], from index [i] on with [n] iterations
    left; the [break] ends the recursion.  [gNewsItems] is the queue as
    [news_item_init_queue] left it. *)
Fixpoint ImportNewsItems_from (i n : nat) (news_items : list NewsItem.t)
    (gNewsItems : list NewsItem.t) : list NewsItem.t :=
  match n with
  | O => gNewsItems
  | Datatypes.S n' =>
      match news_items !! i with
      | Some src =>
          if NewsItem.Type_ src <? news_type_properties_size
          then
            ImportNewsItems_from (Datatypes.S i) n' news_items
              (alter (fun dst =>
                        NewsItem.mk (NewsItem.Type_ src) (NewsItem.Flags src)
                          (NewsItem.Assoc src) (NewsItem.Ticks src)
                          (NewsItem.MonthYear src) (NewsItem.Day src)
                          (NewsItem.Text src)) i gNewsItems)
          else
            alter (fun dst =>
                     NewsItem.mk NEWS_ITEM_NULL (NewsItem.Flags dst)
                       (NewsItem.Assoc dst) (NewsItem.Ticks dst)
                       (NewsItem.MonthYear dst) (NewsItem.Day dst)
                       (NewsItem.Text dst)) i gNewsItems
      | None => gNewsItems
      end
  end.

Definition ImportNewsItems (news_items gNewsItems : list NewsItem.t) : list NewsItem.t :=
  ImportNewsItems_from 0 RCT12_MAX_NEWS_ITEMS news_items gNewsItems.

(** The sprite-list loop of [Import] and the statement after it:
    heads and counts are copied, then the count of the list of free sprites
    grows by the extra capacity.  The counts are 16-bit. *)
Definition ImportSpriteLists (sprite_lists_head sprite_lists_count : list Z)
    (gSpriteListHead gSpriteListCount : list Z) : list Z * list Z :=
  let '(gSpriteListHead, gSpriteListCount) :=
    for_range 0 NUM_SPRITE_LISTS
      (fun i '(heads, counts) =>
         match sprite_lists_head !! i, sprite_lists_count !! i with
         | Some head, Some count => (<[i := head]> heads, <[i := count]> counts)
         | _, _ => (heads, counts)
         end)
      (gSpriteListHead, gSpriteListCount) in
  (gSpriteListHead,
   alter (fun count => (count + (MAX_SPRITES - RCT2_MAX_SPRITES)) mod 65536)
         SPRITE_LIST_NULL gSpriteListCount).

(** The two vehicle loops of [ImportRide], on the value-initialised
    [dst->vehicles]. *)
Definition ImportRide_vehicles (vehicles : list Z) : list Z :=
  let dst_vehicles := replicate MAX_VEHICLES_PER_RIDE 0 in
  let dst_vehicles :=
    for_range 0 RCT2_MAX_VEHICLES_PER_RIDE
      (fun i dst_vehicles =>
         match vehicles !! i with
         | Some v => <[i := v]> dst_vehicles
         | None => dst_vehicles
         end) dst_vehicles in
  for_range RCT2_MAX_VEHICLES_PER_RIDE (MAX_VEHICLES_PER_RIDE - RCT2_MAX_VEHICLES_PER_RIDE)
    (fun i dst_vehicles => <[i := SPRITE_INDEX_NULL]> dst_vehicles) dst_vehicles.

End ImportParts.

(** Sum of a list of counters. *)
Definition Zsum (l : list Z) : Z := foldr Z.add 0 l.

(** An instance for the examples. *)
Definition sample_import_constants : ImportConstants := {|
  RCT12_MAX_PARK_ENTRANCES := 4;
  LOCATION_NULL := 0x8000;
  RCT12_MAX_NEWS_ITEMS := 4;
  news_type_properties_size := 10;
  NEWS_ITEM_NULL := 0;
  NUM_SPRITE_LISTS := 6;
  SPRITE_LIST_NULL := 0;
  MAX_SPRITES := 16384;
  RCT2_MAX_SPRITES := 10000;
  RCT2_MAX_VEHICLES_PER_RIDE := 3;
  MAX_VEHICLES_PER_RIDE := 5
|}.

(** ** Reasoning about every outcome of a load *)

Section LoadOutcomes.
Context {Stream Payload : Type}.

(** Whatever [m] does, the events it adds are a prefix of [layout]; when it
    returns, they are all of [layout]. *)
Definition emits_prefix {A : Type} (m : @LoadM Stream Payload A)
    (layout : list StreamEvent) : Prop :=
  forall st st' o, m st = (st', o) ->
    exists evs, events st' = events st ++ evs
                /\ match o with
                   | Returned _ => evs = layout
                   | Thrown _ => evs `prefix_of` layout
                   end.

(** [m] only leaves with exceptions in [P]. *)
Definition throws_only {A : Type} (P : Exception -> Prop)
    (m : @LoadM Stream Payload A) : Prop :=
  forall st st' e, m st = (st', Thrown e) -> P e.

End LoadOutcomes.

(** The exceptions [LoadFromStream] can leave with, by path and
    configuration. *)
Definition LoadFromStream_exception (isScenario allow : bool) (e : Exception) : Prop :=
  e = CollaboratorException
  \/ (e = IOException "Invalid checksum." /\ isScenario = true /\ allow = false)
  \/ (e = runtime_error "Park is not a scenario." /\ isScenario = true)
  \/ (e = runtime_error "Park is not a saved game." /\ isScenario = false)
  \/ e = UnsupportedRCTCFlagException 0xf.

(** ** [util/Random.h]: the [ror_xor_ror_engine] *)

Module ror_xor_ror_engine.

(** The template parameters, the width [digits] of [result_type], and the
    rotation [ror<result_type>] (declared outside the translated file). *)
Class params := {
  digits : Z;
  mask : Z;
  shift_a : Z;
  shift_b : Z;
  ror : Z -> Z -> Z
}.

(** The two state words. *)
Record t := mk { _S0 : Z; _S1 : Z }.

Section Engine.
Context {P : params}.


(** [operator()]: the result and the new state; [+=] wraps at the width
    of [result_type]. *)
Definition call (e : t) : Z * t :=
  let S0z := _S0 e in
  let S0' := (_S0 e + ror (Z.lxor (_S1 e) mask) shift_a) mod 2 ^ digits in
  let S1' := ror S0z shift_b in
  (S1', mk S0' S1').

(** [discard(N)] *)
Fixpoint discard (N : nat) (e : t) : t :=
  match N with
  | O => e
  | Datatypes.S n => discard n (call e).2
  end.

Definition state (e : t) : Z * Z := (_S0 e, _S1 e).

(** [seed(S0)] and [seed(S0, S1)] *)
Definition seed (S0 : Z) : t := mk S0 S0.
Definition seed2 (S0 S1 : Z) : t := mk S0 S1.

(** Both state words are values of [result_type]. *)
Definition in_range (e : t) : Prop :=
  0 <= _S0 e < 2 ^ digits /\ 0 <= _S1 e < 2 ^ digits.

(** The rotation returns a value of [result_type]. *)
Definition ror_in_range : Prop :=
  forall x s, 0 <= ror x s < 2 ^ digits.

(** The rotation by [s] maps different values of [result_type] to
    different values. *)
Definition ror_injective (s : Z) : Prop :=
  forall x y, 0 <= x < 2 ^ digits -> 0 <= y < 2 ^ digits ->
    ror x s = ror y s -> x = y.

End Engine.

(** A 32-bit instance for the examples, with rotation to the right. *)
Definition sample_params : params := {|
  digits := 32;
  mask := 0x1220C860;
  shift_a := 7;
  shift_b := 3;
  ror x s := (x / 2 ^ s + (x mod 2 ^ s) * 2 ^ (32 - s)) mod 2 ^ 32
|}.

End ror_xor_ror_engine.

(** ** [actions/StaffSetOrderAction.hpp] *)

Class StaffConstants := {
  PEEP_TYPE_STAFF : Z;
  STAFF_TYPE_HANDYMAN : Z;
  STAFF_TYPE_MECHANIC : Z
}.

(** The fields of [rct_peep] the action reads or writes. *)
Module rct_peep.
Record t := mk {
  type : Z;
  staff_type : Z;
  staff_orders : Z;
  x : Z;
  y : Z;
  z : Z
}.
End rct_peep.

Inductive GA_ERROR :=
  | GA_ERROR_OK
  | GA_ERROR_INVALID_PARAMETERS.

(** [GameActionResult]: [Position] is [None] as long as it is the one the
    constructor left. *)
Module GameActionResult.
Record t := mk {
  Error : GA_ERROR;
  Position : option (Z * Z * Z)
}.
End GameActionResult.

(** What [Execute] tells the user interface. *)
Inductive UiEvent :=
  | window_invalidate_by_number_WC_PEEP (number : Z)
  | context_broadcast_intent_REFRESH_STAFF_LIST.

Module StaffSetOrderAction.

(** The action's members. *)
Record t := mk { _spriteIndex : Z; _orderId : Z }.

Section Action.
Context {I : ImportConstants} {S : StaffConstants}.

(** [sprites i] is the peep [GET_PEEP(i)] points at.  The second
    component is the sprite number [log_warning] reports, if any. *)
Definition Query (a : t) (sprites : Z -> rct_peep.t) : GameActionResult.t * option Z :=
  if MAX_SPRITES <=? _spriteIndex a
  then (GameActionResult.mk GA_ERROR_INVALID_PARAMETERS None, None)
  else
    let peep := sprites (_spriteIndex a) in
    if negb (rct_peep.type peep =? PEEP_TYPE_STAFF)
       || (negb (rct_peep.staff_type peep =? STAFF_TYPE_HANDYMAN)
           && negb (rct_peep.staff_type peep =? STAFF_TYPE_MECHANIC))
    then (GameActionResult.mk GA_ERROR_INVALID_PARAMETERS None, Some (_spriteIndex a))
    else (GameActionResult.mk GA_ERROR_OK None, None).

Definition Execute (a : t) (sprites : Z -> rct_peep.t) (ui : list UiEvent)
    : (Z -> rct_peep.t) * list UiEvent * GameActionResult.t :=
  let peep := sprites (_spriteIndex a) in
  let peep' := rct_peep.mk (rct_peep.type peep) (rct_peep.staff_type peep) (_orderId a)
                           (rct_peep.x peep) (rct_peep.y peep) (rct_peep.z peep) in
  let sprites' := fun i => if decide (i = _spriteIndex a) then peep' else sprites i in
  let ui' := ui ++ [window_invalidate_by_number_WC_PEEP (_spriteIndex a);
                    context_broadcast_intent_REFRESH_STAFF_LIST] in
  (sprites', ui',
   GameActionResult.mk GA_ERROR_OK
     (Some (rct_peep.x peep', rct_peep.y peep', rct_peep.z peep'))).

End Action.

End StaffSetOrderAction.

(** Sample staff constants and a sample sprite array: sprite 3 is a
    handyman at (96, 128, 14), sprite 4 a guest. *)
Definition sample_staff_constants : StaffConstants := {|
  PEEP_TYPE_STAFF := 1;
  STAFF_TYPE_HANDYMAN := 0;
  STAFF_TYPE_MECHANIC := 1
|}.

Definition sample_peeps (i : Z) : rct_peep.t :=
  if i =? 3 then rct_peep.mk 1 0 0 96 128 14
  else rct_peep.mk 0 0 0 0 0 0.

(* ================================================================== *)
(** * Part II: theorems                                                *)
(* ================================================================== *)

Section PeepSpawnFacts.
Context {C : FormatConstants}.

Lemma ImportPeepSpawns_body_migrate peep_spawns i acc :
  ImportPeepSpawns_body peep_spawns i acc
  = acc ++ from_option (fun s => option_list (migrate_spawn s)) [] (peep_spawns !! i).
Proof.
  unfold ImportPeepSpawns_body, migrate_spawn.
  destruct (peep_spawns !! i) as [src|]; simpl; [|by rewrite app_nil_r].
  destruct (decide _) as [->|Hne]; simpl.
  - by rewrite Z.eqb_refl, app_nil_r.
  - apply Z.eqb_neq in Hne. by rewrite Hne.
Qed.

Lemma ImportPeepSpawns_range peep_spawns n start acc :
  for_range start n (ImportPeepSpawns_body peep_spawns) acc
  = acc ++ omap migrate_spawn (take n (drop start peep_spawns)).
Proof.
  revert start acc. induction n as [|n IH]; intros start acc; simpl.
  - by rewrite app_nil_r.
  - rewrite IH, ImportPeepSpawns_body_migrate, <- app_assoc. f_equal.
    destruct (peep_spawns !! start) as [src|] eqn:E.
    + rewrite (drop_S _ _ _ E). simpl.
      by destruct (migrate_spawn src).
    + apply lookup_ge_None in E. rewrite !drop_ge by lia. by rewrite take_nil.
Qed.

End PeepSpawnFacts.

(** A loop whose iteration [i] rewrites slot [i] of an array. *)
Lemma for_range_alter_lookup {A : Type} (body : nat -> list A -> list A)
    (f : nat -> A -> A) n start (l : list A) j :
  (forall i l', body i l' = alter (f i) i l') ->
  for_range start n body l !! j
  = if decide (start <= j < start + n)%nat then f j <$> l !! j else l !! j.
Proof.
  intros Hbody. revert start l. induction n as [|n IH]; intros start l; simpl.
  - case_decide; [lia | done].
  - rewrite IH, Hbody. destruct (decide (j = start)) as [->|Hne].
    + rewrite list_lookup_alter_eq.
      repeat case_decide; try lia; done.
    + rewrite list_lookup_alter_ne by done.
      repeat case_decide; try lia; done.
Qed.

(** ** C6: peep spawns *)

Section PeepSpawnTheorems.
Context {C : FormatConstants}.

Lemma ImportPeepSpawns_quirks_length scenario_filename
    (peep_spawns : list rct12_peep_spawn.t) :
  length (ImportPeepSpawns_quirks scenario_filename peep_spawns) = length peep_spawns.
Proof.
  unfold ImportPeepSpawns_quirks.
  repeat match goal with |- context [if ?b then _ else _] => destruct b end;
    by rewrite ?length_alter, ?length_insert.
Qed.

(** C6.  The migration loop of [ImportPeepSpawns] turns the raw spawn array
    [_s6.peep_spawns] (as it stands when the loop starts, that is after the
    filename-keyed corrections) into the destination list entry by entry
    and in index order: an entry whose x is [PEEP_SPAWN_UNDEFINED]
    contributes nothing, every other entry contributes one spawn with the
    same x, y and direction and with z multiplied by 16.  The previous
    content of [gPeepSpawns] is discarded. *)
Theorem ImportPeepSpawns_loop_migrates
    (peep_spawns : list rct12_peep_spawn.t) (gPeepSpawns : list PeepSpawn.t) :
  length peep_spawns = RCT12_MAX_PEEP_SPAWNS ->
  ImportPeepSpawns_loop peep_spawns gPeepSpawns = omap migrate_spawn peep_spawns
  /\ (forall scenario_filename,
        (ImportPeepSpawns scenario_filename peep_spawns gPeepSpawns).2
        = omap migrate_spawn (ImportPeepSpawns_quirks scenario_filename peep_spawns))
  /\ (forall src, rct12_peep_spawn.x src = PEEP_SPAWN_UNDEFINED ->
                  migrate_spawn src = None)
  /\ (forall src, rct12_peep_spawn.x src <> PEEP_SPAWN_UNDEFINED ->
        exists spawn, migrate_spawn src = Some spawn
          /\ PeepSpawn.x spawn = rct12_peep_spawn.x src
          /\ PeepSpawn.y spawn = rct12_peep_spawn.y src
          /\ PeepSpawn.z spawn = rct12_peep_spawn.z src * 16
          /\ PeepSpawn.direction spawn = rct12_peep_spawn.direction src).
Proof.
  intros Hlen.
  assert (Hloop : forall l old, length l = RCT12_MAX_PEEP_SPAWNS ->
            ImportPeepSpawns_loop l old = omap migrate_spawn l).
  { intros l old Hl. unfold ImportPeepSpawns_loop.
    rewrite ImportPeepSpawns_range. simpl.
    by rewrite drop_0, <- Hl, firstn_all. }
  split; [by apply Hloop|]. split; [|split].
  - intros scenario_filename. unfold ImportPeepSpawns. simpl.
    apply Hloop. by rewrite ImportPeepSpawns_quirks_length.
  - intros src Hx. unfold migrate_spawn. by rewrite decide_True.
  - intros src Hx. unfold migrate_spawn. rewrite decide_False by done.
    eexists. repeat split.
Qed.

End PeepSpawnTheorems.

(** The end-to-end example of the format: one spawn at (100, 100, 5)
    facing 1 and one unused slot. *)
Lemma ImportPeepSpawns_loop_migrates_witness :
  @ImportPeepSpawns_loop rct2_constants
    [rct12_peep_spawn.mk 100 100 5 1; rct12_peep_spawn.mk 0xFFFF 0 0 0] []
  = [PeepSpawn.mk 100 100 80 1].
Proof.
  pose proof (@ImportPeepSpawns_loop_migrates rct2_constants
    [rct12_peep_spawn.mk 100 100 5 1; rct12_peep_spawn.mk 0xFFFF 0 0 0] []
    eq_refl) as [H _].
  rewrite H. reflexivity.
Defined.

(** ** C9: filename-keyed corrections *)

Lemma String_Equals_false (a b : string) : a <> b -> String_Equals a b = false.
Proof. intros H. unfold String_Equals. by apply String.eqb_neq. Qed.

Section QuirkTheorems.
Context {C : FormatConstants}.
Context {World : Type}.
Variable FixLandOwnershipTilesWithOwnership : list (Z * Z) -> Z -> World -> World.

(** C9.  For a scenario filename that is not literally one of the
    registered names, both correction stages are the identity: the raw
    spawn array is left as it was, [ImportPeepSpawns] equals the plain
    migration loop, and the land-ownership repair is not run.  The stages
    are total functions, so nothing is raised. *)
Theorem quirks_noop_on_unregistered_filename (scenario_filename : string)
    (peep_spawns : list rct12_peep_spawn.t) (gPeepSpawns : list PeepSpawn.t)
    (w : World) :
  scenario_filename ∉ registered_quirk_filenames ->
  ImportPeepSpawns_quirks scenario_filename peep_spawns = peep_spawns
  /\ ImportPeepSpawns scenario_filename peep_spawns gPeepSpawns
     = (peep_spawns, ImportPeepSpawns_loop peep_spawns gPeepSpawns)
  /\ Import_quirks FixLandOwnershipTilesWithOwnership scenario_filename w = w.
Proof.
  unfold registered_quirk_filenames. intros Hnot.
  repeat (apply not_elem_of_cons in Hnot; destruct Hnot as [? Hnot]).
  assert (Hq : ImportPeepSpawns_quirks scenario_filename peep_spawns = peep_spawns).
  { unfold ImportPeepSpawns_quirks. by rewrite !String_Equals_false. }
  split; [exact Hq|split].
  - unfold ImportPeepSpawns. by rewrite Hq.
  - unfold Import_quirks. by rewrite String_Equals_false.
Qed.

End QuirkTheorems.

(** A filename that differs from a registered one only in letter case is
    not matched. *)
Lemma quirks_noop_on_unregistered_filename_witness :
  @ImportPeepSpawns rct2_constants "amity airfield.sc6"
     [rct12_peep_spawn.mk 100 100 5 1; rct12_peep_spawn.mk 0xFFFF 0 0 0] []
  = ([rct12_peep_spawn.mk 100 100 5 1; rct12_peep_spawn.mk 0xFFFF 0 0 0],
     [PeepSpawn.mk 100 100 80 1])
  /\ @Import_quirks rct2_constants nat (fun _ _ n => S n) "amity airfield.sc6" 0%nat
     = 0%nat.
Proof.
  assert (Hnot : "amity airfield.sc6"%string ∉ registered_quirk_filenames).
  { unfold registered_quirk_filenames.
    repeat (apply not_elem_of_cons; split; [discriminate|]).
    apply not_elem_of_nil. }
  pose proof (@quirks_noop_on_unregistered_filename rct2_constants nat
    (fun _ _ n => S n) "amity airfield.sc6"
    [rct12_peep_spawn.mk 100 100 5 1; rct12_peep_spawn.mk 0xFFFF 0 0 0] [] 0%nat Hnot)
    as (_ & H2 & H3).
  split; [rewrite H2; reflexivity | exact H3].
Defined.

(** A registered filename does get its correction: the first spawn of
    "Amity Airfield.SC6" is moved to y = 1296 before it is migrated. *)
Example amity_airfield_is_patched :
  @ImportPeepSpawns rct2_constants "Amity Airfield.SC6"
     [rct12_peep_spawn.mk 100 100 5 1; rct12_peep_spawn.mk 0xFFFF 0 0 0] []
  = ([rct12_peep_spawn.mk 100 1296 5 1; rct12_peep_spawn.mk 0xFFFF 0 0 0],
     [PeepSpawn.mk 100 1296 80 1]).
Proof. reflexivity. Qed.

(** ** C7 and C10: rides *)

Section RideTheorems.
Context {C : FormatConstants}.
Context {RideFields : Type}.

Lemma ImportNumRiders_step_count (rideIndex : Z) (sprites : list rct_sprite.t) (a : Z) :
  0 <= a ->
  a + Z.of_nat (length sprites) < 65536 ->
  foldl (fun numRiders sprite =>
           if rct_sprite.sprite_identifier sprite =? SPRITE_IDENTIFIER_PEEP
           then
             if (rct_sprite.current_ride sprite =? rideIndex)
                && ((rct_sprite.state sprite =? PEEP_STATE_ON_RIDE)
                    || (rct_sprite.state sprite =? PEEP_STATE_ENTERING_RIDE))
             then (numRiders + 1) mod 65536
             else numRiders
           else numRiders) a sprites
  = a + Z.of_nat (length (filter (is_rider rideIndex) sprites)).
Proof.
  revert a. induction sprites as [|s sprites IH]; intros a Ha Hlt; simpl.
  - lia.
  - rewrite length_cons in Hlt.
    destruct (decide (is_rider rideIndex s)) as [Hy|Hn].
    + rewrite filter_cons_True by done. destruct Hy as (Hid & Hr & Hs).
      rewrite Hid, Hr, !Z.eqb_refl. simpl.
      assert (Hst : (rct_sprite.state s =? PEEP_STATE_ON_RIDE)
                    || (rct_sprite.state s =? PEEP_STATE_ENTERING_RIDE) = true).
      { destruct Hs as [-> | ->]; rewrite Z.eqb_refl; by rewrite ?orb_true_r. }
      rewrite Hst, Z.mod_small by lia.
      rewrite IH by lia. simpl length. lia.
    + rewrite filter_cons_False by done. rewrite <- IH by lia. f_equal.
      destruct (Z.eqb_spec (rct_sprite.sprite_identifier s) SPRITE_IDENTIFIER_PEEP); [|done].
      destruct (Z.eqb_spec (rct_sprite.current_ride s) rideIndex); [|done].
      destruct (Z.eqb_spec (rct_sprite.state s) PEEP_STATE_ON_RIDE);
        [exfalso; apply Hn; unfold is_rider; tauto|].
      destruct (Z.eqb_spec (rct_sprite.state s) PEEP_STATE_ENTERING_RIDE);
        [exfalso; apply Hn; unfold is_rider; tauto|].
      done.
Qed.

Lemma ImportRides_lookup (sprites : list rct_sprite.t)
    (rides : list (rct2_ride.t RideFields)) (gRideList : list (Ride.t RideFields))
    (index : nat) (src : rct2_ride.t RideFields) (old : Ride.t RideFields) :
  rides !! index = Some src ->
  rct2_ride.type src <> RIDE_TYPE_NULL ->
  (index < RCT12_MAX_RIDES_IN_PARK)%nat ->
  gRideList !! index = Some old ->
  ImportRides sprites rides gRideList !! index
  = Some (ImportRide sprites old src (Z.of_nat index)).
Proof.
  intros Hsrc Htype Hidx Hold. unfold ImportRides.
  rewrite for_range_alter_lookup with
    (f := fun i dst =>
            match rides !! i with
            | Some src =>
                if negb (rct2_ride.type src =? RIDE_TYPE_NULL)
                then ImportRide sprites dst src (Z.of_nat i) else dst
            | None => dst
            end).
  - rewrite decide_True by lia. rewrite Hold, Hsrc. simpl.
    apply Z.eqb_neq in Htype. by rewrite Htype.
  - intros i l'. destruct (rides !! i) as [s|]; [|by rewrite list_alter_id].
    destruct (negb _); [done | by rewrite list_alter_id].
Qed.

(** C7.  Every ride written by [ImportRides] gets as its rider count the
    number of raw sprites that are peeps on that ride in state "on ride" or
    "entering ride" (the raw sprite array has fewer than 2^16 entries, so
    the 16-bit counter does not wrap).  The counter stored in the raw ride
    record plays no part: changing it does not change the imported ride. *)
Theorem ImportNumRiders_recounts (sprites : list rct_sprite.t)
    (rides : list (rct2_ride.t RideFields)) (gRideList : list (Ride.t RideFields))
    (index : nat) (src : rct2_ride.t RideFields) (old : Ride.t RideFields) :
  Z.of_nat (length sprites) < 65536 ->
  rides !! index = Some src ->
  rct2_ride.type src <> RIDE_TYPE_NULL ->
  (index < RCT12_MAX_RIDES_IN_PARK)%nat ->
  gRideList !! index = Some old ->
  exists dst,
    ImportRides sprites rides gRideList !! index = Some dst
    /\ Ride.num_riders dst
       = Z.of_nat (length (filter (is_rider (Z.of_nat index)) sprites))
    /\ forall stored : Z,
         ImportRide sprites old
           {| rct2_ride.type := rct2_ride.type src;
              rct2_ride.station_starts := rct2_ride.station_starts src;
              rct2_ride.station_heights := rct2_ride.station_heights src;
              rct2_ride.station_length := rct2_ride.station_length src;
              rct2_ride.station_depart := rct2_ride.station_depart src;
              rct2_ride.train_at_station := rct2_ride.train_at_station src;
              rct2_ride.entrances := rct2_ride.entrances src;
              rct2_ride.exits := rct2_ride.exits src;
              rct2_ride.last_peep_in_queue := rct2_ride.last_peep_in_queue src;
              rct2_ride.length := rct2_ride.length src;
              rct2_ride.time := rct2_ride.time src;
              rct2_ride.queue_time := rct2_ride.queue_time src;
              rct2_ride.queue_length := rct2_ride.queue_length src;
              rct2_ride.num_riders := stored;
              rct2_ride.copied := rct2_ride.copied src |} (Z.of_nat index)
         = dst.
Proof.
  intros Hlen Hsrc Htype Hidx Hold.
  exists (ImportRide sprites old src (Z.of_nat index)). split; [|split].
  - by apply ImportRides_lookup.
  - simpl. unfold ImportNumRiders.
    rewrite ImportNumRiders_step_count by lia. lia.
  - intros stored. reflexivity.
Qed.

(** C10.  For a station index below [RCT12_MAX_STATIONS_PER_RIDE] the
    imported exit location is cleared when the raw exit coordinate is
    [RCT_XY8_UNDEFINED]; otherwise its x and y are those of the raw
    ENTRANCE record of that station, its z is the station height and its
    direction is 0.  The raw exit record only decides between the two
    cases. *)
Theorem ImportRide_exit_uses_entrance_xy (sprites : list rct_sprite.t)
    (dst : Ride.t RideFields) (src : rct2_ride.t RideFields) (rideIndex : Z)
    (i : nat) (entrance exit : LocationXY8.t) (height : Z) :
  (i < RCT12_MAX_STATIONS_PER_RIDE)%nat ->
  (RCT12_MAX_STATIONS_PER_RIDE <= MAX_STATIONS)%nat ->
  rct2_ride.entrances src !! i = Some entrance ->
  rct2_ride.exits src !! i = Some exit ->
  rct2_ride.station_heights src !! i = Some height ->
  exists st,
    Ride.stations (ImportRide sprites dst src rideIndex) !! i = Some st
    /\ RideStation.Exit st
       = if decide (LocationXY8.xy exit = RCT_XY8_UNDEFINED)
         then LocationCleared
         else LocationAt
                {| TileCoordsXYZD.x := LocationXY8.x entrance;
                   TileCoordsXYZD.y := LocationXY8.y entrance;
                   TileCoordsXYZD.z := height;
                   TileCoordsXYZD.direction := 0 |}.
Proof.
  intros Hi Hle Hentrance Hexit Hheight. unfold ImportRide. cbn [Ride.stations Ride_zero].
  erewrite for_range_alter_lookup; [|intros; unfold ImportRide_extra_station; reflexivity].
  rewrite decide_False by lia.
  erewrite for_range_alter_lookup; [|intros; unfold ImportRide_station; reflexivity].
  rewrite decide_True by lia.
  rewrite lookup_replicate_2 by lia. simpl.
  eexists. split; [reflexivity|]. simpl.
  rewrite (list_lookup_total_correct _ _ _ Hentrance),
    (list_lookup_total_correct _ _ _ Hexit), (list_lookup_total_correct _ _ _ Hheight).
  destruct (Z.eqb_spec (LocationXY8.xy exit) RCT_XY8_UNDEFINED).
  - by rewrite decide_True.
  - by rewrite decide_False.
Qed.

End RideTheorems.

Lemma ImportNumRiders_recounts_witness :
  Ride.num_riders <$>
    (@ImportRides rct2_constants unit sample_sprites [sample_ride]
       [@Ride_zero rct2_constants unit] !! 0%nat)
  = Some 2.
Proof.
  destruct (@ImportNumRiders_recounts rct2_constants unit sample_sprites
              [sample_ride] [@Ride_zero rct2_constants unit] 0%nat sample_ride
              (@Ride_zero rct2_constants unit))
    as (dst & Hdst & Hcount & _).
  - simpl. lia.
  - reflexivity.
  - simpl. lia.
  - simpl. lia.
  - reflexivity.
  - rewrite Hdst. simpl. rewrite Hcount. reflexivity.
Defined.

Lemma ImportRide_exit_uses_entrance_xy_witness :
  RideStation.Exit <$>
    (Ride.stations (@ImportRide rct2_constants unit sample_sprites
                      (@Ride_zero rct2_constants unit) sample_ride 0) !! 0%nat)
  = Some (LocationAt (TileCoordsXYZD.mk 10 20 7 0)).
Proof.
  destruct (@ImportRide_exit_uses_entrance_xy rct2_constants unit sample_sprites
              (@Ride_zero rct2_constants unit) sample_ride 0 0%nat
              (LocationXY8.mk 10 20) (LocationXY8.mk 30 40) 7)
    as (st & Hst & Hexit).
  - simpl. lia.
  - simpl. lia.
  - reflexivity.
  - reflexivity.
  - reflexivity.
  - rewrite Hst. simpl. rewrite Hexit. reflexivity.
Defined.

(** ** C8: research bitmaps *)

Lemma land_one_shifted (w b : Z) :
  0 <= b -> negb (Z.land w (Z.shiftl 1 b) =? 0) = Z.testbit w b.
Proof.
  intros Hb. rewrite Z.shiftl_1_l.
  destruct (Z.testbit w b) eqn:Hbit.
  - apply negb_true_iff, Z.eqb_neq. intros H0.
    assert (Ht : Z.testbit (Z.land w (2 ^ b)) b = true).
    { by rewrite Z.land_spec, Hbit, Z.pow2_bits_true. }
    rewrite H0, Z.bits_0 in Ht. discriminate.
  - apply negb_false_iff, Z.eqb_eq. apply Z.bits_inj'. intros m Hm.
    rewrite Z.land_spec, Z.bits_0, Z.pow2_bits_eqb by done.
    destruct (Z.eqb_spec b m) as [->|]; [by rewrite Hbit | by rewrite andb_false_r].
Qed.

(** A scan that marks index [i] when [test i] holds collects exactly the
    scanned indices that pass the test. *)
Lemma scan_marks {S : Type} (get : S -> gset Z) (mark : Z -> S -> S)
    (test : Z -> bool) n start (s : S) (index : Z) :
  (forall i s', get (mark i s') = {[i]} ∪ get s') ->
  index ∈ get (for_range start n
                 (fun i s' => if test (Z.of_nat i) then mark (Z.of_nat i) s' else s') s)
  <-> index ∈ get s
      \/ (Z.of_nat start <= index < Z.of_nat start + Z.of_nat n /\ test index = true).
Proof.
  intros Hmark. revert start s. induction n as [|n IH]; intros start s; simpl.
  - split; [by left | intros [?|[? _]]; [done | lia]].
  - rewrite IH. destruct (test (Z.of_nat start)) eqn:Ht.
    + rewrite Hmark, elem_of_union, elem_of_singleton. split.
      * intros [[->|?]|[? ?]]; [right; split; [lia|done] | by left | right; split; [lia|done]].
      * intros [?|[? ?]]; [by left; right|].
        destruct (decide (index = Z.of_nat start)) as [->|]; [by left; left|].
        right. split; [lia|done].
    + split.
      * intros [?|[? ?]]; [by left | right; split; [lia|done]].
      * intros [?|[? ?]]; [by left|].
        destruct (decide (index = Z.of_nat start)) as [->|]; [congruence|].
        right. split; [lia|done].
Qed.

Lemma bitmap_only_bit_5 (n : nat) (index : Z) :
  0 <= index ->
  bitmap_bit_set (32 :: replicate n 0) index <-> index = 5.
Proof.
  intros Hge. unfold bitmap_bit_set.
  change 31 with (Z.ones 5). rewrite Z.land_ones, Z.shiftr_div_pow2 by lia.
  change (2 ^ 5) with 32.
  pose proof (Z.div_mod index 32 ltac:(lia)) as Hdm.
  pose proof (Z.mod_pos_bound index 32 ltac:(lia)) as Hmod.
  assert (Hq : 0 <= index / 32) by (apply Z.div_pos; lia).
  split.
  - intros (w & Hw & Hbit).
    destruct (Z.to_nat (index / 32)) as [|k] eqn:Hk.
    + simpl in Hw. injection Hw as <-.
      change 32 with (2 ^ 5) in Hbit at 1. rewrite Z.pow2_bits_eqb in Hbit by lia.
      apply Z.eqb_eq in Hbit. lia.
    + simpl in Hw. apply lookup_replicate in Hw as [-> _].
      rewrite Z.bits_0 in Hbit. discriminate.
  - intros ->. exists 32. split; reflexivity.
Qed.

Section ResearchTheorems.
Context {C : FormatConstants}.

Lemma bit_test_is_bitmap_bit (words : list Z) (index : Z) :
  0 <= index < 32 * Z.of_nat (length words) ->
  negb (Z.land (words !!! Z.to_nat (Z.shiftr index 5)) (Z.shiftl 1 (Z.land index 31)) =? 0)
  = true <-> bitmap_bit_set words index.
Proof.
  intros Hrange. unfold bitmap_bit_set.
  assert (Hb : 0 <= Z.land index 31).
  { change 31 with (Z.ones 5). rewrite Z.land_ones by lia.
    apply Z.mod_pos_bound. lia. }
  assert (Hq : (Z.to_nat (Z.shiftr index 5) < length words)%nat).
  { rewrite Z.shiftr_div_pow2 by lia. change (2 ^ 5) with 32.
    assert (index / 32 < Z.of_nat (length words)) by (apply Z.div_lt_upper_bound; lia).
    assert (0 <= index / 32) by (apply Z.div_pos; lia). lia. }
  destruct (lookup_lt_is_Some_2 _ _ Hq) as [w Hw].
  rewrite (list_lookup_total_correct _ _ _ Hw), land_one_shifted by done.
  split; [by exists w | by intros (w' & ? & ?); simplify_eq].
Qed.

(** The three scans, each seen as "mark every index of the range whose bit
    is set". *)
Lemma research_scan {S : Type} (get : S -> gset Z) (mark : Z -> S -> S)
    (words : list Z) (count : Z) (s : S) (index : Z) :
  (forall i s', get (mark i s') = {[i]} ∪ get s') ->
  get s = ∅ ->
  count <= 32 * Z.of_nat (length words) ->
  index ∈ get (for_range 0 (Z.to_nat count)
      (fun i s' =>
         let item := Z.of_nat i in
         let quadIndex := Z.shiftr item 5 in
         let bitIndex := Z.land item 0x1F in
         let invented :=
           negb (Z.land (words !!! Z.to_nat quadIndex) (Z.shiftl 1 bitIndex) =? 0) in
         if invented then mark item s' else s') s)
  <-> 0 <= index < count /\ bitmap_bit_set words index.
Proof.
  intros Hmark Hempty Hcover. cbv zeta.
  rewrite (scan_marks get mark
             (fun i => negb (Z.land (words !!! Z.to_nat (Z.shiftr i 5))
                                    (Z.shiftl 1 (Z.land i 31)) =? 0))) by done.
  rewrite Hempty. split.
  - intros [Hin|[Hr Ht]]; [by apply not_elem_of_empty in Hin|].
    split; [lia|]. apply bit_test_is_bitmap_bit; [lia|done].
  - intros [Hr Hb]. right. split; [lia|].
    apply bit_test_is_bitmap_bit; [lia|done].
Qed.

(** C8.  Each of the three research scans first empties its table and then
    marks index [i] "invented" exactly when [i] lies in the scanned range
    and bit [i & 31] of word [i >> 5] of the raw bit array is set (the raw
    arrays are long enough to hold one bit per scanned index).  A bit array
    whose only set bit is bit 5 therefore yields exactly index 5: 4 and 6
    stay "not invented". *)
Theorem research_bitmaps_decode (ride_types ride_entries scenery_items : list Z)
    (r : ResearchInvented) :
  RIDE_TYPE_COUNT <= 32 * Z.of_nat (length ride_types) ->
  MAX_RIDE_OBJECTS <= 32 * Z.of_nat (length ride_entries) ->
  RCT2_MAX_RESEARCHED_SCENERY_ITEMS <= 32 * Z.of_nat (length scenery_items) ->
  (forall index,
     index ∈ ride_types_invented (ImportResearchedRideTypes ride_types r)
     <-> 0 <= index < RIDE_TYPE_COUNT /\ bitmap_bit_set ride_types index)
  /\ (forall index,
     index ∈ ride_entries_invented (ImportResearchedRideEntries ride_entries r)
     <-> 0 <= index < MAX_RIDE_OBJECTS /\ bitmap_bit_set ride_entries index)
  /\ (forall index,
     index ∈ scenery_items_invented (ImportResearchedSceneryItems scenery_items r)
     <-> 0 <= index < RCT2_MAX_RESEARCHED_SCENERY_ITEMS
         /\ bitmap_bit_set scenery_items index)
  /\ (forall n, ride_types = 32 :: replicate n 0 -> 5 < RIDE_TYPE_COUNT ->
        ride_types_invented (ImportResearchedRideTypes ride_types r) = {[ 5 ]})
  /\ (forall n, ride_entries = 32 :: replicate n 0 -> 5 < MAX_RIDE_OBJECTS ->
        ride_entries_invented (ImportResearchedRideEntries ride_entries r) = {[ 5 ]})
  /\ (forall n, scenery_items = 32 :: replicate n 0 ->
        5 < RCT2_MAX_RESEARCHED_SCENERY_ITEMS ->
        scenery_items_invented (ImportResearchedSceneryItems scenery_items r) = {[ 5 ]}).
Proof.
  intros H1 H2 H3.
  assert (A1 : forall index,
     index ∈ ride_types_invented (ImportResearchedRideTypes ride_types r)
     <-> 0 <= index < RIDE_TYPE_COUNT /\ bitmap_bit_set ride_types index).
  { intros index. unfold ImportResearchedRideTypes. by apply research_scan. }
  assert (A2 : forall index,
     index ∈ ride_entries_invented (ImportResearchedRideEntries ride_entries r)
     <-> 0 <= index < MAX_RIDE_OBJECTS /\ bitmap_bit_set ride_entries index).
  { intros index. unfold ImportResearchedRideEntries. by apply research_scan. }
  assert (A3 : forall index,
     index ∈ scenery_items_invented (ImportResearchedSceneryItems scenery_items r)
     <-> 0 <= index < RCT2_MAX_RESEARCHED_SCENERY_ITEMS
         /\ bitmap_bit_set scenery_items index).
  { intros index. unfold ImportResearchedSceneryItems. by apply research_scan. }
  split; [exact A1|]. split; [exact A2|]. split; [exact A3|].
  split; [|split].
  - intros n Hw Hc. apply set_eq. intros index.
    rewrite A1, elem_of_singleton, Hw. split.
    + intros [[? _] Hb]. by apply bitmap_only_bit_5 in Hb.
    + intros ->. split; [lia|]. by apply bitmap_only_bit_5.
  - intros n Hw Hc. apply set_eq. intros index.
    rewrite A2, elem_of_singleton, Hw. split.
    + intros [[? _] Hb]. by apply bitmap_only_bit_5 in Hb.
    + intros ->. split; [lia|]. by apply bitmap_only_bit_5.
  - intros n Hw Hc. apply set_eq. intros index.
    rewrite A3, elem_of_singleton, Hw. split.
    + intros [[? _] Hb]. by apply bitmap_only_bit_5 in Hb.
    + intros ->. split; [lia|]. by apply bitmap_only_bit_5.
Qed.

End ResearchTheorems.

(** The format's ride-type bitmap (8 words, 91 ride types) with only bit 5
    set: index 5 is invented, 4 and 6 are not. *)
Lemma research_bitmaps_decode_witness :
  let r := @ImportResearchedRideTypes rct2_constants (32 :: replicate 7 0)
             {| ride_types_invented := {[ 1; 2; 3 ]};
                ride_entries_invented := ∅; scenery_items_invented := ∅ |} in
  (5 ∈ ride_types_invented r) /\ (4 ∉ ride_types_invented r) /\ (6 ∉ ride_types_invented r).
Proof.
  destruct (@research_bitmaps_decode rct2_constants
              (32 :: replicate 7 0) (replicate 8 0) (replicate 56 0)
              {| ride_types_invented := {[ 1; 2; 3 ]};
                 ride_entries_invented := ∅; scenery_items_invented := ∅ |})
    as (_ & _ & _ & H5 & _).
  - simpl. lia.
  - simpl. lia.
  - simpl. lia.
  - cbv zeta. rewrite (H5 7%nat eq_refl ltac:(simpl; lia)).
    rewrite !elem_of_singleton. repeat split; lia.
Defined.

(** ** C3, C4, C5: loading from a stream *)

Section LoadTheorems.
Context {C : FormatConstants}.
Context {Stream Payload : Type} {ops : StreamOps Stream Payload}.

Local Abbreviation no_IOException := (no_IOException (Stream := Stream) (Payload := Payload)).
Local Abbreviation emits := (emits (Stream := Stream) (Payload := Payload)).

Lemma no_IOException_ret {A : Type} (a : A) : no_IOException (ret a).
Proof. intros st what. discriminate. Qed.

Lemma no_IOException_bind {A B : Type} (m : LoadM A) (k : A -> LoadM B) :
  no_IOException m -> (forall a, no_IOException (k a)) -> no_IOException (bind m k).
Proof.
  intros Hm Hk st what. unfold bind. specialize (Hm st what).
  destruct (m st) as [st' [a|e]]; [apply Hk|].
  simpl in *. intros [= ->]. by apply Hm.
Qed.

Lemma no_IOException_read_chunk dst len : no_IOException (read_chunk dst len).
Proof.
  intros st what. unfold read_chunk.
  destruct (ReadChunk len (stream st)) as [[? ?]|]; discriminate.
Qed.

Lemma no_IOException_export : no_IOException export_packed_object.
Proof.
  intros st what. unfold export_packed_object.
  destruct (ExportPackedObject (stream st)); discriminate.
Qed.

Lemma no_IOException_repeatM n (m : LoadM unit) :
  no_IOException m -> no_IOException (repeatM n m).
Proof.
  intros Hm. induction n as [|n IH]; simpl.
  - apply no_IOException_ret.
  - by apply no_IOException_bind.
Qed.

Lemma no_IOException_runtime_error {A : Type} what :
  no_IOException (throw (A := A) (runtime_error what)).
Proof. intros st w. discriminate. Qed.

Lemma no_IOException_unsupported {A : Type} flag :
  no_IOException (throw (A := A) (UnsupportedRCTCFlagException flag)).
Proof. intros st w. discriminate. Qed.

Ltac no_io :=
  repeat first
    [ apply no_IOException_ret
    | apply no_IOException_read_chunk
    | apply no_IOException_export
    | apply no_IOException_runtime_error
    | apply no_IOException_unsupported
    | apply no_IOException_repeatM
    | apply no_IOException_bind
    | match goal with |- no_IOException (if ?b then _ else _) => destruct b end
    | match goal with |- forall _, _ => intro end ].

(** Everything after the checksum statement. *)
Lemma LoadFromStream_chunks_no_IOException (isScenario : bool) :
  no_IOException (LoadFromStream_chunks isScenario).
Proof. unfold LoadFromStream_chunks. no_io. Qed.

(** C3 (as the code has it).  The checksum is validated on the scenario
    path only.  There the configuration flag alone decides: with enforcement
    on and a failing checksum the call throws [IOException "Invalid
    checksum."] before any chunk is read or stored; with enforcement off, or a
    passing checksum, no [IOException] leaves the call.  On the saved-game
    path no [IOException] leaves the call, whatever the flag and the
    checksum. *)
Theorem checksum_enforced_on_scenario_path_only (allow : bool) (st : LoadState Stream Payload) :
  (allow = false -> (ValidateChecksum (stream st)).1 = false ->
     exists st',
       LoadScenario allow st = (st', Thrown (IOException "Invalid checksum."))
       /\ events st' = events st /\ s6 st' = s6 st)
  /\ (allow = true \/ (ValidateChecksum (stream st)).1 = true ->
      forall what, (LoadScenario allow st).2 <> Thrown (IOException what))
  /\ (forall what, (LoadSavedGame allow st).2 <> Thrown (IOException what)).
Proof.
  unfold LoadScenario, LoadSavedGame. split; [|split].
  - intros -> Hbad. unfold LoadFromStream. simpl.
    unfold bind at 1. unfold bind at 1. unfold validate_checksum.
    destruct (ValidateChecksum (stream st)) as [ok stream'] eqn:Hv.
    simpl in Hbad. subst ok. simpl. eexists. split; [reflexivity|]. by split.
  - intros Hcase what. unfold LoadFromStream. unfold bind at 1.
    destruct allow; simpl.
    + apply (LoadFromStream_chunks_no_IOException true).
    + destruct Hcase as [?|Hok]; [done|].
      unfold bind at 1. unfold validate_checksum.
      destruct (ValidateChecksum (stream st)) as [ok stream'] eqn:Hv.
      simpl in Hok. subst ok. simpl.
      apply (LoadFromStream_chunks_no_IOException true).
  - intros what. unfold LoadFromStream. unfold bind at 1. simpl.
    apply (LoadFromStream_chunks_no_IOException false).
Qed.

Lemma emits_ret {A : Type} (a : A) : emits (ret a) [].
Proof. intros st st' a' [= <- _]. by rewrite app_nil_r. Qed.

Lemma emits_throw {A : Type} (e : Exception) evs : emits (throw (A := A) e) evs.
Proof. intros st st' a. discriminate. Qed.

Lemma emits_bind {A B : Type} (m : LoadM A) (k : A -> LoadM B) e1 e2 :
  emits m e1 -> (forall a, emits (k a) e2) -> emits (bind m k) (e1 ++ e2).
Proof.
  intros Hm Hk st st' b. unfold bind.
  destruct (m st) as [st1 [a|e]] eqn:Hst; [|discriminate].
  intros Hrun. rewrite (Hk a _ _ _ Hrun), (Hm _ _ _ Hst). by rewrite app_assoc.
Qed.

Lemma emits_read_chunk dst len : emits (read_chunk dst len) [EvReadChunk dst len].
Proof.
  intros st st' a. unfold read_chunk.
  destruct (ReadChunk len (stream st)) as [[? ?]|]; [|discriminate].
  by intros [= <- _].
Qed.

Lemma emits_export_packed_objects n :
  emits (repeatM n export_packed_object) (replicate n EvExportPackedObject).
Proof.
  induction n as [|n IH]; simpl.
  - apply emits_ret.
  - change (EvExportPackedObject :: replicate n EvExportPackedObject)
      with ([EvExportPackedObject] ++ replicate n EvExportPackedObject).
    apply emits_bind; [|done].
    intros st st' a. unfold export_packed_object.
    destruct (ExportPackedObject (stream st)); [|discriminate].
    by intros [= <- _].
Qed.

Lemma emits_eq {A : Type} (m : LoadM A) evs evs' :
  emits m evs -> evs = evs' -> emits m evs'.
Proof. by intros ? <-. Qed.

Ltac emits_steps :=
  repeat first
    [ apply emits_read_chunk
    | apply emits_export_packed_objects
    | apply emits_ret
    | apply emits_throw
    | eapply emits_bind
    | match goal with |- emits (if ?b then _ else _) _ => destruct b end
    | match goal with |- forall _, _ => intro end ].

Lemma LoadFromStream_chunks_events (isScenario : bool) st st' objects :
  LoadFromStream_chunks isScenario st = (st', Returned objects) ->
  exists n, events st' = events st
                         ++ (if isScenario then scenario_events n else savedgame_events n).
Proof.
  unfold LoadFromStream_chunks. unfold bind at 1.
  destruct (read_chunk s6_header sizeof_header st) as [st1 [header_chunk|e]] eqn:Hhdr;
    [|discriminate].
  apply emits_read_chunk in Hhdr. intros Hrun.
  exists (Z.to_nat (rct_s6_header.num_packed_objects (header_of header_chunk))).
  revert Hrun.
  generalize (Z.to_nat (rct_s6_header.num_packed_objects (header_of header_chunk))).
  intros n.
  assert (Hem : emits
    (bind (if isScenario
           then
             if negb (rct_s6_header.type (header_of header_chunk) =? S6_TYPE_SCENARIO)
             then throw (runtime_error "Park is not a scenario.")
             else bind (read_chunk s6_info sizeof_info) (fun _ => ret tt)
           else
             if negb (rct_s6_header.type (header_of header_chunk) =? S6_TYPE_SAVEDGAME)
             then throw (runtime_error "Park is not a saved game.")
             else ret tt) (fun _ =>
     if rct_s6_header.classic_flag (header_of header_chunk) =? 0xf
     then throw (UnsupportedRCTCFlagException
                   (rct_s6_header.classic_flag (header_of header_chunk)))
     else
       bind (repeatM n export_packed_object) (fun _ =>
       if isScenario
       then
         bind (read_chunk s6_objects sizeof_objects) (fun objects =>
         bind (read_chunk s6_elapsed_months 16) (fun _ =>
         bind (read_chunk s6_tile_elements sizeof_tile_elements) (fun _ =>
         bind (read_chunk s6_next_free_tile_element_pointer_index 2560076) (fun _ =>
         bind (read_chunk s6_guests_in_park 4) (fun _ =>
         bind (read_chunk s6_last_guests_in_park 8) (fun _ =>
         bind (read_chunk s6_park_rating 2) (fun _ =>
         bind (read_chunk s6_active_research_types 1082) (fun _ =>
         bind (read_chunk s6_current_expenditure 16) (fun _ =>
         bind (read_chunk s6_park_value 4) (fun _ =>
         bind (read_chunk s6_completed_company_value 483816) (fun _ =>
         ret objects)))))))))))
       else
         bind (read_chunk s6_objects sizeof_objects) (fun objects =>
         bind (read_chunk s6_elapsed_months 16) (fun _ =>
         bind (read_chunk s6_tile_elements sizeof_tile_elements) (fun _ =>
         bind (read_chunk s6_next_free_tile_element_pointer_index 3048816) (fun _ =>
         ret objects)))))))
    (tail (if isScenario then scenario_events n else savedgame_events n))).
  { destruct isScenario; (eapply emits_eq; [emits_steps|]); simpl;
      rewrite ?app_nil_r; reflexivity. }
  intros Hrun. apply Hem in Hrun. rewrite Hrun, Hhdr, <- app_assoc.
  by destruct isScenario.
Qed.

Lemma chunk_reads_skip_exports n evs :
  chunk_reads (replicate n EvExportPackedObject ++ evs) = chunk_reads evs.
Proof. induction n as [|n IH]; simpl; done. Qed.

(** C4 (as the code has it).  A load that returns has made exactly the
    calls of its layout, in order.  Both layouts start with the header
    chunk and, after the packed objects, read the same three chunks (object
    table, 16 bytes, tile elements).  They differ in the scenario-info block
    (scenario only), in the size of the next chunk (2560076 against
    3048816), and in seven further chunks that only the scenario layout
    reads. *)
Theorem LoadFromStream_layouts (isScenario allow : bool)
    (st st' : LoadState Stream Payload) (objects : Payload) :
  LoadFromStream isScenario allow st = (st', Returned objects) ->
  exists n shared,
    events st' = events st
                 ++ (if isScenario then scenario_events n else savedgame_events n)
    /\ shared = [(s6_objects, sizeof_objects); (s6_elapsed_months, 16);
                 (s6_tile_elements, sizeof_tile_elements)]
    /\ chunk_reads (scenario_events n)
       = [(s6_header, sizeof_header); (s6_info, sizeof_info)] ++ shared
         ++ [(s6_next_free_tile_element_pointer_index, 2560076)]
         ++ [(s6_guests_in_park, 4); (s6_last_guests_in_park, 8); (s6_park_rating, 2);
             (s6_active_research_types, 1082); (s6_current_expenditure, 16);
             (s6_park_value, 4); (s6_completed_company_value, 483816)]
    /\ chunk_reads (savedgame_events n)
       = [(s6_header, sizeof_header)] ++ shared
         ++ [(s6_next_free_tile_element_pointer_index, 3048816)].
Proof.
  unfold LoadFromStream. unfold bind at 1.
  destruct (isScenario && negb allow) eqn:Hgate.
  - unfold bind at 1. unfold validate_checksum.
    destruct (ValidateChecksum (stream st)) as [ok stream0]. simpl.
    destruct ok; simpl; [|discriminate].
    intros Hrun. apply LoadFromStream_chunks_events in Hrun as [n Hn].
    exists n. eexists. split; [exact Hn|]. split; [reflexivity|].
    unfold scenario_events, savedgame_events. simpl.
    rewrite !chunk_reads_skip_exports. by split.
  - simpl. intros Hrun. apply LoadFromStream_chunks_events in Hrun as [n Hn].
    exists n. eexists. split; [exact Hn|]. split; [reflexivity|].
    unfold scenario_events, savedgame_events. simpl.
    rewrite !chunk_reads_skip_exports. by split.
Qed.

(** With the checksum statement passed, the call continues on the stream
    [ValidateChecksum] left behind (or on the untouched stream when the
    validation was not run). *)
Lemma LoadFromStream_checksum_passed (isScenario allow : bool) (st : LoadState Stream Payload) :
  isScenario && negb allow && negb (ValidateChecksum (stream st)).1 = false ->
  LoadFromStream isScenario allow st
  = LoadFromStream_chunks isScenario
      {| stream := if isScenario && negb allow
                   then (ValidateChecksum (stream st)).2 else stream st;
         events := events st; s6 := s6 st |}.
Proof.
  intros Hpass. unfold LoadFromStream. unfold bind at 1.
  destruct (isScenario && negb allow) eqn:Hgate.
  - unfold bind at 1. unfold validate_checksum.
    destruct (ValidateChecksum (stream st)) as [ok stream0]. simpl in *.
    destruct ok; [done | discriminate].
  - simpl. by destruct st.
Qed.

(** C5 (as the code has it).  Once the checksum statement is passed and the
    header chunk is read: a header type that is not the one of the selected
    layout makes the call throw [runtime_error] ("Park is not a scenario." /
    "Park is not a saved game."), with the header chunk the only chunk read;
    a matching type with classic flag 0xf makes it throw
    [UnsupportedRCTCFlagException 0xf], after the header chunk and, for a
    scenario, the info chunk, and before any packed object or later chunk.
    The exception is the outcome of the call: nothing is read afterwards. *)
Theorem header_checks_abort (isScenario allow : bool) (st : LoadState Stream Payload)
    (payload : Payload) (stream' : Stream) :
  isScenario && negb allow && negb (ValidateChecksum (stream st)).1 = false ->
  ReadChunk sizeof_header
    (if isScenario && negb allow then (ValidateChecksum (stream st)).2 else stream st)
  = Some (payload, stream') ->
  (rct_s6_header.type (header_of payload)
   <> (if isScenario then S6_TYPE_SCENARIO else S6_TYPE_SAVEDGAME) ->
   exists st',
     LoadFromStream isScenario allow st
     = (st', Thrown (runtime_error (if isScenario then "Park is not a scenario."
                                    else "Park is not a saved game.")))
     /\ events st' = events st ++ [EvReadChunk s6_header sizeof_header])
  /\ (rct_s6_header.type (header_of payload)
      = (if isScenario then S6_TYPE_SCENARIO else S6_TYPE_SAVEDGAME) ->
      rct_s6_header.classic_flag (header_of payload) = 0xf ->
      (isScenario = true -> is_Some (ReadChunk sizeof_info stream')) ->
      exists st',
        LoadFromStream isScenario allow st
        = (st', Thrown (UnsupportedRCTCFlagException 0xf))
        /\ events st' = events st
                        ++ EvReadChunk s6_header sizeof_header
                           :: (if isScenario then [EvReadChunk s6_info sizeof_info] else [])).
Proof.
  intros Hpass Hhdr. rewrite (LoadFromStream_checksum_passed _ _ _ Hpass).
  unfold LoadFromStream_chunks. split.
  - intros Htype. apply Z.eqb_neq in Htype.
    unfold bind at 1. unfold read_chunk at 1.
    cbn [stream events s6]. rewrite Hhdr. unfold bind at 1.
    destruct isScenario; rewrite Htype; simpl; eexists; (split; [reflexivity|done]).
  - intros Htype Hflag Hinfo.
    unfold bind at 1. unfold read_chunk at 1.
    cbn [stream events s6]. rewrite Hhdr. unfold bind at 1.
    destruct isScenario; rewrite Htype, Z.eqb_refl; simpl.
    + destruct (Hinfo eq_refl) as [[p3 s3] Hread].
      unfold bind at 1. unfold read_chunk at 1. cbn [stream events s6].
      rewrite Hread. unfold ret at 1.
      rewrite Hflag. simpl. eexists. split; [reflexivity|]. simpl.
      by rewrite <- app_assoc.
    + rewrite Hflag. simpl. eexists. split; [reflexivity|done].
Qed.

End LoadTheorems.

(** A scenario file whose checksum fails, loaded with enforcement on: the
    call throws before the first chunk. *)
Lemma checksum_enforced_on_scenario_path_only_witness :
  (@LoadScenario rct2_constants _ _ _ false
     (sample_file false (rct_s6_header.mk 1 0 0))).2
  = Thrown (IOException "Invalid checksum.").
Proof.
  destruct (@checksum_enforced_on_scenario_path_only rct2_constants _ _ _ false
              (sample_file false (rct_s6_header.mk 1 0 0))) as [H _].
  destruct (H eq_refl eq_refl) as (st' & Hrun & _).
  rewrite Hrun. reflexivity.
Defined.

(** The same failing checksum on the saved-game path, still with
    enforcement on: the load completes. *)
Lemma savedgame_checksum_not_enforced :
  (ValidateChecksum (stream (sample_file false (rct_s6_header.mk 0 0 0)))).1 = false
  /\ (@LoadSavedGame rct2_constants _ _ _ false
        (sample_file false (rct_s6_header.mk 0 0 0))).2
     = Returned (rct_s6_header.mk 0 0 0).
Proof. split; vm_compute; reflexivity. Qed.

Lemma LoadFromStream_layouts_witness :
  exists n,
    events (@LoadFromStream rct2_constants _ _ _ true false
              (sample_file true (rct_s6_header.mk 1 0 2))).1
    = @scenario_events rct2_constants n.
Proof.
  destruct (@LoadFromStream rct2_constants _ _ _ true false
              (sample_file true (rct_s6_header.mk 1 0 2))) as [st' [objects|e]] eqn:Hrun.
  - destruct (@LoadFromStream_layouts rct2_constants _ _ _ true false _ _ _ Hrun)
      as (n & shared & Hev & _).
    exists n. exact Hev.
  - vm_compute in Hrun. discriminate.
Defined.

(** Both sample loads complete; the scenario load makes 13 chunk reads and
    the saved-game load 5, so the two layouts are not "the same reads up to
    the info block and two sizes". *)
Lemma layouts_differ_in_more_than_two_sizes :
  let scenario := @LoadFromStream rct2_constants _ _ _ true false
                    (sample_file true (rct_s6_header.mk 1 0 0)) in
  let saved := @LoadFromStream rct2_constants _ _ _ false false
                 (sample_file true (rct_s6_header.mk 0 0 0)) in
  scenario.2 = Returned (rct_s6_header.mk 1 0 0)
  /\ saved.2 = Returned (rct_s6_header.mk 0 0 0)
  /\ length (chunk_reads (events scenario.1)) = 13%nat
  /\ length (chunk_reads (events saved.1)) = 5%nat
  /\ ~ differ_in_info_and_two_sizes (chunk_reads (events scenario.1))
                                    (chunk_reads (events saved.1)).
Proof.
  cbv zeta. repeat split; try (vm_compute; reflexivity).
  intros [Hmembers _]. vm_compute in Hmembers. discriminate.
Qed.

(** A saved game whose classic flag is 0xf. *)
Lemma header_checks_abort_witness :
  (@LoadFromStream rct2_constants _ _ _ false false
     (sample_file true (rct_s6_header.mk 0 0xf 0))).2
  = Thrown (UnsupportedRCTCFlagException 0xf).
Proof.
  destruct (@header_checks_abort rct2_constants sample_stream rct_s6_header.t
              sample_stream_ops false false
              (sample_file true (rct_s6_header.mk 0 0xf 0))
              (rct_s6_header.mk 0 0xf 0)
              {| checksum_ok := true; chunks := replicate 12 (rct_s6_header.mk 0 0xf 0) |})
    as [_ H].
  - reflexivity.
  - reflexivity.
  - destruct H as (st' & Hrun & _).
    + reflexivity.
    + reflexivity.
    + intros Hs. discriminate.
    + rewrite Hrun. reflexivity.
Defined.

(** A file with the saved-game type tag and classic flag 0xf, loaded as a
    scenario: the outcome is the [runtime_error], not the
    unsupported-flag exception. *)
Lemma type_mismatch_throws_runtime_error :
  (@LoadFromStream rct2_constants _ _ _ true true
     (sample_file true (rct_s6_header.mk 0 0xf 0))).2
  = Thrown (runtime_error "Park is not a scenario.")
  /\ forall flag,
       (@LoadFromStream rct2_constants _ _ _ true true
          (sample_file true (rct_s6_header.mk 0 0xf 0))).2
       <> Thrown (UnsupportedRCTCFlagException flag).
Proof.
  split; [vm_compute; reflexivity|].
  intros flag H. vm_compute in H. discriminate.
Qed.

(** ** C1 and C2: tile elements *)

Section TileTheorems.
Context {A : RCT12Accessors}.

Lemma ImportTileElement_decoded (dst : TileSlot) (src : RCT12TileElement.t) :
  supported_type (GetType src) ->
  exists e, ImportTileElement dst src = Some e /\ decoded_from src e.
Proof.
  unfold supported_type, ImportTileElement, decoded_from. intros Hsup.
  destruct (GetType src) eqn:Htag;
    try (exfalso; repeat (apply elem_of_cons in Hsup as [Hsup|Hsup]; [discriminate|]);
         by apply elem_of_nil in Hsup);
    cbv zeta; (eexists; split; [reflexivity|]); split_and!;
    try reflexivity;
    try (destruct (rct12_is SmallScenery_NeedsSupports src); reflexivity);
    try (intros f Hf; destruct f; simpl in Hf; try discriminate Hf; try congruence;
         try reflexivity;
         destruct (rct12_is SmallScenery_NeedsSupports src); reflexivity).
Qed.

End TileTheorems.

(** C1.  For a raw record whose tag is one of the eight supported
    variants (whatever its base height, so in particular when it is not
    0xFF) [ImportTileElement] returns an element with the source's type,
    direction, flags, base height and clearance height, in which every field
    of the selected variant holds the value of the corresponding getter of
    the raw record.  Nothing comes from another variant: the fields of the
    other variants stay cleared, and replacing the getters of the other
    variants by anything else gives an element that reads the same. *)
Theorem ImportTileElement_decodes_selected_variant {A : RCT12Accessors}
    (dst : TileSlot) (src : RCT12TileElement.t) :
  supported_type (GetType src) ->
  exists e,
    ImportTileElement dst src = Some e
    /\ decoded_from src e
    /\ forall (A' : RCT12Accessors) (dst' : TileSlot),
         agree_on_selected_variant A A' src ->
         exists e', @ImportTileElement A' dst' src = Some e' /\ same_element e e'.
Proof.
  intros Hsup. destruct (@ImportTileElement_decoded A dst src Hsup) as (e & He & Hdec).
  exists e. split; [done|]. split; [done|].
  intros A' dst' (Ht & Hd & Hf & Hb).
  assert (Hsup' : supported_type (@GetType A' src)) by (by rewrite Ht).
  destruct (@ImportTileElement_decoded A' dst' src Hsup') as (e' & He' & Hdec').
  exists e'. split; [done|].
  destruct Hdec as (D1 & D2 & D3 & D4 & D5 & D6 & D7 & D8 & D9).
  destruct Hdec' as (E1 & E2 & E3 & E4 & E5 & E6 & E7 & E8 & E9).
  unfold same_element. split_and!; try congruence.
  - intros f. destruct (decide (field_variant f = @GetType A src)) as [Heq|Hne].
    + rewrite (D6 f Heq), (E6 f ltac:(congruence)). symmetry. by apply Hf.
    + by rewrite (D8 f Hne), (E8 f ltac:(congruence)).
  - intros b. destruct (decide (flag_variant b = @GetType A src)) as [Heq|Hne].
    + rewrite (D7 b Heq), (E7 b ltac:(congruence)). symmetry. by apply Hb.
    + by rewrite (D9 b Hne), (E9 b ltac:(congruence)).
Qed.

Section TileArrayTheorems.
Context {C : FormatConstants} {A : RCT12Accessors}.

Lemma ImportTileElements_slot_copy (dst : TileSlot) (src : RCT12TileElement.t) :
  passed_through src -> ImportTileElements_slot dst src = Some (RawCopy src).
Proof.
  unfold passed_through, ImportTileElements_slot. intros [Hh|Ht].
  - by rewrite Hh.
  - destruct (_ =? _); [done|].
    repeat (apply elem_of_cons in Ht as [->|Ht]; [by rewrite ?orb_true_r|]).
    by apply elem_of_nil in Ht.
Qed.

Lemma ImportTileElements_slot_decode (dst : TileSlot) (src : RCT12TileElement.t) :
  ~ passed_through src ->
  ImportTileElements_slot dst src = Imported <$> ImportTileElement dst src.
Proof.
  unfold passed_through, ImportTileElements_slot. intros Hnot.
  destruct (Z.eqb_spec (RCT12TileElement.base_height src) 255) as [Hh|_];
    [by destruct Hnot; left|].
  rewrite !bool_decide_eq_false_2; [done|..];
    intros Heq; apply Hnot; right; rewrite Heq; set_solver.
Qed.

Lemma passed_through_dec (src : RCT12TileElement.t) :
  passed_through src \/ ~ passed_through src.
Proof. unfold passed_through. destruct (decide (RCT12TileElement.base_height src = 255));
  destruct (decide (GetType src ∈ [Corrupt; EightCarsCorrupt14; EightCarsCorrupt15]));
  tauto. Qed.

(** The array loop from index [start] on, [n] iterations. *)
Lemma ImportTileElements_range (tile_elements : list RCT12TileElement.t) n start
    (g : list TileSlot) :
  (start + n <= length g)%nat ->
  (start + n <= length tile_elements)%nat ->
  (forall i src, (start <= i < start + n)%nat -> tile_elements !! i = Some src ->
                 ~ passed_through src -> supported_type (GetType src)) ->
  exists g',
    for_range start n
      (fun index state =>
         gTileElements ← state;
         match tile_elements !! index, gTileElements !! index with
         | Some src, Some dst =>
             slot ← ImportTileElements_slot dst src;
             Some (<[index := slot]> gTileElements)
         | _, _ => Some gTileElements
         end) (Some g) = Some g'
    /\ length g' = length g
    /\ (forall j, ~ (start <= j < start + n)%nat -> g' !! j = g !! j)
    /\ (forall j src old, (start <= j < start + n)%nat ->
          tile_elements !! j = Some src -> g !! j = Some old ->
          exists slot, ImportTileElements_slot old src = Some slot
                       /\ g' !! j = Some slot).
Proof.
  revert start g. induction n as [|n IH]; intros start g Hg Ht Hvalid.
  - exists g. simpl. split_and!; [done..|]. intros; lia.
  - simpl.
    destruct (lookup_lt_is_Some_2 tile_elements start ltac:(lia)) as [src Hsrc].
    destruct (lookup_lt_is_Some_2 g start ltac:(lia)) as [old Hold].
    rewrite Hsrc, Hold.
    assert (Hslot : exists slot, ImportTileElements_slot old src = Some slot).
    { destruct (passed_through_dec src) as [Hp|Hn].
      - eexists. by apply ImportTileElements_slot_copy.
      - rewrite ImportTileElements_slot_decode by done.
        destruct (ImportTileElement_decoded old src) as (e & -> & _); [|by eexists].
        apply (Hvalid start); [lia|done..]. }
    destruct Hslot as [slot Hslot]. rewrite Hslot. simpl.
    destruct (IH (S start) (<[start := slot]> g)) as (g' & Hrun & Hlen & Hout & Hin).
    { rewrite length_insert. lia. }
    { lia. }
    { intros i s Hi. apply Hvalid. lia. }
    exists g'. split; [exact Hrun|]. rewrite length_insert in Hlen.
    split; [exact Hlen|]. split.
    + intros j Hj. rewrite Hout by lia. apply list_lookup_insert_ne. lia.
    + intros j s o Hj Hs Ho. destruct (decide (j = start)) as [->|Hne].
      * simplify_eq. exists slot. split; [done|].
        rewrite Hout by lia. apply list_lookup_insert_eq. lia.
      * apply (Hin j s o); [lia|done|].
        rewrite list_lookup_insert_ne by done. done.
Qed.

(** C2.  On a raw array of exactly [RCT2_MAX_TILE_ELEMENTS] records in
    which every record that is neither padding (base height 0xFF) nor
    tagged corrupt carries one of the eight supported tags, the loop
    completes and writes each of the [RCT2_MAX_TILE_ELEMENTS] slots once:
    a padding or corrupt-tagged record is stored as the verbatim copy of
    the raw record, never decoded; every other record is stored as the
    element [ImportTileElement] decodes from it.  Slots past the format's
    capacity are left alone. *)
Theorem ImportTileElements_copies_or_decodes
    (tile_elements : list RCT12TileElement.t) (gTileElements : list TileSlot) :
  length tile_elements = RCT2_MAX_TILE_ELEMENTS ->
  (RCT2_MAX_TILE_ELEMENTS <= length gTileElements)%nat ->
  (forall src, src ∈ tile_elements -> ~ passed_through src ->
               supported_type (GetType src)) ->
  exists g',
    ImportTileElements tile_elements gTileElements = Some g'
    /\ length g' = length gTileElements
    /\ length (take RCT2_MAX_TILE_ELEMENTS g') = RCT2_MAX_TILE_ELEMENTS
    /\ (forall index src, tile_elements !! index = Some src ->
          (passed_through src -> g' !! index = Some (RawCopy src))
          /\ (~ passed_through src ->
              exists old e,
                gTileElements !! index = Some old
                /\ ImportTileElement old src = Some e
                /\ decoded_from src e
                /\ g' !! index = Some (Imported e)))
    /\ (forall index, (RCT2_MAX_TILE_ELEMENTS <= index)%nat ->
          g' !! index = gTileElements !! index).
Proof.
  intros Hlen Hcap Hvalid. unfold ImportTileElements.
  destruct (ImportTileElements_range tile_elements RCT2_MAX_TILE_ELEMENTS 0 gTileElements)
    as (g' & Hrun & Hlen' & Hout & Hin).
  { simpl. lia. }
  { simpl. lia. }
  { intros i src _ Hsrc. apply Hvalid. by eapply list_elem_of_lookup_2. }
  exists g'. split; [exact Hrun|]. split; [exact Hlen'|].
  split; [rewrite length_take; lia|]. split.
  - intros index src Hsrc.
    assert (Hidx : (index < RCT2_MAX_TILE_ELEMENTS)%nat).
    { rewrite <- Hlen. by eapply lookup_lt_Some. }
    destruct (lookup_lt_is_Some_2 gTileElements index ltac:(lia)) as [old Hold].
    destruct (Hin index src old ltac:(lia) Hsrc Hold) as (slot & Hslot & Hg').
    split.
    + intros Hp. rewrite ImportTileElements_slot_copy in Hslot by done. by simplify_eq.
    + intros Hn. rewrite ImportTileElements_slot_decode in Hslot by done.
      destruct (ImportTileElement_decoded old src) as (e & He & Hdec).
      { apply Hvalid; [by eapply list_elem_of_lookup_2|done]. }
      rewrite He in Hslot. simpl in Hslot. simplify_eq.
      by exists old, e.
  - intros index Hidx. apply Hout. lia.
Qed.

End TileArrayTheorems.

(** The sample surface record decodes to a surface element facing 1 with
    slope 4 whose track-needs-water flag is set. *)
Lemma ImportTileElement_decodes_selected_variant_witness :
  exists e,
    @ImportTileElement sample_accessors (RawCopy sample_padding) sample_surface = Some e
    /\ TileElement.type e = TILE_ELEMENT_TYPE_SURFACE
    /\ TileElement.direction e = 1
    /\ TileElement.base_height e = 14
    /\ TileElement.fields e Surface_Slope = 4
    /\ TileElement.bits e Surface_HasTrackThatNeedsWater = true
    /\ TileElement.fields e Path_EntryIndex = 0.
Proof.
  destruct (@ImportTileElement_decodes_selected_variant sample_accessors
              (RawCopy sample_padding) sample_surface)
    as (e & He & (D1 & D2 & D3 & D4 & D5 & D6 & D7 & D8 & D9) & _).
  - vm_compute. constructor.
  - exists e. split; [exact He|].
    rewrite D1, D2, D4, (D6 Surface_Slope eq_refl),
      (D7 Surface_HasTrackThatNeedsWater eq_refl), (D8 Path_EntryIndex ltac:(discriminate)).
    repeat split.
Defined.

(** A four-slot array: surface, padding, corrupt-tagged, small scenery. *)
Lemma ImportTileElements_copies_or_decodes_witness :
  exists g',
    @ImportTileElements four_tile_constants sample_accessors
      [sample_surface; sample_padding; sample_corrupt; sample_scenery]
      (replicate 4 (RawCopy sample_padding)) = Some g'
    /\ length g' = 4%nat
    /\ g' !! 1%nat = Some (RawCopy sample_padding)
    /\ g' !! 2%nat = Some (RawCopy sample_corrupt).
Proof.
  destruct (@ImportTileElements_copies_or_decodes four_tile_constants sample_accessors
              [sample_surface; sample_padding; sample_corrupt; sample_scenery]
              (replicate 4 (RawCopy sample_padding)))
    as (g' & Hrun & Hlen & _ & Hslots & _).
  - reflexivity.
  - simpl. lia.
  - intros src Hin Hnot.
    repeat (apply elem_of_cons in Hin as [->|Hin]).
    + vm_compute. constructor.
    + exfalso. apply Hnot. left. reflexivity.
    + exfalso. apply Hnot. right. vm_compute. constructor.
    + vm_compute. repeat constructor.
    + by apply elem_of_nil in Hin.
  - exists g'. split; [exact Hrun|]. split; [exact Hlen|]. split.
    + apply (Hslots 1%nat sample_padding eq_refl). left. reflexivity.
    + apply (Hslots 2%nat sample_corrupt eq_refl). right. vm_compute. constructor.
Defined.

(* ================================================================== *)
(** * Part III: further properties of the translated code              *)
(* ================================================================== *)

Lemma insert_as_alter {A : Type} (l : list A) (i : nat) (v : A) :
  <[i := v]> l = alter (fun _ => v) i l.
Proof.
  revert i. induction l as [|a l IH]; intros [|i]; simpl; try done.
  by rewrite IH.
Qed.

Lemma for_range_invariant {S : Type} (P : S -> Prop) (body : nat -> S -> S) n start s :
  (forall i s', P s' -> P (body i s')) -> P s -> P (for_range start n body s).
Proof.
  intros Hbody. revert start s. induction n as [|n IH]; intros start s Hs; simpl; [done|].
  apply IH. by apply Hbody.
Qed.

(** A loop that appends at most one element per index. *)
Lemma for_range_collect {A : Type} (g : nat -> option A)
    (body : nat -> list A -> list A) n start (acc : list A) :
  (forall i l, body i l = l ++ option_list (g i)) ->
  for_range start n body acc = acc ++ omap g (seq start n).
Proof.
  intros Hbody. revert start acc. induction n as [|n IH]; intros start acc; simpl.
  - by rewrite app_nil_r.
  - rewrite IH, Hbody, <- app_assoc. f_equal. by destruct (g start).
Qed.

Lemma omap_length_le {A B : Type} (g : A -> option B) (l : list A) :
  (length (omap g l) <= length l)%nat.
Proof.
  induction l as [|a l IH]; [done|].
  change (omap g (a :: l))
    with (match g a with Some y => y :: omap g l | None => omap g l end).
  destruct (g a); simpl; lia.
Qed.

(** ** Park entrances *)

Section ParkEntranceTheorems.
Context {C : FormatConstants} {I : ImportConstants}.

(** X1.  The park-entrance loop keeps exactly the slots whose x is not
    [LOCATION_NULL], in slot order and with their four coordinates
    unchanged: no imported entrance has a null x, there are at most
    [RCT12_MAX_PARK_ENTRANCES] of them, and whatever [gParkEntrances] held
    before is gone. *)
Theorem ImportParkEntrances_keeps_defined_slots (xs ys zs ds : list Z)
    (old : list CoordsXYZD.t) :
  length xs = RCT12_MAX_PARK_ENTRANCES ->
  length ys = RCT12_MAX_PARK_ENTRANCES ->
  length zs = RCT12_MAX_PARK_ENTRANCES ->
  length ds = RCT12_MAX_PARK_ENTRANCES ->
  (forall e, e ∈ ImportParkEntrances xs ys zs ds old <->
     exists i, xs !! i = Some (CoordsXYZD.x e) /\ ys !! i = Some (CoordsXYZD.y e)
               /\ zs !! i = Some (CoordsXYZD.z e)
               /\ ds !! i = Some (CoordsXYZD.direction e)
               /\ CoordsXYZD.x e <> LOCATION_NULL)
  /\ CoordsXYZD.x <$> ImportParkEntrances xs ys zs ds old
     = filter (fun x => x <> LOCATION_NULL) xs
  /\ (length (ImportParkEntrances xs ys zs ds old) <= RCT12_MAX_PARK_ENTRANCES)%nat.
Proof.
  intros Hx Hy Hz Hd.
  set (g := fun i : nat =>
    match xs !! i, ys !! i, zs !! i, ds !! i with
    | Some x, Some y, Some z, Some d =>
        if negb (x =? LOCATION_NULL) then Some (CoordsXYZD.mk x y z d) else None
    | _, _, _, _ => None
    end).
  assert (Hrun : ImportParkEntrances xs ys zs ds old
                 = omap g (seq 0 RCT12_MAX_PARK_ENTRANCES)).
  { unfold ImportParkEntrances. rewrite for_range_collect with (g := g); [done|].
    intros i l. unfold g.
    destruct (xs !! i), (ys !! i), (zs !! i), (ds !! i); simpl; rewrite ?app_nil_r; try done.
    destruct (negb _); simpl; by rewrite ?app_nil_r. }
  rewrite Hrun. split; [|split].
  - intros e. rewrite list_elem_of_omap. split.
    + intros (i & _ & Hg). unfold g in Hg. exists i.
      destruct (xs !! i) as [x|], (ys !! i) as [y|], (zs !! i) as [z|], (ds !! i) as [d|];
        try discriminate.
      destruct (Z.eqb_spec x LOCATION_NULL); [discriminate|].
      simpl in Hg. injection Hg as <-. by simpl.
    + intros (i & Hxi & Hyi & Hzi & Hdi & Hne). exists i. split.
      * apply elem_of_seq. apply lookup_lt_Some in Hxi. lia.
      * unfold g. rewrite Hxi, Hyi, Hzi, Hdi.
        apply Z.eqb_neq in Hne. rewrite Hne. simpl. by destruct e.
  - clear Hrun. rewrite <- Hx in Hy, Hz, Hd |- *. clear Hx.
    assert (Hgen : forall start,
      CoordsXYZD.x <$> omap g (seq start (length (drop start xs)))
      = filter (fun x => x <> LOCATION_NULL) (drop start xs)).
    { intros start. remember (length (drop start xs)) as n eqn:Hn.
      revert start Hn. induction n as [|n IH]; intros start Hn.
      - symmetry in Hn. apply nil_length_inv in Hn. by rewrite Hn.
      - destruct (xs !! start) as [x|] eqn:Hxs.
        2:{ apply lookup_ge_None in Hxs. rewrite drop_ge in Hn by lia. discriminate. }
        rewrite (drop_S _ _ _ Hxs) in Hn |- *. simpl in Hn.
        simpl. unfold g at 1. rewrite Hxs.
        assert (Hlt : (start < length xs)%nat) by by eapply lookup_lt_Some.
        destruct (lookup_lt_is_Some_2 ys start ltac:(lia)) as [y ->].
        destruct (lookup_lt_is_Some_2 zs start ltac:(lia)) as [z ->].
        destruct (lookup_lt_is_Some_2 ds start ltac:(lia)) as [d ->].
        destruct (Z.eqb_spec x LOCATION_NULL) as [Heq|Hne]; simpl.
        + rewrite filter_cons_False by (intros H; by apply H).
          apply IH. lia.
        + rewrite filter_cons_True by done. simpl. f_equal. apply IH. lia. }
    specialize (Hgen 0%nat). by rewrite drop_0 in Hgen.
  - etransitivity; [apply omap_length_le|]. by rewrite length_seq.
Qed.

End ParkEntranceTheorems.

Lemma ImportParkEntrances_keeps_defined_slots_witness :
  CoordsXYZD.x <$> @ImportParkEntrances sample_import_constants
    [0x8000; 640; 0x8000; 32] [0; 704; 0; 64] [0; 14; 0; 16] [0; 1; 0; 3]
    [CoordsXYZD.mk 1 1 1 1]
  = [640; 32].
Proof.
  pose proof (@ImportParkEntrances_keeps_defined_slots sample_import_constants
    [0x8000; 640; 0x8000; 32] [0; 704; 0; 64] [0; 14; 0; 16] [0; 1; 0; 3]
    [CoordsXYZD.mk 1 1 1 1] eq_refl eq_refl eq_refl eq_refl) as (_ & Hxs & _).
  rewrite Hxs. reflexivity.
Defined.

(** ** News items *)

Section NewsItemTheorems.
Context {I : ImportConstants}.

Lemma ImportNewsItems_from_spec (news_items : list NewsItem.t) n i k
    (g : list NewsItem.t) :
  (i <= k <= i + n)%nat ->
  (k <= length news_items)%nat ->
  (forall j src, (i <= j < k)%nat -> news_items !! j = Some src ->
                 NewsItem.Type_ src < news_type_properties_size) ->
  ((k < i + n)%nat ->
   exists bad, news_items !! k = Some bad
               /\ ~ NewsItem.Type_ bad < news_type_properties_size) ->
  forall j,
    ImportNewsItems_from i n news_items g !! j
    = if decide (i <= j < k)%nat then news_items !! j ≫= (fun src => (fun _ => src) <$> g !! j)
      else if decide (j = k /\ k < i + n)%nat
           then (fun dst => NewsItem.mk NEWS_ITEM_NULL (NewsItem.Flags dst)
                              (NewsItem.Assoc dst) (NewsItem.Ticks dst)
                              (NewsItem.MonthYear dst) (NewsItem.Day dst)
                              (NewsItem.Text dst)) <$> g !! j
           else g !! j.
Proof.
  revert i g. induction n as [|n IH]; intros i g Hik Hlen Hvalid Hbad j.
  - simpl. repeat case_decide; try lia. done.
  - simpl. destruct (decide (i = k)) as [->|Hne].
    + destruct Hbad as (bad & Hb & Hinv); [lia|]. rewrite Hb.
      destruct (Z.ltb_spec (NewsItem.Type_ bad) news_type_properties_size); [done|].
      destruct (decide (j = k)) as [->|Hjk].
      * rewrite list_lookup_alter_eq. repeat case_decide; try lia. done.
      * rewrite list_lookup_alter_ne by done. repeat case_decide; try lia. done.
    + destruct (lookup_lt_is_Some_2 news_items i ltac:(lia)) as [src Hsrc].
      rewrite Hsrc.
      destruct (Z.ltb_spec (NewsItem.Type_ src) news_type_properties_size) as [_|Hge].
      2:{ specialize (Hvalid i src ltac:(lia) Hsrc). lia. }
      rewrite IH; [|lia|done|intros; apply (Hvalid j0); [lia|done]|intros; apply Hbad; lia].
      destruct (decide (j = i)) as [->|Hji].
      * rewrite list_lookup_alter_eq. repeat case_decide; try lia.
        rewrite Hsrc. simpl. destruct src. by destruct (g !! i).
      * rewrite list_lookup_alter_ne by done. repeat case_decide; try lia; done.
Qed.

Lemma ImportNewsItems_from_length (news_items : list NewsItem.t) n i
    (g : list NewsItem.t) :
  length (ImportNewsItems_from i n news_items g) = length g.
Proof.
  revert i g. induction n as [|n IH]; intros i g; simpl; [done|].
  destruct (news_items !! i) as [src|]; [|done].
  destruct (_ <? _); [by rewrite IH, length_alter | by rewrite length_alter].
Qed.

(** X2.  The news-item loop stops at the first item whose type is out of
    range.  With [k] the index of that item ([k = RCT12_MAX_NEWS_ITEMS] when
    every item is valid): the [k] items before it are copied field for
    field; the destination item at [k] only has its type set to
    [NEWS_ITEM_NULL]; every later destination item is left as it was, so a
    valid item behind an invalid one is never imported. *)
Theorem ImportNewsItems_stops_at_first_invalid (news_items gNewsItems : list NewsItem.t)
    (k : nat) :
  (k <= RCT12_MAX_NEWS_ITEMS)%nat ->
  (RCT12_MAX_NEWS_ITEMS <= length news_items)%nat ->
  (RCT12_MAX_NEWS_ITEMS <= length gNewsItems)%nat ->
  (forall j src, (j < k)%nat -> news_items !! j = Some src ->
                 NewsItem.Type_ src < news_type_properties_size) ->
  ((k < RCT12_MAX_NEWS_ITEMS)%nat ->
   exists bad, news_items !! k = Some bad
               /\ ~ NewsItem.Type_ bad < news_type_properties_size) ->
  length (ImportNewsItems news_items gNewsItems) = length gNewsItems
  /\ (forall j, (j < k)%nat ->
        ImportNewsItems news_items gNewsItems !! j = news_items !! j)
  /\ ((k < RCT12_MAX_NEWS_ITEMS)%nat ->
      exists dst, gNewsItems !! k = Some dst
        /\ ImportNewsItems news_items gNewsItems !! k
           = Some (NewsItem.mk NEWS_ITEM_NULL (NewsItem.Flags dst)
                     (NewsItem.Assoc dst) (NewsItem.Ticks dst)
                     (NewsItem.MonthYear dst) (NewsItem.Day dst) (NewsItem.Text dst)))
  /\ (forall j, (k < j)%nat ->
        ImportNewsItems news_items gNewsItems !! j = gNewsItems !! j).
Proof.
  intros Hk Hn Hg Hvalid Hbad. unfold ImportNewsItems.
  pose proof (ImportNewsItems_from_spec news_items RCT12_MAX_NEWS_ITEMS 0 k gNewsItems
                ltac:(lia) ltac:(lia)
                ltac:(intros j src Hj; apply Hvalid; lia)
                ltac:(intros Hlt; apply Hbad; lia)) as Hspec.
  split; [|split; [|split]].
  - apply ImportNewsItems_from_length.
  - intros j Hj. rewrite Hspec. rewrite decide_True by lia.
    destruct (lookup_lt_is_Some_2 news_items j ltac:(lia)) as [src Hsrc].
    destruct (lookup_lt_is_Some_2 gNewsItems j ltac:(lia)) as [dst Hdst].
    by rewrite Hsrc, Hdst.
  - intros Hlt.
    destruct (lookup_lt_is_Some_2 gNewsItems k ltac:(lia)) as [dst Hdst].
    exists dst. split; [done|]. rewrite Hspec.
    rewrite decide_False by lia. rewrite decide_True by lia. by rewrite Hdst.
  - intros j Hj. rewrite Hspec.
    rewrite decide_False by lia. by rewrite decide_False by lia.
Qed.

End NewsItemTheorems.

(** Four queue slots; the second raw item has type 200 (out of range),
    the third is valid but is not imported. *)
Lemma ImportNewsItems_stops_at_first_invalid_witness :
  @ImportNewsItems sample_import_constants
    [NewsItem.mk 1 0 5 10 3 2 [72]; NewsItem.mk 200 0 0 0 0 0 [];
     NewsItem.mk 2 0 6 11 3 2 [73]; NewsItem.mk 0 0 0 0 0 0 []]
    (replicate 4 (NewsItem.mk 9 9 9 9 9 9 [9])) !! 2%nat
  = Some (NewsItem.mk 9 9 9 9 9 9 [9]).
Proof.
  destruct (@ImportNewsItems_stops_at_first_invalid sample_import_constants
    [NewsItem.mk 1 0 5 10 3 2 [72]; NewsItem.mk 200 0 0 0 0 0 [];
     NewsItem.mk 2 0 6 11 3 2 [73]; NewsItem.mk 0 0 0 0 0 0 []]
    (replicate 4 (NewsItem.mk 9 9 9 9 9 9 [9])) 1%nat) as (_ & _ & _ & Hlater).
  - simpl. lia.
  - simpl. lia.
  - simpl. lia.
  - intros [|j] src Hj Hsrc; [|lia]. injection Hsrc as <-. simpl. lia.
  - intros _. eexists. split; [reflexivity|]. simpl. lia.
  - rewrite (Hlater 2%nat ltac:(lia)). reflexivity.
Defined.

(** ** Sprite lists *)

Lemma Zsum_alter (f : Z -> Z) (l : list Z) (i : nat) (x : Z) :
  l !! i = Some x -> Zsum (alter f i l) = Zsum l - x + f x.
Proof.
  unfold Zsum. revert i.
  induction l as [|a l IH]; intros [|i] Hi; try discriminate.
  - injection Hi as ->. simpl. lia.
  - change (alter f (S i) (a :: l)) with (a :: alter f i l).
    cbn [foldr]. rewrite (IH i Hi). lia.
Qed.

Lemma Zsum_lookup_le (l : list Z) (i : nat) (x : Z) :
  Forall (fun c => 0 <= c) l -> l !! i = Some x -> 0 <= x <= Zsum l.
Proof.
  unfold Zsum. intros Hall. revert i.
  induction Hall as [|a l Ha Hall IH]; intros [|i] Hi; simpl in *; try discriminate.
  - injection Hi as ->.
    assert (0 <= foldr Z.add 0 l) by (clear -Hall; induction Hall; simpl; [done|lia]).
    lia.
  - specialize (IH i Hi). lia.
Qed.

Section SpriteListTheorems.
Context {I : ImportConstants}.

Lemma ImportSpriteLists_loop (sh sc : list Z) n start (h c : list Z) :
  (start + n <= length sh)%nat -> (start + n <= length sc)%nat ->
  (start + n <= length h)%nat -> (start + n <= length c)%nat ->
  forall j,
    (for_range start n
       (fun i '(heads, counts) =>
          match sh !! i, sc !! i with
          | Some head, Some count => (<[i := head]> heads, <[i := count]> counts)
          | _, _ => (heads, counts)
          end) (h, c)).1 !! j
    = (if decide (start <= j < start + n)%nat then sh !! j else h !! j)
    /\ (for_range start n
       (fun i '(heads, counts) =>
          match sh !! i, sc !! i with
          | Some head, Some count => (<[i := head]> heads, <[i := count]> counts)
          | _, _ => (heads, counts)
          end) (h, c)).2 !! j
    = (if decide (start <= j < start + n)%nat then sc !! j else c !! j).
Proof.
  revert start h c. induction n as [|n IH]; intros start h c Hsh Hsc Hh Hc j.
  - simpl. rewrite !decide_False by lia. done.
  - simpl.
    destruct (lookup_lt_is_Some_2 sh start ltac:(lia)) as [head Hhead].
    destruct (lookup_lt_is_Some_2 sc start ltac:(lia)) as [count Hcount].
    rewrite Hhead, Hcount.
    destruct (IH (S start) (<[start := head]> h) (<[start := count]> c)
                ltac:(lia) ltac:(lia)
                ltac:(rewrite length_insert; lia) ltac:(rewrite length_insert; lia) j)
      as [-> ->].
    destruct (decide (j = start)) as [->|Hne].
    + rewrite !list_lookup_insert_eq by lia.
      repeat case_decide; try lia. by rewrite Hhead, Hcount.
    + rewrite !list_lookup_insert_ne by done.
      repeat case_decide; try lia; done.
Qed.

(** X3.  When the raw list counts add up to the raw sprite capacity
    [RCT2_MAX_SPRITES] and the destination capacity [MAX_SPRITES] is not
    smaller (and fits 16 bits), the imported counts add up to [MAX_SPRITES]:
    the heads and all counts are copied, and the whole extra capacity is
    credited to the list of free sprites. *)
Theorem ImportSpriteLists_counts_cover_capacity
    (sprite_lists_head sprite_lists_count gSpriteListHead gSpriteListCount : list Z) :
  length sprite_lists_head = NUM_SPRITE_LISTS ->
  length sprite_lists_count = NUM_SPRITE_LISTS ->
  length gSpriteListHead = NUM_SPRITE_LISTS ->
  length gSpriteListCount = NUM_SPRITE_LISTS ->
  (SPRITE_LIST_NULL < NUM_SPRITE_LISTS)%nat ->
  Forall (fun count => 0 <= count) sprite_lists_count ->
  Zsum sprite_lists_count = RCT2_MAX_SPRITES ->
  RCT2_MAX_SPRITES <= MAX_SPRITES < 65536 ->
  (ImportSpriteLists sprite_lists_head sprite_lists_count
     gSpriteListHead gSpriteListCount).1 = sprite_lists_head
  /\ Zsum (ImportSpriteLists sprite_lists_head sprite_lists_count
             gSpriteListHead gSpriteListCount).2 = MAX_SPRITES
  /\ (forall i, i <> SPRITE_LIST_NULL ->
        (ImportSpriteLists sprite_lists_head sprite_lists_count
           gSpriteListHead gSpriteListCount).2 !! i = sprite_lists_count !! i)
  /\ (ImportSpriteLists sprite_lists_head sprite_lists_count
        gSpriteListHead gSpriteListCount).2 !! SPRITE_LIST_NULL
     = (fun count => count + (MAX_SPRITES - RCT2_MAX_SPRITES))
         <$> sprite_lists_count !! SPRITE_LIST_NULL.
Proof.
  intros Hsh Hsc Hgh Hgc Hnull Hpos Hsum Hcap. unfold ImportSpriteLists.
  pose proof (ImportSpriteLists_loop sprite_lists_head sprite_lists_count
                NUM_SPRITE_LISTS 0 gSpriteListHead gSpriteListCount
                ltac:(lia) ltac:(lia) ltac:(lia) ltac:(lia)) as Hloop.
  destruct (for_range 0 NUM_SPRITE_LISTS _ (gSpriteListHead, gSpriteListCount))
    as [heads counts]. simpl in Hloop |- *.
  assert (Hheads : heads = sprite_lists_head).
  { apply list_eq. intros j. destruct (Hloop j) as [-> _].
    case_decide; [done|].
    rewrite !lookup_ge_None_2 by lia. done. }
  assert (Hcounts : counts = sprite_lists_count).
  { apply list_eq. intros j. destruct (Hloop j) as [_ ->].
    case_decide; [done|].
    rewrite !lookup_ge_None_2 by lia. done. }
  subst heads counts.
  destruct (lookup_lt_is_Some_2 sprite_lists_count SPRITE_LIST_NULL ltac:(lia))
    as [free Hfree].
  pose proof (Zsum_lookup_le _ _ _ Hpos Hfree) as Hfree_le.
  assert (Hwrap : (free + (MAX_SPRITES - RCT2_MAX_SPRITES)) mod 65536
                  = free + (MAX_SPRITES - RCT2_MAX_SPRITES)).
  { apply Z.mod_small. lia. }
  split; [done|]. split; [|split].
  - rewrite (Zsum_alter _ _ _ _ Hfree), Hwrap. lia.
  - intros i Hi. by rewrite list_lookup_alter_ne.
  - rewrite list_lookup_alter_eq, Hfree. simpl. by rewrite Hwrap.
Qed.

End SpriteListTheorems.

(** Six lists holding 10000 sprites, 9000 of them free; after the import
    the free list counts 15384 and the total is 16384. *)
Lemma ImportSpriteLists_counts_cover_capacity_witness :
  Zsum (@ImportSpriteLists sample_import_constants
          [7; 0xFFFF; 12; 0xFFFF; 0xFFFF; 0xFFFF] [9000; 0; 1000; 0; 0; 0]
          (replicate 6 0) (replicate 6 0)).2 = 16384.
Proof.
  destruct (@ImportSpriteLists_counts_cover_capacity sample_import_constants
              [7; 0xFFFF; 12; 0xFFFF; 0xFFFF; 0xFFFF] [9000; 0; 1000; 0; 0; 0]
              (replicate 6 0) (replicate 6 0)) as (_ & Hsum & _).
  - reflexivity.
  - reflexivity.
  - reflexivity.
  - reflexivity.
  - simpl. lia.
  - repeat constructor; lia.
  - reflexivity.
  - simpl. lia.
  - exact Hsum.
Defined.

(** ** Vehicles of a ride *)

Section VehicleTheorems.
Context {C : FormatConstants} {I : ImportConstants}.

(** X4.  The two vehicle loops of [ImportRide] fill every slot of
    [dst->vehicles]: the raw vehicle indices come first, unchanged, and all
    slots past the raw capacity hold [SPRITE_INDEX_NULL]; no slot keeps the
    zero of the value-initialised ride. *)
Theorem ImportRide_vehicles_padded_with_null (vehicles : list Z) :
  length vehicles = RCT2_MAX_VEHICLES_PER_RIDE ->
  (RCT2_MAX_VEHICLES_PER_RIDE <= MAX_VEHICLES_PER_RIDE)%nat ->
  ImportRide_vehicles vehicles
  = vehicles ++ replicate (MAX_VEHICLES_PER_RIDE - RCT2_MAX_VEHICLES_PER_RIDE)
                          SPRITE_INDEX_NULL.
Proof.
  intros Hlen Hle. unfold ImportRide_vehicles. apply list_eq. intros j.
  rewrite for_range_alter_lookup with (f := fun _ _ => SPRITE_INDEX_NULL)
    by (intros; apply insert_as_alter).
  rewrite for_range_alter_lookup with
    (f := fun i old => match vehicles !! i with Some v => v | None => old end).
  2:{ intros i l'. destruct (vehicles !! i); [apply insert_as_alter|].
      by rewrite list_alter_id. }
  destruct (decide (j < RCT2_MAX_VEHICLES_PER_RIDE)%nat) as [Hj|Hj].
  - rewrite decide_False by lia. rewrite decide_True by lia.
    rewrite lookup_replicate_2 by lia. rewrite lookup_app_l by lia.
    destruct (lookup_lt_is_Some_2 vehicles j ltac:(lia)) as [v Hv].
    by rewrite Hv.
  - rewrite lookup_app_r by lia.
    destruct (decide (j < MAX_VEHICLES_PER_RIDE)%nat) as [Hj2|Hj2].
    + rewrite decide_True by lia. rewrite decide_False by lia.
      rewrite !lookup_replicate_2 by lia. done.
    + rewrite decide_False by lia. rewrite decide_False by lia.
      rewrite !lookup_ge_None_2 by (rewrite length_replicate; lia). done.
Qed.

End VehicleTheorems.

Lemma ImportRide_vehicles_padded_with_null_witness :
  @ImportRide_vehicles rct2_constants sample_import_constants [17; 18; 0xFFFF]
  = [17; 18; 0xFFFF; 0xFFFF; 0xFFFF].
Proof.
  rewrite (@ImportRide_vehicles_padded_with_null rct2_constants sample_import_constants
             [17; 18; 0xFFFF] eq_refl ltac:(simpl; lia)).
  reflexivity.
Defined.

(** ** Peep spawns, whatever the filename *)

Section PeepSpawnExtras.
Context {C : FormatConstants}.

Lemma migrate_spawn_Some (src : rct12_peep_spawn.t) (spawn : PeepSpawn.t) :
  migrate_spawn src = Some spawn ->
  PeepSpawn.x spawn <> PEEP_SPAWN_UNDEFINED
  /\ PeepSpawn.z spawn = 16 * rct12_peep_spawn.z src.
Proof.
  unfold migrate_spawn. destruct (decide _) as [|Hne]; [discriminate|].
  intros [= <-]. simpl. split; [done|lia].
Qed.

Lemma ImportPeepSpawns_result (scenario_filename : string)
    (peep_spawns : list rct12_peep_spawn.t) (gPeepSpawns : list PeepSpawn.t) :
  length peep_spawns = RCT12_MAX_PEEP_SPAWNS ->
  (ImportPeepSpawns scenario_filename peep_spawns gPeepSpawns).2
  = omap migrate_spawn (ImportPeepSpawns_quirks scenario_filename peep_spawns).
Proof.
  intros Hlen. unfold ImportPeepSpawns, ImportPeepSpawns_loop. simpl.
  rewrite ImportPeepSpawns_range. simpl.
  rewrite drop_0, <- Hlen, <- (ImportPeepSpawns_quirks_length scenario_filename).
  by rewrite firstn_all.
Qed.

(** X5.  Whatever the scenario filename (registered for a correction or
    not), the imported spawn list holds at most [RCT12_MAX_PEEP_SPAWNS]
    spawns, none of them has the undefined x, and every spawn height is a
    multiple of 16. *)
Theorem ImportPeepSpawns_never_undefined (scenario_filename : string)
    (peep_spawns : list rct12_peep_spawn.t) (gPeepSpawns : list PeepSpawn.t) :
  length peep_spawns = RCT12_MAX_PEEP_SPAWNS ->
  (length (ImportPeepSpawns scenario_filename peep_spawns gPeepSpawns).2
   <= RCT12_MAX_PEEP_SPAWNS)%nat
  /\ Forall (fun spawn => PeepSpawn.x spawn <> PEEP_SPAWN_UNDEFINED
                          /\ PeepSpawn.z spawn mod 16 = 0)
            (ImportPeepSpawns scenario_filename peep_spawns gPeepSpawns).2.
Proof.
  intros Hlen. rewrite ImportPeepSpawns_result by done. split.
  - etransitivity; [apply omap_length_le|].
    by rewrite ImportPeepSpawns_quirks_length, Hlen.
  - apply Forall_forall. intros spawn Hin.
    apply list_elem_of_omap in Hin as (src & _ & Hsrc).
    apply migrate_spawn_Some in Hsrc as [Hx Hz]. split; [done|].
    rewrite Hz, Z.mul_comm. apply Z.mod_mul. lia.
Qed.

(** X6.  The filename corrections overwrite the raw spawn array in place,
    and doing so again changes nothing: a second [ImportPeepSpawns] on the
    array the first one left behind yields the same raw array and the same
    spawn list. *)
Theorem ImportPeepSpawns_twice (scenario_filename : string)
    (peep_spawns : list rct12_peep_spawn.t) (gPeepSpawns : list PeepSpawn.t) :
  ImportPeepSpawns scenario_filename
    (ImportPeepSpawns scenario_filename peep_spawns gPeepSpawns).1
    (ImportPeepSpawns scenario_filename peep_spawns gPeepSpawns).2
  = ImportPeepSpawns scenario_filename peep_spawns gPeepSpawns.
Proof.
  assert (Hq : ImportPeepSpawns_quirks scenario_filename
                 (ImportPeepSpawns_quirks scenario_filename peep_spawns)
               = ImportPeepSpawns_quirks scenario_filename peep_spawns).
  { unfold ImportPeepSpawns_quirks.
    repeat match goal with |- context [if ?b then _ else _] => destruct b end;
      try done; destruct peep_spawns as [|a [|b l]]; reflexivity. }
  unfold ImportPeepSpawns. simpl. rewrite Hq. reflexivity.
Qed.

(** X7.  For the two "Rio Carnival" filenames the park gets exactly one
    spawn, at (2160, 3167, 96) facing 1, whatever the file holds; for the
    two "Great Wall of China" filenames only the first raw spawn can reach
    the park. *)
Theorem ImportPeepSpawns_second_spawn_discarded (scenario_filename : string)
    (first second : rct12_peep_spawn.t) (gPeepSpawns : list PeepSpawn.t) :
  RCT12_MAX_PEEP_SPAWNS = 2%nat ->
  PEEP_SPAWN_UNDEFINED <> 2160 ->
  (scenario_filename = "WW South America - Rio Carnival.SC6"%string
   \/ scenario_filename = "South America - Rio Carnival.SC6"%string ->
   (ImportPeepSpawns scenario_filename [first; second] gPeepSpawns).2
   = [PeepSpawn.mk 2160 3167 96 1])
  /\ (scenario_filename = "Great Wall of China Tourism Enhancement.SC6"%string
      \/ scenario_filename = "Asia - Great Wall of China Tourism Enhancement.SC6"%string ->
      (ImportPeepSpawns scenario_filename [first; second] gPeepSpawns).2
      = option_list (migrate_spawn first)).
Proof.
  intros Hmax Hundef.
  assert (Hdrop : forall y z d,
            migrate_spawn (rct12_peep_spawn.mk PEEP_SPAWN_UNDEFINED y z d) = None).
  { intros. unfold migrate_spawn. simpl. by rewrite decide_True. }
  split; intros Hname; rewrite ImportPeepSpawns_result by (by rewrite Hmax);
    unfold ImportPeepSpawns_quirks.
  - destruct Hname as [-> | ->]; simpl.
    + rewrite Hdrop. unfold migrate_spawn. simpl.
      rewrite decide_False by (intros H; by apply Hundef). reflexivity.
    + rewrite Hdrop. unfold migrate_spawn. simpl.
      rewrite decide_False by (intros H; by apply Hundef). reflexivity.
  - destruct Hname as [-> | ->]; simpl.
    + rewrite Hdrop. by destruct (migrate_spawn first).
    + rewrite Hdrop. by destruct (migrate_spawn first).
Qed.

End PeepSpawnExtras.

(** ** Rides and their stations *)

Lemma for_range_alter_length {A : Type} (body : nat -> list A -> list A)
    (f : nat -> A -> A) n start (l : list A) :
  (forall i l', body i l' = alter (f i) i l') ->
  length (for_range start n body l) = length l.
Proof.
  intros Hbody. revert start l. induction n as [|n IH]; intros start l; simpl; [done|].
  by rewrite IH, Hbody, length_alter.
Qed.

Section RideExtras.
Context {C : FormatConstants}.
Context {RideFields : Type}.

Lemma ImportRides_as_alter (sprites : list rct_sprite.t)
    (rides : list (rct2_ride.t RideFields)) (i : nat) (l : list (Ride.t RideFields)) :
  match rides !! i with
  | Some src =>
      if negb (rct2_ride.type src =? RIDE_TYPE_NULL)
      then alter (fun dst => ImportRide sprites dst src (Z.of_nat i)) i l
      else l
  | None => l
  end
  = alter (fun dst =>
             match rides !! i with
             | Some src =>
                 if negb (rct2_ride.type src =? RIDE_TYPE_NULL)
                 then ImportRide sprites dst src (Z.of_nat i) else dst
             | None => dst
             end) i l.
Proof.
  destruct (rides !! i) as [s|]; [|by rewrite list_alter_id].
  destruct (negb _); [done | by rewrite list_alter_id].
Qed.

(** X8.  [ImportRides] keeps the length of the destination ride list,
    leaves every slot untouched whose raw ride has type [RIDE_TYPE_NULL] or
    whose index is [RCT12_MAX_RIDES_IN_PARK] or more, and gives every ride it
    does write the id of its slot and a type other than [RIDE_TYPE_NULL]:
    if every ride had its slot index as id before, so it has after. *)
Theorem ImportRides_keeps_ids_and_null_slots (sprites : list rct_sprite.t)
    (rides : list (rct2_ride.t RideFields)) (gRideList : list (Ride.t RideFields)) :
  (forall index ride, gRideList !! index = Some ride -> Ride.id ride = Z.of_nat index) ->
  length (ImportRides sprites rides gRideList) = length gRideList
  /\ (forall index,
        (RCT12_MAX_RIDES_IN_PARK <= index)%nat
        \/ rides !! index = None
        \/ (exists src, rides !! index = Some src /\ rct2_ride.type src = RIDE_TYPE_NULL) ->
        ImportRides sprites rides gRideList !! index = gRideList !! index)
  /\ (forall index src ride,
        (index < RCT12_MAX_RIDES_IN_PARK)%nat ->
        rides !! index = Some src -> rct2_ride.type src <> RIDE_TYPE_NULL ->
        ImportRides sprites rides gRideList !! index = Some ride ->
        Ride.type ride = rct2_ride.type src /\ Ride.type ride <> RIDE_TYPE_NULL)
  /\ (forall index ride,
        ImportRides sprites rides gRideList !! index = Some ride ->
        Ride.id ride = Z.of_nat index).
Proof.
  intros Hids.
  assert (Hlookup : forall index,
    ImportRides sprites rides gRideList !! index
    = if decide (0 <= index < 0 + RCT12_MAX_RIDES_IN_PARK)%nat
      then (fun dst =>
              match rides !! index with
              | Some src =>
                  if negb (rct2_ride.type src =? RIDE_TYPE_NULL)
                  then ImportRide sprites dst src (Z.of_nat index) else dst
              | None => dst
              end) <$> gRideList !! index
      else gRideList !! index).
  { intros index. unfold ImportRides.
    apply (for_range_alter_lookup _
             (fun i dst =>
                match rides !! i with
                | Some src =>
                    if negb (rct2_ride.type src =? RIDE_TYPE_NULL)
                    then ImportRide sprites dst src (Z.of_nat i) else dst
                | None => dst
                end)).
    intros i l'. apply ImportRides_as_alter. }
  split; [|split; [|split]].
  - unfold ImportRides. eapply for_range_alter_length.
    intros i l'. apply ImportRides_as_alter.
  - intros index Hcase. rewrite Hlookup. case_decide; [|done].
    destruct Hcase as [?|[Hnone|(src & Hsrc & Hnull)]]; [lia| |].
    + rewrite Hnone. by destruct (gRideList !! index).
    + rewrite Hsrc, Hnull, Z.eqb_refl. simpl. by destruct (gRideList !! index).
  - intros index src ride Hidx Hsrc Htype. rewrite Hlookup, decide_True by lia.
    rewrite Hsrc. apply Z.eqb_neq in Htype as Hb. rewrite Hb. simpl.
    destruct (gRideList !! index); [|discriminate]. intros [= <-]. by simpl.
  - intros index ride. rewrite Hlookup. case_decide as Hin; [|apply Hids].
    destruct (gRideList !! index) as [old|] eqn:Hold; [|discriminate].
    simpl. destruct (rides !! index) as [src|]; [|intros [= <-]; by apply Hids].
    destruct (negb _); intros [= <-]; [done | by apply Hids].
Qed.

(** X9.  For a station index below [RCT12_MAX_STATIONS_PER_RIDE] the
    imported entrance location is cleared when the raw entrance coordinate
    is [RCT_XY8_UNDEFINED] and is otherwise the raw entrance coordinate at
    the station height, facing 0; and whenever both the raw entrance and
    the raw exit are defined, the imported exit location is the same as the
    imported entrance location. *)
Theorem ImportRide_exit_equals_entrance (sprites : list rct_sprite.t)
    (dst : Ride.t RideFields) (src : rct2_ride.t RideFields) (rideIndex : Z)
    (i : nat) (entrance exit : LocationXY8.t) (height : Z) :
  (i < RCT12_MAX_STATIONS_PER_RIDE)%nat ->
  (RCT12_MAX_STATIONS_PER_RIDE <= MAX_STATIONS)%nat ->
  rct2_ride.entrances src !! i = Some entrance ->
  rct2_ride.exits src !! i = Some exit ->
  rct2_ride.station_heights src !! i = Some height ->
  exists st,
    Ride.stations (ImportRide sprites dst src rideIndex) !! i = Some st
    /\ RideStation.Height st = height
    /\ RideStation.Entrance st
       = (if decide (LocationXY8.xy entrance = RCT_XY8_UNDEFINED)
          then LocationCleared
          else LocationAt (TileCoordsXYZD.mk (LocationXY8.x entrance)
                                             (LocationXY8.y entrance) height 0))
    /\ (LocationXY8.xy entrance <> RCT_XY8_UNDEFINED ->
        LocationXY8.xy exit <> RCT_XY8_UNDEFINED ->
        RideStation.Exit st = RideStation.Entrance st).
Proof.
  intros Hi Hle Hentrance Hexit Hheight. unfold ImportRide. cbn [Ride.stations Ride_zero].
  erewrite for_range_alter_lookup; [|intros; unfold ImportRide_extra_station; reflexivity].
  rewrite decide_False by lia.
  erewrite for_range_alter_lookup; [|intros; unfold ImportRide_station; reflexivity].
  rewrite decide_True by lia.
  rewrite lookup_replicate_2 by lia. simpl.
  eexists. split; [reflexivity|]. simpl.
  rewrite (list_lookup_total_correct _ _ _ Hentrance),
    (list_lookup_total_correct _ _ _ Hexit), (list_lookup_total_correct _ _ _ Hheight).
  split; [done|]. split.
  - destruct (Z.eqb_spec (LocationXY8.xy entrance) RCT_XY8_UNDEFINED).
    + by rewrite decide_True.
    + by rewrite decide_False.
  - intros Hen Hex. apply Z.eqb_neq in Hen, Hex. by rewrite Hen, Hex.
Qed.

(** X10.  An imported ride has exactly [MAX_STATIONS] stations, and every
    station from [RCT12_MAX_STATIONS_PER_RIDE] on is an unused one: start
    undefined, no train, entrance and exit cleared, nobody queuing, all
    other fields zero. *)
Theorem ImportRide_extra_stations_unused (sprites : list rct_sprite.t)
    (dst : Ride.t RideFields) (src : rct2_ride.t RideFields) (rideIndex : Z) :
  length (Ride.stations (ImportRide sprites dst src rideIndex)) = MAX_STATIONS
  /\ forall i, (RCT12_MAX_STATIONS_PER_RIDE <= i < MAX_STATIONS)%nat ->
       Ride.stations (ImportRide sprites dst src rideIndex) !! i
       = Some {| RideStation.Start :=
                   LocationXY8.mk (Z.land RCT_XY8_UNDEFINED 255)
                                  (Z.shiftr RCT_XY8_UNDEFINED 8);
                 RideStation.Height := 0;
                 RideStation.Length := 0;
                 RideStation.Depart := 0;
                 RideStation.TrainAtStation := 255;
                 RideStation.Entrance := LocationCleared;
                 RideStation.Exit := LocationCleared;
                 RideStation.LastPeepInQueue := SPRITE_INDEX_NULL;
                 RideStation.SegmentLength := 0;
                 RideStation.SegmentTime := 0;
                 RideStation.QueueTime := 0;
                 RideStation.QueueLength := 0 |}.
Proof.
  unfold ImportRide. cbn [Ride.stations Ride_zero]. split.
  - erewrite for_range_alter_length;
      [|intros; unfold ImportRide_extra_station; reflexivity].
    erewrite for_range_alter_length; [|intros; unfold ImportRide_station; reflexivity].
    apply length_replicate.
  - intros i Hi.
    erewrite for_range_alter_lookup; [|intros; unfold ImportRide_extra_station; reflexivity].
    rewrite decide_True by lia.
    erewrite for_range_alter_lookup; [|intros; unfold ImportRide_station; reflexivity].
    rewrite decide_False by lia.
    rewrite lookup_replicate_2 by lia. reflexivity.
Qed.

End RideExtras.

(** ** Tile elements: when the loop stops *)

Section TileExtras.
Context {C : FormatConstants} {A : RCT12Accessors}.

Lemma supported_type_dec (t : TileElementType) : Decision (supported_type t).
Proof. unfold supported_type. apply _. Qed.

Lemma ImportTileElement_None (dst : TileSlot) (src : RCT12TileElement.t) :
  ImportTileElement dst src = None <-> ~ supported_type (GetType src).
Proof.
  split.
  - intros Hnone Hsup.
    destruct (ImportTileElement_decoded dst src Hsup) as (e & He & _). congruence.
  - intros Hnot. unfold ImportTileElement.
    destruct (GetType src) eqn:Htag; try reflexivity;
      exfalso; apply Hnot; unfold supported_type; set_solver.
Qed.

Lemma ImportTileElements_stopped (tile_elements : list RCT12TileElement.t) n start :
  for_range start n
    (fun index (state : option (list TileSlot)) =>
       gTileElements ← state;
       match tile_elements !! index, gTileElements !! index with
       | Some src, Some dst =>
           slot ← ImportTileElements_slot dst src;
           Some (<[index := slot]> gTileElements)
       | _, _ => Some gTileElements
       end) None = None.
Proof. revert start. induction n as [|n IH]; intros start; simpl; [done|apply IH]. Qed.

Lemma ImportTileElements_range_fails (tile_elements : list RCT12TileElement.t) n start
    (g : list TileSlot) (index : nat) (src : RCT12TileElement.t) :
  (start + n <= length g)%nat ->
  (start <= index < start + n)%nat ->
  tile_elements !! index = Some src ->
  ~ passed_through src -> ~ supported_type (GetType src) ->
  for_range start n
    (fun index (state : option (list TileSlot)) =>
       gTileElements ← state;
       match tile_elements !! index, gTileElements !! index with
       | Some src, Some dst =>
           slot ← ImportTileElements_slot dst src;
           Some (<[index := slot]> gTileElements)
       | _, _ => Some gTileElements
       end) (Some g) = None.
Proof.
  revert start g. induction n as [|n IH]; intros start g Hg Hidx Hsrc Hnp Hns; [lia|].
  simpl. destruct (decide (index = start)) as [->|Hne].
  - rewrite Hsrc.
    destruct (lookup_lt_is_Some_2 g start ltac:(lia)) as [old ->].
    rewrite ImportTileElements_slot_decode by done.
    rewrite (proj2 (ImportTileElement_None old src) Hns). simpl.
    apply ImportTileElements_stopped.
  - match goal with
    | |- for_range _ _ _ ?st = None => destruct st as [g1|] eqn:Hst
    end; [|apply ImportTileElements_stopped].
    apply IH; [|lia|done..].
    destruct (tile_elements !! start), (g !! start); simplify_eq; try lia.
    destruct (ImportTileElements_slot _ _); simplify_eq/=.
    rewrite length_insert. lia.
Qed.

(** X11.  On a raw array of [RCT2_MAX_TILE_ELEMENTS] records,
    [ImportTileElements] is stopped by the decoder's assertion exactly when
    some record is neither padding (base height 0xFF) nor corrupt-tagged
    and carries a tag outside the eight supported ones.  A padding record
    never stops it, whatever its tag. *)
Theorem ImportTileElements_fails_iff
    (tile_elements : list RCT12TileElement.t) (gTileElements : list TileSlot) :
  length tile_elements = RCT2_MAX_TILE_ELEMENTS ->
  (RCT2_MAX_TILE_ELEMENTS <= length gTileElements)%nat ->
  ImportTileElements tile_elements gTileElements = None
  <-> exists src, src ∈ tile_elements
                  /\ ~ passed_through src /\ ~ supported_type (GetType src).
Proof.
  intros Hlen Hcap. split.
  - intros Hnone.
    destruct (decide (Exists (fun src => ~ passed_through src
                                         /\ ~ supported_type (GetType src))
                             tile_elements)) as [Hex|Hall].
    + apply Exists_exists in Hex as (src & Hin & Hbad). by exists src.
    + exfalso. apply not_Exists_Forall in Hall; [|apply _].
      rewrite Forall_forall in Hall.
      destruct (ImportTileElements_range tile_elements RCT2_MAX_TILE_ELEMENTS 0
                  gTileElements) as (g' & Hrun & _).
      { simpl. lia. }
      { simpl. lia. }
      { intros i src _ Hsrc Hnp.
        destruct (supported_type_dec (GetType src)) as [|Hns]; [done|].
        exfalso. apply (Hall src); [by eapply list_elem_of_lookup_2|]. simpl.
        tauto. }
      unfold ImportTileElements in Hnone. congruence.
  - intros (src & Hin & Hnp & Hns).
    apply list_elem_of_lookup in Hin as [index Hsrc].
    unfold ImportTileElements.
    apply lookup_lt_Some in Hsrc as Hlt.
    apply (ImportTileElements_range_fails _ _ _ _ index src); try done; simpl; lia.
Qed.

End TileExtras.

(** ** Research tables: what each scan touches *)

Section ResearchExtras.
Context {C : FormatConstants}.

Lemma research_scan_membership {S : Type} (get : S -> gset Z) (mark : Z -> S -> S)
    (words : list Z) (count : nat) (s : S) (index : Z) :
  (forall i s', get (mark i s') = {[i]} ∪ get s') ->
  get s = ∅ ->
  index ∈ get (for_range 0 count
      (fun i s' =>
         let item := Z.of_nat i in
         let quadIndex := Z.shiftr item 5 in
         let bitIndex := Z.land item 0x1F in
         let invented :=
           negb (Z.land (words !!! Z.to_nat quadIndex) (Z.shiftl 1 bitIndex) =? 0) in
         if invented then mark item s' else s') s)
  <-> 0 <= index < Z.of_nat count
      /\ negb (Z.land (words !!! Z.to_nat (Z.shiftr index 5))
                      (Z.shiftl 1 (Z.land index 31)) =? 0) = true.
Proof.
  intros Hmark Hempty. cbv zeta.
  rewrite (scan_marks get mark
             (fun i => negb (Z.land (words !!! Z.to_nat (Z.shiftr i 5))
                                    (Z.shiftl 1 (Z.land i 31)) =? 0))) by done.
  rewrite Hempty. split.
  - intros [Hin|[Hr Ht]]; [by apply not_elem_of_empty in Hin|]. split; [lia|done].
  - intros [Hr Ht]. right. split; [lia|done].
Qed.

(** X12.  Each research scan writes its own table only, and what it writes
    does not depend on what any table held before: the ride-type scan
    leaves the ride-entry and scenery tables as they were (and likewise for
    the other two scans), and two runs of a scan on the same bit array give
    the same table from any two starting states. *)
Theorem research_scans_are_independent (words : list Z) (r r' : ResearchInvented) :
  (ride_entries_invented (ImportResearchedRideTypes words r) = ride_entries_invented r
   /\ scenery_items_invented (ImportResearchedRideTypes words r)
      = scenery_items_invented r)
  /\ (ride_types_invented (ImportResearchedRideEntries words r) = ride_types_invented r
      /\ scenery_items_invented (ImportResearchedRideEntries words r)
         = scenery_items_invented r)
  /\ (ride_types_invented (ImportResearchedSceneryItems words r) = ride_types_invented r
      /\ ride_entries_invented (ImportResearchedSceneryItems words r)
         = ride_entries_invented r)
  /\ ride_types_invented (ImportResearchedRideTypes words r)
     = ride_types_invented (ImportResearchedRideTypes words r')
  /\ ride_entries_invented (ImportResearchedRideEntries words r)
     = ride_entries_invented (ImportResearchedRideEntries words r')
  /\ scenery_items_invented (ImportResearchedSceneryItems words r)
     = scenery_items_invented (ImportResearchedSceneryItems words r').
Proof.
  split_and!.
  - unfold ImportResearchedRideTypes.
    apply (for_range_invariant (fun s => ride_entries_invented s = ride_entries_invented r));
      [|done].
    intros i s Hs. cbv zeta. by destruct (negb _).
  - unfold ImportResearchedRideTypes.
    apply (for_range_invariant
             (fun s => scenery_items_invented s = scenery_items_invented r)); [|done].
    intros i s Hs. cbv zeta. by destruct (negb _).
  - unfold ImportResearchedRideEntries.
    apply (for_range_invariant (fun s => ride_types_invented s = ride_types_invented r));
      [|done].
    intros i s Hs. cbv zeta. by destruct (negb _).
  - unfold ImportResearchedRideEntries.
    apply (for_range_invariant
             (fun s => scenery_items_invented s = scenery_items_invented r)); [|done].
    intros i s Hs. cbv zeta. by destruct (negb _).
  - unfold ImportResearchedSceneryItems.
    apply (for_range_invariant (fun s => ride_types_invented s = ride_types_invented r));
      [|done].
    intros i s Hs. cbv zeta. by destruct (negb _).
  - unfold ImportResearchedSceneryItems.
    apply (for_range_invariant
             (fun s => ride_entries_invented s = ride_entries_invented r)); [|done].
    intros i s Hs. cbv zeta. by destruct (negb _).
  - apply set_eq. intros index. unfold ImportResearchedRideTypes.
    by rewrite !(research_scan_membership ride_types_invented ride_type_set_invented).
  - apply set_eq. intros index. unfold ImportResearchedRideEntries.
    by rewrite !(research_scan_membership ride_entries_invented ride_entry_set_invented).
  - apply set_eq. intros index. unfold ImportResearchedSceneryItems.
    by rewrite !(research_scan_membership scenery_items_invented scenery_set_invented).
Qed.

(** X13.  The ride-type scan reads no bit at or beyond its item count:
    two bit arrays (long enough for the count) that agree on every bit
    below [RIDE_TYPE_COUNT] give the same ride-type table, and only
    indices below the count are ever in it. *)
Theorem research_scans_ignore_high_bits (words words' : list Z) (r : ResearchInvented) :
  RIDE_TYPE_COUNT <= 32 * Z.of_nat (length words) ->
  RIDE_TYPE_COUNT <= 32 * Z.of_nat (length words') ->
  (forall index, 0 <= index < RIDE_TYPE_COUNT ->
                 bitmap_bit_set words index <-> bitmap_bit_set words' index) ->
  ride_types_invented (ImportResearchedRideTypes words r)
  = ride_types_invented (ImportResearchedRideTypes words' r)
  /\ forall index, index ∈ ride_types_invented (ImportResearchedRideTypes words r) ->
                   0 <= index < RIDE_TYPE_COUNT.
Proof.
  intros Hw Hw' Hagree.
  assert (Hspec : forall w, RIDE_TYPE_COUNT <= 32 * Z.of_nat (length w) ->
            forall index,
              index ∈ ride_types_invented (ImportResearchedRideTypes w r)
              <-> 0 <= index < RIDE_TYPE_COUNT /\ bitmap_bit_set w index).
  { intros w Hcover index. unfold ImportResearchedRideTypes. by apply research_scan. }
  split.
  - apply set_eq. intros index. rewrite !Hspec by done.
    split; intros [Hr Hb]; (split; [done|]); by apply (Hagree index Hr).
  - intros index Hin. by apply Hspec in Hin as [Hr _].
Qed.

End ResearchExtras.

(** ** Loading from a stream: every outcome *)

Section LoadExtras.
Context {C : FormatConstants}.
Context {Stream Payload : Type} {ops : StreamOps Stream Payload}.

Local Abbreviation emits_prefix := (emits_prefix (Stream := Stream) (Payload := Payload)).
Local Abbreviation throws_only := (throws_only (Stream := Stream) (Payload := Payload)).

Lemma emits_prefix_ret {A : Type} (a : A) : emits_prefix (ret a) [].
Proof. intros st st' o [= <- <-]. exists []. by rewrite app_nil_r. Qed.

Lemma emits_prefix_throw {A : Type} (e : Exception) layout :
  emits_prefix (throw (A := A) e) layout.
Proof.
  intros st st' o [= <- <-]. exists []. rewrite app_nil_r. split; [done|].
  apply prefix_nil.
Qed.

Lemma emits_prefix_bind {A B : Type} (m : LoadM A) (k : A -> LoadM B) l1 l2 :
  emits_prefix m l1 -> (forall a, emits_prefix (k a) l2) ->
  emits_prefix (bind m k) (l1 ++ l2).
Proof.
  intros Hm Hk st st' o. unfold bind.
  destruct (m st) as [st1 [a|e]] eqn:Hst.
  - intros Hrun. destruct (Hm _ _ _ Hst) as (evs1 & He1 & Heq). subst evs1.
    destruct (Hk a _ _ _ Hrun) as (evs2 & He2 & Ho).
    exists (l1 ++ evs2). rewrite He2, He1, app_assoc. split; [done|].
    destruct o; [by rewrite Ho | by apply prefix_app].
  - intros [= <- <-]. destruct (Hm _ _ _ Hst) as (evs1 & He1 & Hp).
    exists evs1. split; [done|]. by apply prefix_app_r.
Qed.

Lemma emits_prefix_read_chunk dst len :
  emits_prefix (read_chunk dst len) [EvReadChunk dst len].
Proof.
  intros st st' o. unfold read_chunk.
  destruct (ReadChunk len (stream st)) as [[? ?]|]; intros [= <- <-];
    eexists; (split; [reflexivity|done]).
Qed.

Lemma emits_prefix_export_packed_objects n :
  emits_prefix (repeatM n export_packed_object) (replicate n EvExportPackedObject).
Proof.
  induction n as [|n IH]; simpl.
  - apply emits_prefix_ret.
  - change (EvExportPackedObject :: replicate n EvExportPackedObject)
      with ([EvExportPackedObject] ++ replicate n EvExportPackedObject).
    apply emits_prefix_bind; [|done].
    intros st st' o. unfold export_packed_object.
    destruct (ExportPackedObject (stream st)); intros [= <- <-];
      eexists; (split; [reflexivity|done]).
Qed.

Lemma emits_prefix_eq {A : Type} (m : LoadM A) l l' :
  emits_prefix m l -> l = l' -> emits_prefix m l'.
Proof. by intros ? <-. Qed.

Ltac emits_prefix_steps :=
  repeat first
    [ apply emits_prefix_read_chunk
    | apply emits_prefix_export_packed_objects
    | apply emits_prefix_ret
    | apply emits_prefix_throw
    | eapply emits_prefix_bind
    | match goal with |- emits_prefix (if ?b then _ else _) _ => destruct b end
    | match goal with |- forall _, _ => intro end ].

Lemma LoadFromStream_chunks_prefix (isScenario : bool) st st' o :
  LoadFromStream_chunks isScenario st = (st', o) ->
  exists n evs,
    events st' = events st ++ evs
    /\ evs `prefix_of` (if isScenario then scenario_events n else savedgame_events n)
    /\ (forall a, o = Returned a ->
          evs = if isScenario then scenario_events n else savedgame_events n).
Proof.
  unfold LoadFromStream_chunks. unfold bind at 1.
  destruct (read_chunk s6_header sizeof_header st) as [st1 [header_chunk|e]] eqn:Hhdr.
  - destruct (emits_prefix_read_chunk _ _ _ _ _ Hhdr) as (evs1 & He1 & Heq).
    subst evs1. intros Hrun.
    exists (Z.to_nat (rct_s6_header.num_packed_objects (header_of header_chunk))).
    revert Hrun.
    generalize (Z.to_nat (rct_s6_header.num_packed_objects (header_of header_chunk))).
    intros n Hrun.
    assert (Hem : emits_prefix
      (bind (if isScenario
             then
               if negb (rct_s6_header.type (header_of header_chunk) =? S6_TYPE_SCENARIO)
               then throw (runtime_error "Park is not a scenario.")
               else bind (read_chunk s6_info sizeof_info) (fun _ => ret tt)
             else
               if negb (rct_s6_header.type (header_of header_chunk) =? S6_TYPE_SAVEDGAME)
               then throw (runtime_error "Park is not a saved game.")
               else ret tt) (fun _ =>
       if rct_s6_header.classic_flag (header_of header_chunk) =? 0xf
       then throw (UnsupportedRCTCFlagException
                     (rct_s6_header.classic_flag (header_of header_chunk)))
       else
         bind (repeatM n export_packed_object) (fun _ =>
         if isScenario
         then
           bind (read_chunk s6_objects sizeof_objects) (fun objects =>
           bind (read_chunk s6_elapsed_months 16) (fun _ =>
           bind (read_chunk s6_tile_elements sizeof_tile_elements) (fun _ =>
           bind (read_chunk s6_next_free_tile_element_pointer_index 2560076) (fun _ =>
           bind (read_chunk s6_guests_in_park 4) (fun _ =>
           bind (read_chunk s6_last_guests_in_park 8) (fun _ =>
           bind (read_chunk s6_park_rating 2) (fun _ =>
           bind (read_chunk s6_active_research_types 1082) (fun _ =>
           bind (read_chunk s6_current_expenditure 16) (fun _ =>
           bind (read_chunk s6_park_value 4) (fun _ =>
           bind (read_chunk s6_completed_company_value 483816) (fun _ =>
           ret objects)))))))))))
         else
           bind (read_chunk s6_objects sizeof_objects) (fun objects =>
           bind (read_chunk s6_elapsed_months 16) (fun _ =>
           bind (read_chunk s6_tile_elements sizeof_tile_elements) (fun _ =>
           bind (read_chunk s6_next_free_tile_element_pointer_index 3048816) (fun _ =>
           ret objects)))))))
      (tail (if isScenario then scenario_events n else savedgame_events n))).
    { destruct isScenario; (eapply emits_prefix_eq; [emits_prefix_steps|]); simpl;
        rewrite ?app_nil_r; reflexivity. }
    destruct (Hem _ _ _ Hrun) as (evs2 & He2 & Ho).
    exists ([EvReadChunk s6_header sizeof_header] ++ evs2).
    rewrite He2, He1, <- app_assoc. split; [done|].
    assert (Hshape : (if isScenario then scenario_events n else savedgame_events n)
                     = [EvReadChunk s6_header sizeof_header]
                       ++ tail (if isScenario then scenario_events n
                                else savedgame_events n)).
    { by destruct isScenario. }
    rewrite Hshape. split.
    + apply prefix_app. destruct o; [by rewrite Ho | done].
    + intros a ->. by rewrite Ho.
  - intros [= <- <-]. destruct (emits_prefix_read_chunk _ _ _ _ _ Hhdr) as (evs1 & He1 & Hp).
    exists 0%nat, evs1. split; [done|]. split; [|discriminate].
    destruct isScenario; simpl; (etransitivity; [exact Hp|]);
      by apply (prefix_app_r [_] [_]).
Qed.

(** X14.  Whatever the outcome of [LoadFromStream] (returned or thrown, for
    any behaviour of the chunk reader and the object repository), the calls
    it made on the stream are a prefix of the selected layout: chunks are
    never read out of order, never skipped and never read twice; a call
    that returns has made all of them. *)
Theorem LoadFromStream_reads_a_layout_prefix (isScenario allow : bool)
    (st st' : LoadState Stream Payload) (o : Outcome Payload) :
  LoadFromStream isScenario allow st = (st', o) ->
  exists n evs,
    events st' = events st ++ evs
    /\ evs `prefix_of` (if isScenario then scenario_events n else savedgame_events n)
    /\ (forall a, o = Returned a ->
          evs = if isScenario then scenario_events n else savedgame_events n).
Proof.
  unfold LoadFromStream. unfold bind at 1.
  destruct (isScenario && negb allow) eqn:Hgate.
  - unfold bind at 1. unfold validate_checksum.
    destruct (ValidateChecksum (stream st)) as [ok stream0]. simpl.
    destruct ok; simpl.
    + intros Hrun. apply LoadFromStream_chunks_prefix in Hrun. exact Hrun.
    + intros [= <- <-]. exists 0%nat, []. simpl. rewrite app_nil_r.
      split; [done|]. split; [apply prefix_nil | discriminate].
  - simpl. apply LoadFromStream_chunks_prefix.
Qed.

Lemma throws_only_ret {A : Type} P (a : A) : throws_only P (ret a).
Proof. intros st st' e. discriminate. Qed.

Lemma throws_only_throw {A : Type} (P : Exception -> Prop) e :
  P e -> throws_only P (throw (A := A) e).
Proof. by intros He st st' e' [= _ <-]. Qed.

Lemma throws_only_bind {A B : Type} P (m : LoadM A) (k : A -> LoadM B) :
  throws_only P m -> (forall a, throws_only P (k a)) -> throws_only P (bind m k).
Proof.
  intros Hm Hk st st' e. unfold bind.
  destruct (m st) as [st1 [a|e1]] eqn:Hst.
  - apply Hk.
  - intros [= <- <-]. by eapply Hm.
Qed.

Lemma throws_only_read_chunk P dst len :
  P CollaboratorException -> throws_only P (read_chunk dst len).
Proof.
  intros HP st st' e. unfold read_chunk.
  destruct (ReadChunk len (stream st)) as [[? ?]|]; [discriminate|].
  by intros [= _ <-].
Qed.

Lemma throws_only_export P n :
  P CollaboratorException -> throws_only P (repeatM n export_packed_object).
Proof.
  intros HP. induction n as [|n IH]; simpl; [apply throws_only_ret|].
  apply throws_only_bind; [|done].
  intros st st' e. unfold export_packed_object.
  destruct (ExportPackedObject (stream st)); [discriminate|]. by intros [= _ <-].
Qed.

Ltac throws_steps :=
  repeat first
    [ apply throws_only_ret
    | apply throws_only_read_chunk
    | apply throws_only_export
    | apply throws_only_bind
    | match goal with |- forall _, _ => intro end ].

(** X15.  The exceptions that can leave [LoadFromStream] are: whatever a
    collaborator throws; [IOException "Invalid checksum."], on the scenario
    path with enforcement on only; [runtime_error "Park is not a
    scenario."], on the scenario path only; [runtime_error "Park is not a
    saved game."], on the saved-game path only; and
    [UnsupportedRCTCFlagException], whose flag is then always 0xf. *)
Theorem LoadFromStream_throws_only (isScenario allow : bool)
    (st st' : LoadState Stream Payload) (e : Exception) :
  LoadFromStream isScenario allow st = (st', Thrown e) ->
  LoadFromStream_exception isScenario allow e.
Proof.
  assert (Hchunks : throws_only (LoadFromStream_exception isScenario allow)
                      (LoadFromStream_chunks isScenario)).
  { unfold LoadFromStream_chunks.
    apply throws_only_bind; [apply throws_only_read_chunk; by left|].
    intros header_chunk. apply throws_only_bind.
    - destruct isScenario; destruct (negb _).
      + apply throws_only_throw. right; right; left. done.
      + throws_steps. by left.
      + apply throws_only_throw. right; right; right; left. done.
      + apply throws_only_ret.
    - intros _.
      destruct (Z.eqb_spec (rct_s6_header.classic_flag (header_of header_chunk)) 15)
        as [->|_].
      + apply throws_only_throw. by repeat right.
      + destruct isScenario; throws_steps; by left. }
  unfold LoadFromStream. unfold bind at 1.
  destruct (isScenario && negb allow) eqn:Hgate.
  - apply andb_true_iff in Hgate as [-> Hallow]. apply negb_true_iff in Hallow as ->.
    unfold bind at 1. unfold validate_checksum.
    destruct (ValidateChecksum (stream st)) as [ok stream0]. simpl.
    destruct ok; simpl.
    + apply Hchunks.
    + intros [= _ <-]. right; left. done.
  - simpl. apply Hchunks.
Qed.

Lemma bind_returned {A B : Type} (m : LoadM A) (k : A -> LoadM B)
    (st st' : LoadState Stream Payload) (b : B) :
  bind m k st = (st', Returned b) ->
  exists a st1, m st = (st1, Returned a) /\ k a st1 = (st', Returned b).
Proof.
  unfold bind. destruct (m st) as [st1 [a|e]]; [|discriminate].
  intros Hk. by exists a, st1.
Qed.

Lemma read_chunk_returned dst len (st st1 : LoadState Stream Payload) payload :
  read_chunk dst len st = (st1, Returned payload) ->
  s6 st1 = s6 st ++ [(dst, payload)].
Proof.
  unfold read_chunk. destruct (ReadChunk len (stream st)) as [[p s1]|]; [|discriminate].
  by intros [= <- <-].
Qed.

Lemma export_packed_objects_returned n (st st1 : LoadState Stream Payload) :
  repeatM n export_packed_object st = (st1, Returned tt) -> s6 st1 = s6 st.
Proof.
  revert st. induction n as [|n IH]; intros st; simpl.
  - by intros [= <-].
  - intros Hrun. apply bind_returned in Hrun as ([] & st2 & Hexp & Hrest).
    rewrite (IH _ Hrest). unfold export_packed_object in Hexp.
    destruct (ExportPackedObject (stream st)); [|discriminate].
    by injection Hexp as <-.
Qed.

Ltac read_next H :=
  let p := fresh "payload" in
  let st1 := fresh "st" in
  let Hread := fresh "Hread" in
  apply bind_returned in H as (p & st1 & Hread & H);
  apply read_chunk_returned in Hread.

Lemma LoadFromStream_chunks_returned (isScenario : bool)
    (st st' : LoadState Stream Payload) (objects : Payload) :
  LoadFromStream_chunks isScenario st = (st', Returned objects) ->
  exists header_chunk rest,
    s6 st' = s6 st ++ (s6_header, header_chunk) :: rest
    /\ ((s6_header, header_chunk) :: rest).*1
       = (chunk_reads (if isScenario then scenario_events 0 else savedgame_events 0)).*1
    /\ rct_s6_header.type (header_of header_chunk)
       = (if isScenario then S6_TYPE_SCENARIO else S6_TYPE_SAVEDGAME)
    /\ rct_s6_header.classic_flag (header_of header_chunk) <> 0xf
    /\ (s6_objects, objects) ∈ rest.
Proof.
  unfold LoadFromStream_chunks. intros H.
  apply bind_returned in H as (header_chunk & st1 & Hhdr & H).
  apply read_chunk_returned in Hhdr.
  apply bind_returned in H as ([] & st2 & Htype & H).
  destruct (Z.eqb_spec (rct_s6_header.classic_flag (header_of header_chunk)) 15)
    as [|Hflag]; [discriminate|].
  apply bind_returned in H as ([] & st3 & Hexp & H).
  apply export_packed_objects_returned in Hexp.
  exists header_chunk. destruct isScenario.
  - destruct (Z.eqb_spec (rct_s6_header.type (header_of header_chunk)) S6_TYPE_SCENARIO)
      as [Ht|]; [|discriminate]. simpl in Htype.
    apply bind_returned in Htype as (info & st1' & Hinfo & Hret).
    apply read_chunk_returned in Hinfo. injection Hret as <-.
    do 11 read_next H. injection H as <- <-.
    eexists. split.
    { repeat match goal with Heq : s6 _ = _ |- _ => rewrite Heq; clear Heq end.
      rewrite <- !app_assoc. simpl. reflexivity. }
    split; [reflexivity|]. split; [done|]. split; [done|]. set_solver.
  - destruct (Z.eqb_spec (rct_s6_header.type (header_of header_chunk)) S6_TYPE_SAVEDGAME)
      as [Ht|]; [|discriminate]. simpl in Htype. injection Htype as <-.
    do 4 read_next H. injection H as <- <-.
    eexists. split.
    { repeat match goal with Heq : s6 _ = _ |- _ => rewrite Heq; clear Heq end.
      rewrite <- !app_assoc. simpl. reflexivity. }
    split; [reflexivity|]. split; [done|]. split; [done|]. set_solver.
Qed.

(** X16.  A [LoadFromStream] that returns has stored exactly one payload
    per chunk of the selected layout into [_s6], in layout order, starting
    with a header whose type tag is the one of the layout and whose classic
    flag is not 0xf; the value it returns is the payload stored for the
    object table; and on the scenario path with enforcement on, the
    checksum was valid. *)
Theorem LoadFromStream_returned (isScenario allow : bool)
    (st st' : LoadState Stream Payload) (objects : Payload) :
  LoadFromStream isScenario allow st = (st', Returned objects) ->
  (exists header_chunk rest,
     s6 st' = s6 st ++ (s6_header, header_chunk) :: rest
     /\ ((s6_header, header_chunk) :: rest).*1
        = (chunk_reads (if isScenario then scenario_events 0 else savedgame_events 0)).*1
     /\ rct_s6_header.type (header_of header_chunk)
        = (if isScenario then S6_TYPE_SCENARIO else S6_TYPE_SAVEDGAME)
     /\ rct_s6_header.classic_flag (header_of header_chunk) <> 0xf
     /\ (s6_objects, objects) ∈ rest)
  /\ (isScenario = true -> allow = false -> (ValidateChecksum (stream st)).1 = true).
Proof.
  unfold LoadFromStream. unfold bind at 1.
  destruct (isScenario && negb allow) eqn:Hgate.
  - unfold bind at 1. unfold validate_checksum.
    destruct (ValidateChecksum (stream st)) as [ok stream0]. simpl.
    destruct ok; simpl; [|discriminate].
    intros Hrun. apply LoadFromStream_chunks_returned in Hrun. by split.
  - simpl. intros Hrun. apply LoadFromStream_chunks_returned in Hrun.
    split; [done|]. intros -> ->. discriminate.
Qed.

End LoadExtras.


(* ------------------------------------------------------------------ *)
(** ** The pseudo-random engine of [util/Random.h] *)

Section RandomEngine.
Context {P : ror_xor_ror_engine.params}.
Import ror_xor_ror_engine.

Lemma call_in_range (e : t) :
  0 <= digits -> ror_in_range -> in_range (call e).2.
Proof.
  intros Hd Hr. unfold in_range, call. simpl. split.
  - apply Z.mod_pos_bound. by apply Z.pow_pos_nonneg.
  - apply Hr.
Qed.

Lemma discard_in_range (N : nat) (e : t) :
  0 <= digits -> ror_in_range -> in_range e -> in_range (discard N e).
Proof.
  intros Hd Hr. revert e. induction N as [|n IH]; intros e He; simpl; [done|].
  apply IH. by apply call_in_range.
Qed.



Lemma call_injective (e1 e2 : t) :
  0 <= digits -> ror_in_range ->
  ror_injective shift_a -> ror_injective shift_b ->
  0 <= mask < 2 ^ digits ->
  in_range e1 -> in_range e2 ->
  (call e1).2 = (call e2).2 -> e1 = e2.
Proof.
  intros Hd Hr Ha Hb Hm [H10 H11] [H20 H21] Heq.
  destruct e1 as [a1 b1], e2 as [a2 b2]. simpl in *.
  unfold call in Heq. simpl in Heq. injection Heq as Hs0 Hs1.
  assert (a1 = a2) as -> by (by apply Hb).
  assert (Hpos : 0 < 2 ^ digits) by (by apply Z.pow_pos_nonneg).
  assert (Hrot : ror (Z.lxor b1 mask) shift_a = ror (Z.lxor b2 mask) shift_a).
  { pose proof (Hr (Z.lxor b1 mask) shift_a) as R1.
    pose proof (Hr (Z.lxor b2 mask) shift_a) as R2.
    set (r1 := ror (Z.lxor b1 mask) shift_a) in *.
    set (r2 := ror (Z.lxor b2 mask) shift_a) in *.
    assert (E : (a2 + r1 - (a2 + r2)) mod 2 ^ digits = 0).
    { rewrite Zminus_mod, Hs0, Z.sub_diag. by apply Z.mod_0_l, Z.neq_sym, Z.lt_neq. }
    replace (a2 + r1 - (a2 + r2)) with (r1 - r2) in E by lia.
    apply Z.mod_divide in E; [|lia]. destruct E as [k E].
    assert (k = 0) by nia. lia. }
  assert (Hx : forall b, 0 <= b < 2 ^ digits -> 0 <= Z.lxor b mask < 2 ^ digits).
  { intros b Hbr. split.
    - apply Z.lxor_nonneg. lia.
    - destruct (decide (Z.lxor b mask = 0)) as [->|Hnz]; [lia|].
      assert (0 <= Z.lxor b mask) by (apply Z.lxor_nonneg; lia).
      assert (0 < digits).
      { destruct (decide (digits = 0)) as [Hz|]; [|lia]. exfalso. apply Hnz.
        rewrite Hz in Hbr, Hm. change (2 ^ 0) with 1 in Hbr, Hm.
        replace b with 0 by lia. replace mask with 0 by lia. reflexivity. }
      apply Z.log2_lt_pow2; [lia|].
      eapply Z.le_lt_trans; [by apply Z.log2_lxor; lia|].
      apply Z.max_lub_lt.
      + destruct (decide (b = 0)) as [->|]; [simpl; lia|]. apply Z.log2_lt_pow2; lia.
      + destruct (decide (mask = 0)) as [Hm0|]; [rewrite Hm0; simpl; lia|].
        apply Z.log2_lt_pow2; lia. }
  apply Ha in Hrot; [|by apply Hx..].
  f_equal. apply (f_equal (fun v => Z.lxor v mask)) in Hrot.
  by rewrite !Z.lxor_assoc, !Z.lxor_nilpotent, !Z.lxor_0_r in Hrot.
Qed.

(** X18.  When the rotations by [shift_a] and [shift_b] are injective on
    [result_type], the engine never merges two states: two engines whose
    state words are values of [result_type] and differ still differ after
    discarding the same number of values, however many. *)
Theorem engine_never_merges_states (N : nat) (e1 e2 : t) :
  0 <= digits ->
  ror_in_range ->
  ror_injective shift_a ->
  ror_injective shift_b ->
  0 <= mask < 2 ^ digits ->
  in_range e1 ->
  in_range e2 ->
  e1 <> e2 ->
  discard N e1 <> discard N e2.
Proof.
  intros Hd Hr Ha Hb Hm. revert e1 e2.
  induction N as [|n IH]; intros e1 e2 H1 H2 Hne; [exact Hne|].
  simpl. apply IH; [by apply call_in_range..|].
  intros Heq. apply Hne. by apply call_injective.
Qed.

End RandomEngine.

Lemma sample_ror_in_range :
  @ror_xor_ror_engine.ror_in_range ror_xor_ror_engine.sample_params.
Proof.
  intros x s. simpl. apply Z.mod_pos_bound. lia.
Qed.

Lemma sample_ror_injective (s : Z) :
  s = 7 \/ s = 3 ->
  @ror_xor_ror_engine.ror_injective ror_xor_ror_engine.sample_params s.
Proof.
  intros Hs x y Hx Hy. simpl in Hx, Hy |- *.
  assert (Hrot : forall v, 0 <= v < 2 ^ 32 ->
            (v / 2 ^ s + (v mod 2 ^ s) * 2 ^ (32 - s)) mod 2 ^ 32
            = v / 2 ^ s + (v mod 2 ^ s) * 2 ^ (32 - s)).
  { intros v Hv. apply Z.mod_small.
    destruct Hs as [-> | ->].
    - change (2 ^ 7) with 128. change (2 ^ (32 - 7)) with 33554432.
      pose proof (Z.div_mod v 128 ltac:(lia)).
      pose proof (Z.mod_pos_bound v 128 ltac:(lia)). lia.
    - change (2 ^ 3) with 8. change (2 ^ (32 - 3)) with 536870912.
      pose proof (Z.div_mod v 8 ltac:(lia)).
      pose proof (Z.mod_pos_bound v 8 ltac:(lia)). lia. }
  rewrite !Hrot by done.
  destruct Hs as [-> | ->].
  - change (2 ^ 7) with 128. change (2 ^ (32 - 7)) with 33554432.
    pose proof (Z.div_mod x 128 ltac:(lia)).
    pose proof (Z.mod_pos_bound x 128 ltac:(lia)).
    pose proof (Z.div_mod y 128 ltac:(lia)).
    pose proof (Z.mod_pos_bound y 128 ltac:(lia)). lia.
  - change (2 ^ 3) with 8. change (2 ^ (32 - 3)) with 536870912.
    pose proof (Z.div_mod x 8 ltac:(lia)).
    pose proof (Z.mod_pos_bound x 8 ltac:(lia)).
    pose proof (Z.div_mod y 8 ltac:(lia)).
    pose proof (Z.mod_pos_bound y 8 ltac:(lia)). lia.
Qed.


(** The 32-bit engine seeded with 1 and with 2: the states still differ
    after a hundred values. *)
Lemma engine_never_merges_states_witness :
  @ror_xor_ror_engine.discard ror_xor_ror_engine.sample_params 100
    (ror_xor_ror_engine.seed 1)
  <> @ror_xor_ror_engine.discard ror_xor_ror_engine.sample_params 100
       (ror_xor_ror_engine.seed 2).
Proof.
  apply (@engine_never_merges_states ror_xor_ror_engine.sample_params).
  - simpl. lia.
  - exact sample_ror_in_range.
  - apply sample_ror_injective. by left.
  - apply sample_ror_injective. by right.
  - simpl. lia.
  - unfold ror_xor_ror_engine.in_range. simpl. lia.
  - unfold ror_xor_ror_engine.in_range. simpl. lia.
  - discriminate.
Defined.

(* ------------------------------------------------------------------ *)
(** ** The staff order action of [actions/StaffSetOrderAction.hpp] *)

Section StaffOrderTheorems.
Context {I : ImportConstants} {SC : StaffConstants}.
Import StaffSetOrderAction.

(** X19.  [Query] accepts an action exactly when its sprite index is below
    [MAX_SPRITES] and the sprite is a staff member who is a handyman or a
    mechanic; and executing any order action, on any sprite, never changes
    what [Query] answers (result and warning) for any order action. *)
Theorem StaffSetOrderAction_Query_verdict (a b : t)
    (sprites : Z -> rct_peep.t) (ui : list UiEvent) :
  (GameActionResult.Error (Query b sprites).1 = GA_ERROR_OK
   <-> _spriteIndex b < MAX_SPRITES
       /\ rct_peep.type (sprites (_spriteIndex b)) = PEEP_TYPE_STAFF
       /\ (rct_peep.staff_type (sprites (_spriteIndex b)) = STAFF_TYPE_HANDYMAN
           \/ rct_peep.staff_type (sprites (_spriteIndex b)) = STAFF_TYPE_MECHANIC))
  /\ Query b (Execute a sprites ui).1.1 = Query b sprites.
Proof.
  split.
  - unfold Query.
    destruct (Z.leb_spec MAX_SPRITES (_spriteIndex b)) as [Hge|Hlt]; simpl.
    + split; [discriminate | lia].
    + destruct (Z.eqb_spec (rct_peep.type (sprites (_spriteIndex b))) PEEP_TYPE_STAFF)
        as [Ht|Ht]; simpl.
      * destruct (Z.eqb_spec (rct_peep.staff_type (sprites (_spriteIndex b)))
                             STAFF_TYPE_HANDYMAN) as [Hh|Hh]; simpl.
        { split; [intros _; split; [done|split; [done|by left]] | done]. }
        destruct (Z.eqb_spec (rct_peep.staff_type (sprites (_spriteIndex b)))
                             STAFF_TYPE_MECHANIC) as [Hm|Hm]; simpl.
        { split; [intros _; split; [done|split; [done|by right]] | done]. }
        split; [discriminate|]. intros (_ & _ & [H|H]); contradiction.
      * split; [discriminate|]. intros (_ & H & _); contradiction.
  - unfold Query, Execute. cbn [fst snd].
    destruct (MAX_SPRITES <=? _spriteIndex b); [reflexivity|].
    destruct (decide (_spriteIndex b = _spriteIndex a)) as [->|Hne]; reflexivity.
Qed.

(** X20.  Two order actions executed one after the other: on every sprite
    the last order written wins, no other field of any sprite changes, the
    position reported by the second action is the position its sprite had
    before either ran, the interface is notified twice in the order of
    execution, and when the two actions target different sprites the
    sprite array does not depend on which ran first. *)
Theorem StaffSetOrderAction_Execute_last_order_wins (a1 a2 : t)
    (sprites : Z -> rct_peep.t) (ui : list UiEvent) :
  let run1 := Execute a1 sprites ui in
  let run2 := Execute a2 run1.1.1 run1.1.2 in
  let swap1 := Execute a2 sprites ui in
  let swap2 := Execute a1 swap1.1.1 swap1.1.2 in
  (forall i, rct_peep.staff_orders (run2.1.1 i)
             = if decide (i = _spriteIndex a2) then _orderId a2
               else if decide (i = _spriteIndex a1) then _orderId a1
               else rct_peep.staff_orders (sprites i))
  /\ (forall i, rct_peep.type (run2.1.1 i) = rct_peep.type (sprites i)
                /\ rct_peep.staff_type (run2.1.1 i) = rct_peep.staff_type (sprites i)
                /\ rct_peep.x (run2.1.1 i) = rct_peep.x (sprites i)
                /\ rct_peep.y (run2.1.1 i) = rct_peep.y (sprites i)
                /\ rct_peep.z (run2.1.1 i) = rct_peep.z (sprites i))
  /\ GameActionResult.Position run2.2
     = Some (rct_peep.x (sprites (_spriteIndex a2)),
             rct_peep.y (sprites (_spriteIndex a2)),
             rct_peep.z (sprites (_spriteIndex a2)))
  /\ run2.1.2 = ui ++ [window_invalidate_by_number_WC_PEEP (_spriteIndex a1);
                       context_broadcast_intent_REFRESH_STAFF_LIST;
                       window_invalidate_by_number_WC_PEEP (_spriteIndex a2);
                       context_broadcast_intent_REFRESH_STAFF_LIST]
  /\ (_spriteIndex a1 <> _spriteIndex a2 -> forall i, run2.1.1 i = swap2.1.1 i).
Proof.
  cbv zeta. unfold Execute. cbn [fst snd].
  split; [|split; [|split; [|split]]].
  - intros i. repeat case_decide; reflexivity.
  - intros i. repeat (case_decide; simpl); repeat split; congruence.
  - simpl. repeat (case_decide; simpl); congruence.
  - by rewrite <- app_assoc.
  - intros Hne i. repeat (case_decide; simpl); congruence.
Qed.

End StaffOrderTheorems.

(** Sprite 3 of the sample array is a handyman, so a new order for it is
    accepted, also after another order has been executed. *)
Lemma StaffSetOrderAction_Query_verdict_witness :
  GameActionResult.Error
    (@StaffSetOrderAction.Query sample_import_constants sample_staff_constants
       (StaffSetOrderAction.mk 3 2)
       (@StaffSetOrderAction.Execute (StaffSetOrderAction.mk 3 1) sample_peeps []).1.1).1
  = GA_ERROR_OK.
Proof.
  destruct (@StaffSetOrderAction_Query_verdict sample_import_constants
              sample_staff_constants (StaffSetOrderAction.mk 3 1)
              (StaffSetOrderAction.mk 3 2) sample_peeps []) as [Hok Hsame].
  rewrite Hsame. apply Hok. vm_compute. repeat split; auto; discriminate.
Defined.

(** Orders 1 and then 2 for sprite 3: the sprite ends with order 2, and
    the action reports the handyman's position. *)
Lemma StaffSetOrderAction_Execute_last_order_wins_witness :
  let run1 := StaffSetOrderAction.Execute (StaffSetOrderAction.mk 3 1) sample_peeps [] in
  let run2 := StaffSetOrderAction.Execute (StaffSetOrderAction.mk 3 2) run1.1.1 run1.1.2 in
  rct_peep.staff_orders (run2.1.1 3) = 2
  /\ GameActionResult.Position run2.2 = Some (96, 128, 14).
Proof.
  destruct (StaffSetOrderAction_Execute_last_order_wins
              (StaffSetOrderAction.mk 3 1) (StaffSetOrderAction.mk 3 2) sample_peeps [])
    as (Horders & _ & Hpos & _).
  cbv zeta. split.
  - rewrite Horders. reflexivity.
  - rewrite Hpos. reflexivity.
Defined.

(* ------------------------------------------------------------------ *)
(** ** The further properties on the sample data *)

(** A park file with one defined and one undefined raw spawn. *)
Lemma ImportPeepSpawns_never_undefined_witness :
  Forall (fun spawn => PeepSpawn.x spawn <> 0xFFFF /\ PeepSpawn.z spawn mod 16 = 0)
    (@ImportPeepSpawns rct2_constants "park.SC6"
       [rct12_peep_spawn.mk 64 96 7 1; rct12_peep_spawn.mk 0xFFFF 0 0 0] []).2.
Proof.
  destruct (@ImportPeepSpawns_never_undefined rct2_constants "park.SC6"
              [rct12_peep_spawn.mk 64 96 7 1; rct12_peep_spawn.mk 0xFFFF 0 0 0] [])
    as [_ Hall].
  - reflexivity.
  - exact Hall.
Defined.

(** Rio Carnival with two defined raw spawns: one spawn reaches the park. *)
Lemma ImportPeepSpawns_second_spawn_discarded_witness :
  (@ImportPeepSpawns rct2_constants "South America - Rio Carnival.SC6"
     [rct12_peep_spawn.mk 64 96 7 1; rct12_peep_spawn.mk 128 32 7 3] []).2
  = [PeepSpawn.mk 2160 3167 96 1].
Proof.
  destruct (@ImportPeepSpawns_second_spawn_discarded rct2_constants
              "South America - Rio Carnival.SC6"
              (rct12_peep_spawn.mk 64 96 7 1) (rct12_peep_spawn.mk 128 32 7 3) [])
    as [Hrio _].
  - reflexivity.
  - simpl. lia.
  - apply Hrio. by right.
Defined.

(** One raw ride imported into a one-slot ride list. *)
Lemma ImportRides_keeps_ids_and_null_slots_witness :
  Ride.id <$>
    (@ImportRides rct2_constants unit sample_sprites [sample_ride]
       [@Ride_zero rct2_constants unit] !! 0%nat)
  = Some 0.
Proof.
  destruct (@ImportRides_keeps_ids_and_null_slots rct2_constants unit sample_sprites
              [sample_ride] [@Ride_zero rct2_constants unit])
    as (Hlen & _ & _ & Hid).
  - intros [|index] ride Hride; simpl in Hride.
    + injection Hride as <-. reflexivity.
    + discriminate.
  - destruct (@ImportRides rct2_constants unit sample_sprites [sample_ride]
                [@Ride_zero rct2_constants unit]) as [|ride rest] eqn:Hrun.
    + discriminate.
    + simpl. rewrite (Hid 0%nat ride eq_refl). reflexivity.
Defined.

(** The sample ride: entrance and exit are both defined, and the imported
    exit is the imported entrance. *)
Lemma ImportRide_exit_equals_entrance_witness :
  exists st,
    Ride.stations (@ImportRide rct2_constants unit sample_sprites
                     (@Ride_zero rct2_constants unit) sample_ride 0) !! 0%nat = Some st
    /\ RideStation.Exit st = RideStation.Entrance st.
Proof.
  destruct (@ImportRide_exit_equals_entrance rct2_constants unit sample_sprites
              (@Ride_zero rct2_constants unit) sample_ride 0 0%nat
              (LocationXY8.mk 10 20) (LocationXY8.mk 30 40) 7)
    as (st & Hst & _ & _ & Hsame).
  - simpl. lia.
  - simpl. lia.
  - reflexivity.
  - reflexivity.
  - reflexivity.
  - exists st. split; [exact Hst|]. apply Hsame; vm_compute; discriminate.
Defined.

(** A four-slot array whose last record carries tag 9 at height 8. *)
Lemma ImportTileElements_fails_iff_witness :
  @ImportTileElements four_tile_constants sample_accessors
    [sample_surface; sample_padding; sample_corrupt;
     RCT12TileElement.mk 0x24 0 8 8 [0; 0; 0; 0]]
    (replicate 4 (RawCopy sample_padding)) = None.
Proof.
  apply (@ImportTileElements_fails_iff four_tile_constants sample_accessors).
  - reflexivity.
  - simpl. lia.
  - exists (RCT12TileElement.mk 0x24 0 8 8 [0; 0; 0; 0]). split; [|split].
    + do 3 (apply elem_of_cons; right). apply elem_of_cons. by left.
    + intros [Hh|Ht].
      * vm_compute in Hh. discriminate.
      * vm_compute in Ht.
        repeat (apply elem_of_cons in Ht as [Ht|Ht]; [discriminate|]).
        by apply elem_of_nil in Ht.
    + intros Ht. vm_compute in Ht.
      repeat (apply elem_of_cons in Ht as [Ht|Ht]; [discriminate|]).
      by apply elem_of_nil in Ht.
Defined.

(** Two bit arrays that differ in bit 224 only. *)
Lemma research_scans_ignore_high_bits_witness :
  ride_types_invented
    (@ImportResearchedRideTypes rct2_constants (32 :: replicate 7 0)
       {| ride_types_invented := ∅; ride_entries_invented := ∅;
          scenery_items_invented := ∅ |})
  = ride_types_invented
      (@ImportResearchedRideTypes rct2_constants (32 :: replicate 6 0 ++ [1])
         {| ride_types_invented := ∅; ride_entries_invented := ∅;
            scenery_items_invented := ∅ |}).
Proof.
  apply (@research_scans_ignore_high_bits rct2_constants).
  - simpl. lia.
  - simpl. lia.
  - intros index Hindex. change (0 <= index < 91) in Hindex.
    unfold bitmap_bit_set.
    assert (Hword : (Z.to_nat (Z.shiftr index 5) < 3)%nat).
    { rewrite Z.shiftr_div_pow2 by lia. change (2 ^ 5) with 32.
      assert (index / 32 < 3) by (apply Z.div_lt_upper_bound; lia).
      assert (0 <= index / 32) by (apply Z.div_pos; lia). lia. }
    destruct (Z.to_nat (Z.shiftr index 5)) as [|[|[|k]]]; [reflexivity..|lia].
Defined.

(** A file with the saved-game tag loaded as a scenario: the load stops at
    the type check, after a prefix of the scenario layout. *)
Lemma LoadFromStream_reads_a_layout_prefix_witness :
  exists n,
    events (@LoadFromStream rct2_constants _ _ sample_stream_ops true true
              (sample_file true (rct_s6_header.mk 0 0 0))).1
    `prefix_of` @scenario_events rct2_constants n.
Proof.
  destruct (@LoadFromStream_reads_a_layout_prefix rct2_constants _ _ sample_stream_ops
              true true (sample_file true (rct_s6_header.mk 0 0 0)) _ _
              (surjective_pairing _))
    as (n & evs & Hev & Hpre & _).
  exists n. rewrite Hev. exact Hpre.
Defined.

(** A scenario whose checksum fails, loaded with enforcement on. *)
Lemma LoadFromStream_throws_only_witness :
  LoadFromStream_exception true false (IOException "Invalid checksum.").
Proof.
  eapply (@LoadFromStream_throws_only rct2_constants _ _ sample_stream_ops
            true false (sample_file false (rct_s6_header.mk 1 0 0))).
  vm_compute. reflexivity.
Defined.

(** A well-formed scenario file: the load returns, and the objects chunk
    is among the members it read. *)
Lemma LoadFromStream_returned_witness :
  exists objects,
    (s6_objects, objects)
    ∈ s6 (@LoadFromStream rct2_constants _ _ sample_stream_ops true false
            (sample_file true (rct_s6_header.mk 1 0 0))).1.
Proof.
  destruct (@LoadFromStream_returned rct2_constants _ _ sample_stream_ops true false
              (sample_file true (rct_s6_header.mk 1 0 0))
              (@LoadFromStream rct2_constants _ _ sample_stream_ops true false
                 (sample_file true (rct_s6_header.mk 1 0 0))).1
              (rct_s6_header.mk 1 0 0))
    as [(header_chunk & rest & Hs6 & _ & _ & _ & Hin) _].
  - vm_compute. reflexivity.
  - exists (rct_s6_header.mk 1 0 0). rewrite Hs6.
    apply elem_of_app. right. apply elem_of_cons. by right.
Defined.
